(** * Comment pipeline of [xhs_manusCrawlerComments.py]

    A shallow embedding of the response filter, the comment parser, the
    dedup merger and the writers of the crawler, and the properties of
    the specification checked against them.

    Python values are embedded as follows.
    - A decoded JSON value is a [json]. A dict is kept as the list of its
      (key, value) pairs in insertion order; lookup takes the first pair
      with the key (a real dict has each key once). A number without
      fraction or exponent is a Python [int], a [JNum]; any other number,
      and the constants [NaN], [Infinity] and [-Infinity] that the decoder
      accepts, is a Python [float], a [JFloat].
    - An exception is a value of [exn]; code that can raise returns a
      [result], or the exception next to the state it leaves. A [try]
      block that catches it is a [match] on the result.
    - A Python [set] of comment identifiers is a [gset key], where a [key]
      is what a set tells apart: the class of a hashable value under
      Python's [==] (so [True], [1] and [1.0] are one key), and one more
      key for the float NaN, which a set finds by identity although [==]
      is false for it.
    - A string is a [string] of bytes, the UTF-8 text of the [str]; a
      surrogate code point, which a [str] can hold and UTF-8 cannot
      encode, stands as the three bytes its number would give. The
      patterns searched in URLs are ASCII, so a byte of a character beyond
      ASCII is neither part of a literal nor in [[a-f0-9]], as the
      character is not in Python.
    - The module-level dicts [all_comments_data] and [all_comments_flat]
      are the two fields of a [store], passed explicitly. The titles,
      pages and file indices of the items are the fields of a [registry],
      which only the per-item writer reads and changes. The display and
      the comment counts of the pages are not part of either.
    - Where the characters of a Python [str] are counted or compared one
      by one (a page title, a file name, a cell of the sheet) the string
      is the list of its code points, a [pystr].
    - The output directory is a map from file names to what the files
      hold. Whether a file can be opened is up to the file system, a
      parameter of the writers; a write raises when text cannot be
      encoded, and then leaves what was written before.
    - A loop that the code bounds by a counter ([wait_for_login]) takes
      fuel, and is shown to return with the fuel its bound asks for. What
      the page answers in each round is a parameter of the loop.

    Beside the pipeline, the file covers the cleaning of file names, the
    per-item writer and the final save, the reading of the URL sheet with
    the removal of duplicates, and the wait for the login. *)

From stdpp Require Import base option list strings gmap.
From Stdlib Require Import ZArith Ascii String DecimalString SpecFloat.

Set Warnings "-clear-no-such-hyp".

Local Open Scope string_scope.
Local Open Scope Z_scope.
Local Open Scope list_scope.

(** ** JSON values and the Python operations used on them *)

#[local] Unset Elimination Schemes.
Inductive json : Type :=
| JNull
| JBool (b : bool)
| JNum (n : Z)
| JFloat (f : spec_float)
| JStr (s : string)
| JArr (l : list json)
| JObj (m : list (string * json)).
#[local] Set Elimination Schemes.

Inductive exn : Type :=
| AttributeError | TypeError | KeyError | ValueError | OSError | UnicodeEncodeError.

Inductive result (A : Type) : Type :=
| Ok (a : A)
| Raise (e : exn).
Arguments Ok {A} a.
Arguments Raise {A} e.

#[global] Instance result_ret : MRet result := fun A a => Ok a.
#[global] Instance result_bind : MBind result := fun A B f r =>
  match r with
  | Ok a => f a
  | Raise e => Raise e
  end.

(** [d.get(k)] on an insertion-ordered dict; [None] when the key is absent. *)
Fixpoint dict_lookup {V : Type} (k : string) (d : list (string * V)) : option V :=
  match d with
  | [] => None
  | (k', v) :: r => if String.eqb k k' then Some v else dict_lookup k r
  end.

(** [o.get(k, d)]: only a dict has the method. *)
Definition py_get (o : json) (k : string) (d : json) : result json :=
  match o with
  | JObj m => Ok (default d (dict_lookup k m))
  | _ => Raise AttributeError
  end.

(** The items of [for x in o]: a list gives its elements, a string its
    characters, a dict its keys; nothing else is iterable. *)
Definition py_iter (o : json) : result (list json) :=
  match o with
  | JArr l => Ok l
  | JStr s => Ok (map (fun c => JStr (String c EmptyString)) (list_ascii_of_string s))
  | JObj m => Ok (map (fun kv => JStr (fst kv)) m)
  | _ => Raise TypeError
  end.

(** Truth value of a Python object (the test of [if] and [not]). *)
Definition truthy (v : json) : bool :=
  match v with
  | JNull => false
  | JBool b => b
  | JNum n => negb (n =? 0)
  | JFloat f => match f with S754_zero _ => false | _ => true end
  | JStr s => negb (String.eqb s "")
  | JArr l => match l with [] => false | _ => true end
  | JObj m => match m with [] => false | _ => true end
  end.

(** The elements a Python set tells apart: [None], the integral numbers
    (with [False == 0], [True == 1] and [1.0 == 1]), the strings, the
    finite floats that are not integral ([(-1)^neg * m * 2^e] with [m]
    odd and [e] negative), the two infinities, and the float NaN. A set
    finds NaN by identity, and [json] decodes every NaN to one and the
    same object. *)
Inductive key : Type :=
| KNone
| KNum (n : Z)
| KStr (s : string)
| KFrac (neg : bool) (m : positive) (e : Z)
| KInf (neg : bool)
| KNan.

#[global] Instance key_eq_dec : EqDecision key.
Proof. solve_decision. Defined.

#[global] Instance key_countable : Countable key.
Proof.
  refine (inj_countable'
    (fun k => match k with
              | KNone => inl ()
              | KNum n => inr (inl n)
              | KStr s => inr (inr (inl s))
              | KFrac neg m e => inr (inr (inr (inl (neg, m, e))))
              | KInf neg => inr (inr (inr (inr (inl neg))))
              | KNan => inr (inr (inr (inr (inr ()))))
              end)
    (fun x => match x with
              | inl _ => KNone
              | inr (inl n) => KNum n
              | inr (inr (inl s)) => KStr s
              | inr (inr (inr (inl (neg, m, e)))) => KFrac neg m e
              | inr (inr (inr (inr (inl neg)))) => KInf neg
              | inr (inr (inr (inr (inr _)))) => KNan
              end) _).
  intros []; reflexivity.
Defined.

(** The mantissa without its factors 2, which go to the exponent. *)
Fixpoint odd_part (m : positive) (e : Z) : positive * Z :=
  match m with
  | xO m' => odd_part m' (e + 1)
  | _ => (m, e)
  end.

(** The element a float is in a set: floats are compared by value, with
    each other and with the integers. *)
Definition float_key (f : spec_float) : key :=
  match f with
  | S754_nan => KNan
  | S754_infinity neg => KInf neg
  | S754_zero _ => KNum 0
  | S754_finite neg m e =>
    let '(m', e') := odd_part m e in
    if 0 <=? e' then KNum ((if neg then -1 else 1) * Z.pos m' * 2 ^ e')
    else KFrac neg m' e'
  end.

(** [hash(v)], as a set needs it: lists and dicts are unhashable. *)
Definition py_hash (v : json) : result key :=
  match v with
  | JNull => Ok KNone
  | JBool b => Ok (KNum (if b then 1 else 0))
  | JNum n => Ok (KNum n)
  | JFloat f => Ok (float_key f)
  | JStr s => Ok (KStr s)
  | JArr _ | JObj _ => Raise TypeError
  end.

(** [v == x] for a hashable [x] of key [k]: an unhashable [v] never equals
    it, a hashable one does when the keys agree, except that NaN equals
    nothing, itself included. *)
Definition py_eq_key (v : json) (k : key) : bool :=
  match py_hash v with
  | Ok k' => bool_decide (k' = k) && negb (bool_decide (k = KNan))
  | Raise _ => false
  end.

(** ** Records built by the parser *)

(** A reply inside a nested record (the dict [sub_comment_data]). *)
Record sub_comment : Type := SubComment {
  sc_content : json;
  sc_like_count : json;
  sc_ip_location : json;
  sc_nickname : json;
  sc_comment_id : json
}.

(** A top-level nested record (the dict [comment_data]). *)
Record comment : Type := Comment {
  content : json;
  like_count : json;
  ip_location : json;
  nickname : json;
  comment_id : json;
  sub_comments : list sub_comment
}.

(** A flat record (the dicts [flat_comment] and [flat_sub_comment]). *)
Record flat_comment : Type := FlatComment {
  fc_content : json;
  fc_like_count : json;
  fc_ip_location : json;
  fc_nickname : json;
  fc_note_id : string;
  fc_comment_id : json;
  fc_parent_comment_id : json;
  fc_is_sub_comment : bool
}.

(** The five [.get] calls made on a comment or reply entry, in source
    order: content, like_count, ip_location, user_info.nickname, id. *)
Definition entry_fields (c : json) : result (json * json * json * json * json) :=
  ct ← py_get c "content" (JStr "");
  lk ← py_get c "like_count" (JStr "0");
  ip ← py_get c "ip_location" (JStr "");
  ui ← py_get c "user_info" (JObj []);
  nk ← py_get ui "nickname" (JStr "");
  id ← py_get c "id" (JStr "");
  Ok (ct, lk, ip, nk, id).

(** The state of the parser's loops when they stop: the lists built so
    far and the exception that stopped them, if any. *)
Definition parsed : Type := (list comment * list flat_comment * option exn)%type.

(** The inner loop [for sub_comment in sub_comments], appending to
    [comment_data['sub_comments']] and to [flat_comments]. *)
Fixpoint parse_sub_comments (note_id : string) (parent_id : json) (subs : list json)
    (acc : list sub_comment) (flat : list flat_comment)
    : list sub_comment * list flat_comment * option exn :=
  match subs with
  | [] => (acc, flat, None)
  | s :: rest =>
    match entry_fields s with
    | Raise e => (acc, flat, Some e)
    | Ok (ct, lk, ip, nk, id) =>
      parse_sub_comments note_id parent_id rest
        (acc ++ [SubComment ct lk ip nk id])
        (flat ++ [FlatComment ct lk ip nk note_id id parent_id true])
    end
  end.

(** The outer loop [for comment in comments_list]. The flat row of a
    comment is appended before its replies are read; its nested record
    only after all of them were. *)
Fixpoint parse_comments (note_id : string) (cs : list json)
    (nested : list comment) (flat : list flat_comment) : parsed :=
  match cs with
  | [] => (nested, flat, None)
  | c :: rest =>
    match entry_fields c with
    | Raise e => (nested, flat, Some e)
    | Ok (ct, lk, ip, nk, id) =>
      let flat1 := flat ++ [FlatComment ct lk ip nk note_id id (JStr "") false] in
      match (sc ← py_get c "sub_comments" (JArr []); py_iter sc) with
      | Raise e => (nested, flat1, Some e)
      | Ok subs =>
        match parse_sub_comments note_id id subs [] flat1 with
        | (_, flat2, Some e) => (nested, flat2, Some e)
        | (scs, flat2, None) =>
          parse_comments note_id rest (nested ++ [Comment ct lk ip nk id scs]) flat2
        end
      end
    end
  end.

(** The gate [not response_data.get('success') or response_data.get('code') != 0]. *)
Definition gate_closed (response_data : json) : result bool :=
  success ← py_get response_data "success" JNull;
  if negb (truthy success) then Ok true
  else code ← py_get response_data "code" JNull;
       Ok (negb (py_eq_key code (KNum 0))).

(** [parse_comment_response]: the two lists it returns and, third, the
    exception its [except] clause caught and printed ([None]: none). *)
Definition parse_comment_response (response_data : json) (note_id : string) : parsed :=
  match gate_closed response_data with
  | Raise e => ([], [], Some e)
  | Ok true => ([], [], None)
  | Ok false =>
    match (data ← py_get response_data "data" (JObj []);
           comments_list ← py_get data "comments" (JArr []);
           py_iter comments_list) with
    | Raise e => ([], [], Some e)
    | Ok cs => parse_comments note_id cs [] []
    end
  end.

(** ** The accumulated state and the dedup merger *)

(** The two module-level dicts, each in insertion order. *)
Record store : Type := Store {
  all_comments_data : list (string * list comment);
  all_comments_flat : list (string * list flat_comment)
}.

Definition empty_store : store := Store [] [].

(** [d[k]]: a missing key raises. *)
Definition dict_item {V : Type} (k : string) (d : list (string * V)) : result V :=
  match dict_lookup k d with
  | Some v => Ok v
  | None => Raise KeyError
  end.

(** [if k not in d: d[k] = []]: a new key goes last. *)
Definition dict_init {V : Type} (k : string) (d : list (string * list V))
    : list (string * list V) :=
  match dict_lookup k d with
  | Some _ => d
  | None => d ++ [(k, [])]
  end.

(** [d[k].extend(new)] on a dict that has the key: the list stored under
    the first pair with key [k] grows in place. *)
Fixpoint dict_extend {V : Type} (k : string) (new : list V) (d : list (string * list V))
    : list (string * list V) :=
  match d with
  | [] => []
  | (k', v) :: r =>
    if String.eqb k k' then (k', v ++ new) :: r else (k', v) :: dict_extend k new r
  end.

(** [for sc in c.get('sub_comments', []): existing_nested_ids.add(sc['comment_id'])] *)
Fixpoint add_sub_ids (subs : list sub_comment) (ids : gset key) : result (gset key) :=
  match subs with
  | [] => Ok ids
  | sc :: r => k ← py_hash (sc_comment_id sc); add_sub_ids r ({[k]} ∪ ids)
  end.

(** The loop that collects the identifiers of the nested sequence, top
    level and replies. *)
Fixpoint add_nested_ids (cs : list comment) (ids : gset key) : result (gset key) :=
  match cs with
  | [] => Ok ids
  | c :: r =>
    k ← py_hash (comment_id c);
    ids' ← add_sub_ids (sub_comments c) ({[k]} ∪ ids);
    add_nested_ids r ids'
  end.

(** The set comprehension [{c['comment_id'] for c in all_comments_flat[note_id]}]. *)
Fixpoint add_flat_ids (fs : list flat_comment) (ids : gset key) : result (gset key) :=
  match fs with
  | [] => Ok ids
  | f :: r => k ← py_hash (fc_comment_id f); add_flat_ids r ({[k]} ∪ ids)
  end.

(** [next((x for x in l if p(x)), None)] *)
Fixpoint next_match {A : Type} (p : A -> bool) (l : list A) : option A :=
  match l with
  | [] => None
  | x :: r => if p x then Some x else next_match p r
  end.

(** The four variables the filtering loop updates. *)
Record merge_state : Type := MergeState {
  new_nested_comments : list comment;
  new_flat_comments : list flat_comment;
  existing_nested_ids : gset key;
  existing_flat_ids : gset key
}.

(** The test of the generators that search the flat batch: the same
    identifier, and the reply flag as asked. *)
Definition row_matches (k : key) (sub : bool) (fc : flat_comment) : bool :=
  py_eq_key (fc_comment_id fc) k && Bool.eqb (fc_is_sub_comment fc) sub.

(** The flat record searched for a nested one. *)
Definition flat_for (flat_comments : list flat_comment) (k : key) (sub : bool)
    : option flat_comment :=
  next_match (row_matches k sub) flat_comments.

(** [if flat_c and flat_c['comment_id'] not in existing_flat_ids: ...]
    (a found record is a non-empty dict, hence true). *)
Definition accept_flat (found : option flat_comment) (ms : merge_state)
    : result merge_state :=
  match found with
  | None => Ok ms
  | Some fc =>
    k ← py_hash (fc_comment_id fc);
    if decide (k ∈ existing_flat_ids ms) then Ok ms
    else Ok (MergeState (new_nested_comments ms)
                        (new_flat_comments ms ++ [fc])
                        (existing_nested_ids ms)
                        ({[k]} ∪ existing_flat_ids ms))
  end.

(** [for sub_c in nested_c.get('sub_comments', []): ...] *)
Fixpoint merge_subs (flat_comments : list flat_comment) (subs : list sub_comment)
    (ms : merge_state) : result merge_state :=
  match subs with
  | [] => Ok ms
  | sub_c :: r =>
    k ← py_hash (sc_comment_id sub_c);
    if decide (k ∈ existing_nested_ids ms) then merge_subs flat_comments r ms
    else
      ms' ← accept_flat (flat_for flat_comments k true)
              (MergeState (new_nested_comments ms) (new_flat_comments ms)
                          ({[k]} ∪ existing_nested_ids ms) (existing_flat_ids ms));
      merge_subs flat_comments r ms'
  end.

(** One round of [for nested_c in nested_comments]. *)
Definition merge_one (flat_comments : list flat_comment) (nested_c : comment)
    (ms : merge_state) : result merge_state :=
  k ← py_hash (comment_id nested_c);
  if decide (k ∈ existing_nested_ids ms) then Ok ms
  else
    ms' ← accept_flat (flat_for flat_comments k false)
            (MergeState (new_nested_comments ms ++ [nested_c]) (new_flat_comments ms)
                        ({[k]} ∪ existing_nested_ids ms) (existing_flat_ids ms));
    merge_subs flat_comments (sub_comments nested_c) ms'.

(** [for nested_c in nested_comments: ...] *)
Fixpoint merge_loop (flat_comments : list flat_comment) (nested_comments : list comment)
    (ms : merge_state) : result merge_state :=
  match nested_comments with
  | [] => Ok ms
  | nested_c :: r =>
    ms' ← merge_one flat_comments nested_c ms;
    merge_loop flat_comments r ms'
  end.

(** The filtering of one parsed batch against the sequences of an item:
    both known-identifier sets are built, then the loop runs. *)
Definition filter_new (old_nested : list comment) (old_flat : list flat_comment)
    (nested_comments : list comment) (flat_comments : list flat_comment)
    : result merge_state :=
  nids ← add_nested_ids old_nested ∅;
  fids ← add_flat_ids old_flat ∅;
  merge_loop flat_comments nested_comments (MergeState [] [] nids fids).

(** Lines 259 to 304 of [handle_comment_api_response]: the merge of a
    parsed batch into the store. An exception raised on the way is caught
    by the handler's [except], after the keys were initialised and before
    anything was appended. *)
Definition merge_batch (st : store) (note_id : string)
    (nested_comments : list comment) (flat_comments : list flat_comment) : store :=
  match nested_comments, flat_comments with
  | [], [] => st
  | _, _ =>
    let data := dict_init note_id (all_comments_data st) in
    let flat := dict_init note_id (all_comments_flat st) in
    match (old_nested ← dict_item note_id data;
           old_flat ← dict_item note_id flat;
           filter_new old_nested old_flat nested_comments flat_comments) with
    | Raise _ => Store data flat
    | Ok ms =>
      match new_nested_comments ms with
      | [] => Store data flat
      | _ => Store (dict_extend note_id (new_nested_comments ms) data)
                   (dict_extend note_id (new_flat_comments ms) flat)
      end
    end
  end.

(** Parse one response body for an item and merge the result. *)
Definition parse_and_merge (st : store) (note_id : string) (response_body : json) : store :=
  let '(nested_comments, flat_comments, _) := parse_comment_response response_body note_id in
  merge_batch st note_id nested_comments flat_comments.

(** ** The response filter *)

Definition COMMENT_API_PATTERN : string :=
  "https://edith.xiaohongshu.com/api/sns/web/v2/comment/page?note_id=".

(** The character class [[a-f0-9]]. *)
Definition is_hex (c : ascii) : bool :=
  let n := nat_of_ascii c in
  ((48 <=? n) && (n <=? 57) || (97 <=? n) && (n <=? 102))%nat.

(** The longest run of [[a-f0-9]] at the head of a string (the greedy [+]). *)
Fixpoint hex_run (s : string) : string :=
  match s with
  | EmptyString => EmptyString
  | String c r => if is_hex c then String c (hex_run r) else EmptyString
  end.

(** [s] without its prefix [p], when it starts with [p]. *)
Fixpoint strip_prefix (p s : string) : option string :=
  match p, s with
  | EmptyString, _ => Some s
  | String a p', String b s' => if Ascii.eqb a b then strip_prefix p' s' else None
  | String _ _, EmptyString => None
  end.

(** A match of [p([a-f0-9]+)] at the very start of [s]: its group 1. *)
Definition match_here (p s : string) : option string :=
  match strip_prefix p s with
  | Some r => match hex_run r with
              | EmptyString => None
              | g => Some g
              end
  | None => None
  end.

(** [re.search(p + '([a-f0-9]+)', s)] for a literal [p]: group 1 of the
    leftmost match, [None] without a match. *)
Fixpoint re_search_hex (p s : string) : option string :=
  match match_here p s with
  | Some g => Some g
  | None => match s with
            | EmptyString => None
            | String _ s' => re_search_hex p s'
            end
  end.

(** [p in s] on strings. *)
Fixpoint contains (p s : string) : bool :=
  match strip_prefix p s with
  | Some _ => true
  | None => match s with
            | EmptyString => false
            | String _ s' => contains p s'
            end
  end.

Definition extract_note_id_from_url (url : string) : string :=
  match re_search_hex "/explore/" url with
  | Some g => g
  | None => match re_search_hex "note_id=" url with
            | Some g => g
            | None => EmptyString
            end
  end.

(** An intercepted response: its URL and its decoded body ([None] when
    [response.json()] raises). *)
Record response : Type := Response {
  url : string;
  body : option json
}.

(** [handle_comment_api_response], as far as the two dicts go (titles,
    counts, the display and the files written afterwards are not part of
    this state). *)
Definition handle_comment_api_response (st : store) (r : response) : store :=
  if negb (contains COMMENT_API_PATTERN (url r)) then st
  else match re_search_hex "note_id=" (url r) with
       | None => st
       | Some note_id =>
         match body r with
         | None => st
         | Some response_body => parse_and_merge st note_id response_body
         end
       end.

(** ** Writing files *)

(** A Python [str] whose characters are counted and compared one by one
    (a page title, a file name, a cell of the sheet): the list of its
    code points. *)
Definition pystr : Type := list N.

(** The code points of an ASCII literal. An item identifier is turned
    into a [pystr] in the same way: the handler creates items under
    hexadecimal identifiers only. *)
Definition codes (s : string) : pystr := map N_of_ascii (list_ascii_of_string s).

(** What a file holds after a write: the array given to [json.dump]; the
    beginning of that array's text, when [json.dump] raised on the way;
    or the header and the rows that the [csv.DictWriter] wrote (cells are
    kept as values; their rendering as text is the csv module's). *)
Inductive file_content : Type :=
| JsonFile (records : list comment)
| JsonCut (records : list comment)
| CsvFile (header : list string) (rows : list (list json)).

Definition CSV_FIELDNAMES : list string :=
  ["content"; "like_count"; "ip_location"; "nickname";
   "note_id"; "comment_id"; "parent_comment_id"; "is_sub_comment"].

(** The cells of one flat record in the order of [CSV_FIELDNAMES]. *)
Definition csv_row (fc : flat_comment) : list json :=
  [fc_content fc; fc_like_count fc; fc_ip_location fc; fc_nickname fc;
   JStr (fc_note_id fc); fc_comment_id fc; fc_parent_comment_id fc;
   JBool (fc_is_sub_comment fc)].

Definition ALL_JSON : string := "All CommentData.json".
Definition ALL_CSV : string := "All CommentData.csv".

(** [for note_id, xs in d.items(): acc.extend(xs)] *)
Definition extend_all {V : Type} (d : list (string * list V)) : list V :=
  List.concat (map snd d).

(** A surrogate code point in the bytes of a str: the byte [0xED]
    followed by a byte from [0xA0] to [0xBF]. The JSON decoder leaves one
    in a str for an escape such as [\ud83d] that has no partner. *)
Definition surrogate_bytes (a b : ascii) : bool :=
  ((nat_of_ascii a =? 237) && (160 <=? nat_of_ascii b) && (nat_of_ascii b <=? 191))%nat.

Fixpoint has_surrogate (s : string) : bool :=
  match s with
  | EmptyString => false
  | String a r =>
    match r with
    | EmptyString => false
    | String b _ => surrogate_bytes a b || has_surrogate r
    end
  end.

(** A value whose JSON text a file opened with [encoding='utf-8'] takes:
    no str in it, key or value, holds a surrogate ([ensure_ascii=False]
    writes the characters as they are). *)
Fixpoint json_encodable (j : json) : bool :=
  match j with
  | JStr s => negb (has_surrogate s)
  | JArr l => forallb json_encodable l
  | JObj m => forallb (fun kv => let '(k, v) := kv in
                                 negb (has_surrogate k) && json_encodable v) m
  | _ => true
  end.

Definition sub_comment_encodable (sc : sub_comment) : bool :=
  forallb json_encodable
    [sc_content sc; sc_like_count sc; sc_ip_location sc; sc_nickname sc; sc_comment_id sc].

Definition comment_encodable (c : comment) : bool :=
  forallb json_encodable
    [content c; like_count c; ip_location c; nickname c; comment_id c]
  && forallb sub_comment_encodable (sub_comments c).

(** A cell as the csv writer renders it: a str as it is, [None] as the
    empty string, any other value through [str()], which writes a
    surrogate inside a list or a dict as an escape. Only a str cell can
    fail to encode. *)
Definition cell_encodable (j : json) : bool :=
  match j with
  | JStr s => negb (has_surrogate s)
  | _ => true
  end.

Definition row_encodable (fc : flat_comment) : bool := forallb cell_encodable (csv_row fc).

(** The csv writer hands the file one row at a time: the rows before
    the first one that cannot be encoded are in the file. *)
Fixpoint rows_before_failure (rows : list flat_comment) : list flat_comment :=
  match rows with
  | [] => []
  | r :: rest => if row_encodable r then r :: rows_before_failure rest else []
  end.

(** The two [with open(...)] blocks that both writers end with, on the
    output directory, a map from the name of a file to its content.
    [open_raises name] is the exception with which making the directory
    or opening the file of that name for writing fails ([OSError] for a
    name that is too long, [ValueError] for one with a null character),
    [None] when the file opens: when [open] raises no file is touched. A
    file that was opened takes what is written to it.
    The JSON file is always written; [json.dump] raises at the first str
    that cannot be encoded and leaves the beginning of the text. The CSV
    file is written only when there is a flat record; it gets the header
    and then row after row. An exception ends the function: what comes
    after it is not run. *)
Definition write_files (open_raises : pystr -> option exn) (json_path csv_path : pystr)
    (nested_comments : list comment) (flat_comments : list flat_comment)
    (dir : gmap pystr file_content) : gmap pystr file_content * option exn :=
  match open_raises json_path with
  | Some e => (dir, Some e)
  | None =>
    if negb (forallb comment_encodable nested_comments)
    then (<[json_path := JsonCut nested_comments]> dir, Some UnicodeEncodeError)
    else
      let dir := <[json_path := JsonFile nested_comments]> dir in
      match flat_comments with
      | [] => (dir, None)
      | _ =>
        match open_raises csv_path with
        | Some e => (dir, Some e)
        | None =>
          if forallb row_encodable flat_comments
          then (<[csv_path := CsvFile CSV_FIELDNAMES (map csv_row flat_comments)]> dir, None)
          else (<[csv_path := CsvFile CSV_FIELDNAMES
                                (map csv_row (rows_before_failure flat_comments))]> dir,
                Some UnicodeEncodeError)
        end
      end
  end.

(** [save_all_comments_to_file]: the directory afterwards and the
    exception raised, if any. It returns early on an empty dict and when
    there is no record at all. *)
Definition save_all_comments_to_file (open_raises : pystr -> option exn) (st : store)
    (dir : gmap pystr file_content) : gmap pystr file_content * option exn :=
  match all_comments_data st with
  | [] => (dir, None)
  | _ =>
    let all_nested_comments := extend_all (all_comments_data st) in
    let all_flat_comments := extend_all (all_comments_flat st) in
    match all_nested_comments, all_flat_comments with
    | [], [] => (dir, None)
    | _, _ => write_files open_raises (codes ALL_JSON) (codes ALL_CSV)
                all_nested_comments all_flat_comments dir
    end
  end.

(** ** Notions used to state the properties *)

(** The value [m.get(k, d)] of a field of a dict with pairs [m]. *)
Definition field (m : list (string * json)) (k : string) (d : json) : json :=
  default d (dict_lookup k m).

(** The key of an identifier, when it has one. *)
Definition key_of (v : json) : option key :=
  match py_hash v with
  | Ok k => Some k
  | Raise _ => None
  end.

Definition hashable (v : json) : Prop := is_Some (key_of v).

Definition key_list (ids : list json) : list key := omap key_of ids.

(** The set of identifiers of a list, as a Python set holds them. *)
Definition key_set (ids : list json) : gset key := list_to_set (key_list ids).

Definition reply_ids (c : comment) : list json := map sc_comment_id (sub_comments c).

Definition top_ids (cs : list comment) : list json := map comment_id cs.

(** Every identifier of a nested sequence: each record's own, then those
    of its replies. *)
Definition nested_ids (cs : list comment) : list json :=
  List.concat (map (fun c => comment_id c :: reply_ids c) cs).

Definition flat_ids (fs : list flat_comment) : list json := map fc_comment_id fs.

(** The sequences of an item; an item without an entry has none. *)
Definition item_nested (st : store) (note_id : string) : list comment :=
  default [] (dict_lookup note_id (all_comments_data st)).

Definition item_flat (st : store) (note_id : string) : list flat_comment :=
  default [] (dict_lookup note_id (all_comments_flat st)).

(** The states the pipeline can be in: the empty one, and any reached by
    parsing and merging one more response body for some item. *)
Inductive reachable : store -> Prop :=
| reachable_empty : reachable empty_store
| reachable_step st note_id response_body :
    reachable st -> reachable (parse_and_merge st note_id response_body).

(** The flat batch has, for a nested record, a top-level row with its
    identifier and a reply row for each of its replies, as far as the
    search by [==] can find them: nothing equals a NaN identifier. *)
Definition covered (flat_comments : list flat_comment) (c : comment) : Prop :=
  (forall k, key_of (comment_id c) = Some k -> k <> KNan ->
     is_Some (flat_for flat_comments k false)) /\
  (forall sc k, sc ∈ sub_comments c -> key_of (sc_comment_id sc) = Some k -> k <> KNan ->
     is_Some (flat_for flat_comments k true)).

(** The flat rows the parser builds for a nested record: the row of
    the comment, then the rows of its replies. *)
Definition top_row (note_id : string) (c : comment) : flat_comment :=
  FlatComment (content c) (like_count c) (ip_location c) (nickname c)
              note_id (comment_id c) (JStr "") false.

Definition sub_row (note_id : string) (parent_id : json) (sc : sub_comment) : flat_comment :=
  FlatComment (sc_content sc) (sc_like_count sc) (sc_ip_location sc) (sc_nickname sc)
              note_id (sc_comment_id sc) parent_id true.

Definition rows_of (note_id : string) (c : comment) : list flat_comment :=
  top_row note_id c :: map (sub_row note_id (comment_id c)) (sub_comments c).

Definition all_rows (note_id : string) (cs : list comment) : list flat_comment :=
  List.concat (map (rows_of note_id) cs).

Definition all_reply_ids (cs : list comment) : list json :=
  List.concat (map reply_ids cs).

(** ** Invariants *)

(** [ms'] has the flat list and the flat set of [ms], grown by records
    with new, pairwise different, hashable identifiers. *)
Definition flat_ext (ms ms' : merge_state) : Prop :=
  exists acc,
    new_flat_comments ms' = new_flat_comments ms ++ acc /\
    existing_flat_ids ms' = key_set (flat_ids acc) ∪ existing_flat_ids ms /\
    Forall hashable (flat_ids acc) /\
    NoDup (key_list (flat_ids acc)) /\
    (forall k, k ∈ key_list (flat_ids acc) -> k ∉ existing_flat_ids ms).

(** What holds of the two sequences of an item in every reachable state. *)
Record consistent (nested : list comment) (flat : list flat_comment) : Prop := Consistent {
  cons_nested_hashable : Forall hashable (nested_ids nested);
  cons_flat_hashable : Forall hashable (flat_ids flat);
  cons_same_ids : key_set (flat_ids flat) = key_set (nested_ids nested) ∖ {[KNan]};
  cons_top_nodup : NoDup (key_list (top_ids nested));
  cons_flat_nodup : NoDup (key_list (flat_ids flat))
}.

(** Both dicts have the same keys in the same order, each once. *)
Definition same_keys (st : store) : Prop :=
  map fst (all_comments_data st) = map fst (all_comments_flat st) /\
  NoDup (map fst (all_comments_data st)).

(** ** Concrete responses *)

(** A successful body with the given comment entries. *)
Definition body_of (comments : list json) : json :=
  JObj [("success", JBool true); ("code", JNum 0);
        ("data", JObj [("comments", JArr comments)])].

Definition reply_entry (id text : string) : json :=
  JObj [("id", JStr id); ("content", JStr text)].

Definition comment_entry (id text : string) (replies : list json) : json :=
  JObj [("id", JStr id); ("content", JStr text); ("sub_comments", JArr replies)].

(** The example body of the specification: comment [c1] with reply [c1a]. *)
Definition ex_body : json :=
  body_of [comment_entry "c1" "hi" [reply_entry "c1a" "reply"]].

Definition ex_store : store := parse_and_merge empty_store "abc123" ex_body.

(** A store that knows the top-level comment [p] of item [abc123]. *)
Definition body_p : json := body_of [comment_entry "p" "parent" []].
Definition store_p : store := parse_and_merge empty_store "abc123" body_p.

(** [p] comes again, now with a reply [r] never seen. *)
Definition body_p_r : json :=
  body_of [comment_entry "p" "parent" [reply_entry "r" "under p"]].

(** [p] comes again with the reply [r], followed by a new comment [q]
    that has a reply with the same identifier [r]. *)
Definition body_p_q : json :=
  body_of [comment_entry "p" "parent" [reply_entry "r" "under p"];
           comment_entry "q" "other" [reply_entry "r" "under q"]].

(** One comment whose reply list has the identifier [x] twice. *)
Definition body_dup : json :=
  body_of [comment_entry "a" "top" [reply_entry "x" "one"; reply_entry "x" "two"]].

(** One comment whose identifier is the float NaN (the JSON text [NaN],
    which Python's decoder accepts). *)
Definition body_nan : json :=
  body_of [JObj [("id", JFloat S754_nan); ("content", JStr "odd")]].

Definition store_nan : store := parse_and_merge empty_store "abc123" body_nan.


Definition flat_row (id text parent : string) (sub : bool) : flat_comment :=
  FlatComment (JStr text) (JStr "0") (JStr "") (JStr "") "abc123"
              (JStr id) (JStr parent) sub.

Definition ex_response : response :=
  Response (COMMENT_API_PATTERN +:+ "abc123&cursor=&top_comment_id=") (Some ex_body).

(** An entry whose [sub_comments] is [null]: its flat row is built, its
    nested record is not. *)
Definition body_null_replies : json :=
  body_of [JObj [("id", JStr "a"); ("sub_comments", JNull)]].

Definition store_no_records : store :=
  parse_and_merge empty_store "abc123" body_null_replies.

(** An output directory that still holds an aggregate table with a row. *)
Definition dir_old_table : gmap pystr file_content :=
  {[codes ALL_CSV := CsvFile CSV_FIELDNAMES [csv_row (flat_row "old" "left over" "" false)]]}.

(** Two items: three flat records for the first, two for the second. *)
Definition body_three : json :=
  body_of [comment_entry "c1" "hi" [reply_entry "c1a" "one"; reply_entry "c1b" "two"]].
Definition body_two : json :=
  body_of [comment_entry "d1" "ho" [reply_entry "d1a" "one"]].
Definition store_two_items : store :=
  parse_and_merge (parse_and_merge empty_store "abc123" body_three) "def456" body_two.

(** ** Notions for the URL patterns *)

Fixpoint all_hex (s : string) : bool :=
  match s with
  | EmptyString => true
  | String c r => is_hex c && all_hex r
  end.

(** The string starts with a character of [[a-f0-9]]. *)
Definition starts_hex (s : string) : bool :=
  match s with
  | EmptyString => false
  | String c _ => is_hex c
  end.

(** After the prefix [pre], [url] goes on with [p] and then with the run
    [g] of hexadecimal characters, which is not empty and ends there. *)
Definition run_after (p url pre g : string) : Prop :=
  exists rest, url = pre +:+ p +:+ g +:+ rest /\
               g <> EmptyString /\ all_hex g = true /\ starts_hex rest = false.

(** [g] is the hexadecimal run that follows the first [p] followed by
    one: no [p] followed by a hexadecimal character starts further left. *)
Definition first_run (p url g : string) : Prop :=
  exists pre, run_after p url pre g /\
    forall pre1 rest1, url = pre1 +:+ p +:+ rest1 -> starts_hex rest1 = true ->
      (String.length pre <= String.length pre1)%nat.

(** Nowhere in [url] is [p] followed by a hexadecimal character. *)
Definition no_run (p url : string) : Prop :=
  forall pre1 rest1, url = pre1 +:+ p +:+ rest1 -> starts_hex rest1 = false.

(** ** Notions for the further properties *)

(** Several merges in a row: [st'] is reached from [st] by parsing and
    merging response bodies, for any items. *)
Inductive steps : store -> store -> Prop :=
| steps_refl st : steps st st
| steps_step st st' note_id response_body :
    steps st st' -> steps st (parse_and_merge st' note_id response_body).

(** The states the handler reaches from the empty store, one intercepted
    response after the other. *)
Inductive served : store -> Prop :=
| served_empty : served empty_store
| served_step st r : served st -> served (handle_comment_api_response st r).

(** An author object that [.get('nickname', '')] can be called on: absent
    (the default [{}] is used) or an object. *)
Definition user_info_ok (m : list (string * json)) : bool :=
  match dict_lookup "user_info" m with
  | None | Some (JObj _) => true
  | Some _ => false
  end.

Definition well_formed_reply (j : json) : bool :=
  match j with
  | JObj m => user_info_ok m
  | _ => false
  end.

(** A comment entry on which the parser cannot raise: an object, with
    an author object as above, and replies that are absent or a list of
    such objects. *)
Definition well_formed_comment (j : json) : bool :=
  match j with
  | JObj m =>
    user_info_ok m &&
    match dict_lookup "sub_comments" m with
    | None => true
    | Some (JArr l) => forallb well_formed_reply l
    | Some _ => false
    end
  | _ => false
  end.

(** The fields of an entry written without loops or exceptions: what
    the parser is to build from a well-formed entry. *)
Definition nickname_of (m : list (string * json)) : json :=
  match dict_lookup "user_info" m with
  | Some (JObj u) => field u "nickname" (JStr "")
  | _ => JStr ""
  end.

Definition pairs_of (j : json) : list (string * json) :=
  match j with
  | JObj m => m
  | _ => []
  end.

Definition reply_of (j : json) : sub_comment :=
  let m := pairs_of j in
  SubComment (field m "content" (JStr "")) (field m "like_count" (JStr "0"))
             (field m "ip_location" (JStr "")) (nickname_of m) (field m "id" (JStr "")).

Definition replies_of (m : list (string * json)) : list json :=
  match dict_lookup "sub_comments" m with
  | Some (JArr l) => l
  | _ => []
  end.

Definition comment_of (j : json) : comment :=
  let m := pairs_of j in
  Comment (field m "content" (JStr "")) (field m "like_count" (JStr "0"))
          (field m "ip_location" (JStr "")) (nickname_of m) (field m "id" (JStr ""))
          (map reply_of (replies_of m)).

(** A body that the gate does not let through: not an object, or an
    object whose success value is absent or false, or whose code is not
    equal to 0. *)
Definition unsuccessful (response_data : json) : Prop :=
  match response_data with
  | JObj m => truthy (field m "success" JNull) = false \/
              py_eq_key (field m "code" JNull) (KNum 0) = false
  | _ => True
  end.

(** The entries the outer loop of the parser goes through, when they
    can be read: [response_data.get('data', {}).get('comments', [])],
    iterated. *)
Definition comments_list (response_data : json) : result (list json) :=
  data ← py_get response_data "data" (JObj []);
  comments_list ← py_get data "comments" (JArr []);
  py_iter comments_list.


(** One dict has grown into another: each entry kept its key and its
    place and its list only grew at the end, and new entries came last. *)
Inductive dict_grows {V : Type} : list (string * list V) -> list (string * list V) -> Prop :=
| dict_grows_new d' : dict_grows [] d'
| dict_grows_entry k v more d d' :
    dict_grows d d' -> dict_grows ((k, v) :: d) ((k, v ++ more) :: d').

(** A body whose second comment has a list as identifier. *)
Definition body_list_id : json :=
  body_of [comment_entry "a" "fine" [];
           JObj [("id", JArr [JNum 1]); ("content", JStr "odd")]].

(** ** File names and the per-item writer *)

(** The character class of [sanitize_filename]: the nine characters
    less-than, greater-than, colon, double quote, slash, backslash,
    vertical bar, question mark and asterisk. *)
Definition illegal_char (c : N) : bool :=
  bool_decide (c ∈ [60; 62; 58; 34; 47; 92; 124; 63; 42]%N).

(** [re.sub] with a class of single characters replaces each of them;
    [filename[:200]] keeps the first 200 characters. *)
Definition sanitize_filename (filename : pystr) : pystr :=
  let filename := map (fun c => if illegal_char c then 95%N else c) filename in
  if bool_decide (200 < List.length filename)%nat then take 200 filename else filename.

(** The characters [str.strip()] removes: those with [str.isspace()]. *)
Definition isspace (c : N) : bool :=
  bool_decide (c ∈ [9; 10; 11; 12; 13; 28; 29; 30; 31; 32; 133; 160; 5760;
                    8192; 8193; 8194; 8195; 8196; 8197; 8198; 8199; 8200; 8201; 8202;
                    8232; 8233; 8239; 8287; 12288]%N).

Fixpoint lstrip (s : pystr) : pystr :=
  match s with
  | [] => []
  | c :: r => if isspace c then lstrip r else s
  end.

Definition strip (s : pystr) : pystr := reverse (lstrip (reverse (lstrip s))).

(** A browser page as far as the writer looks at it: whether it is
    closed, and the result of [page.title()] ([None] when it raises). *)
Record page : Type := Page {
  is_closed : bool;
  title : option pystr
}.

(** [get_page_title]: the stripped title, or the empty string when
    reading it raises. *)
Definition get_page_title (p : page) : pystr :=
  match title p with
  | Some t => strip t
  | None => []
  end.

(** The module-level dicts about the opened pages. *)
Record registry : Type := Registry {
  note_id_to_title : list (string * pystr);
  note_id_to_page : list (string * page);
  note_id_to_index : list (string * Z)
}.

(** [d[k] = v]: the value of an existing key is replaced in place, a new
    key goes last. *)
Fixpoint dict_set {V : Type} (k : string) (v : V) (d : list (string * V))
    : list (string * V) :=
  match d with
  | [] => [(k, v)]
  | (k', v') :: r => if String.eqb k k' then (k, v) :: r else (k', v') :: dict_set k v r
  end.

(** An [int] in an f-string: its decimal digits, with a sign when negative. *)
Definition str_of_int (z : Z) : pystr := codes (NilZero.string_of_int (Z.to_int z)).

(** [f'{file_index} 标题:{safe_title} note_id值:{note_id}'], the three
    Chinese characters by their code points. *)
Definition filename_base (file_index : Z) (safe_title : pystr) (note_id : string) : pystr :=
  str_of_int file_index ++ [32; 26631; 39064; 58]%N ++ safe_title
    ++ codes " note_id" ++ [20540; 58]%N ++ codes note_id.

(** Lines 457 to 479 of [save_comments_to_file]: the name of the files
    of an item, without extension, and the registry afterwards. The
    title is the stored one; when that is missing or empty and the item
    has an open page, the title is read from the page and stored; when it
    is still empty, [note_] and the identifier stand for it. *)
Definition item_filename (reg : registry) (note_id : string) : pystr * registry :=
  let page_title := default [] (dict_lookup note_id (note_id_to_title reg)) in
  let '(page_title, reg) :=
    match page_title, dict_lookup note_id (note_id_to_page reg) with
    | [], Some p =>
      if is_closed p then (page_title, reg)
      else
        let page_title := get_page_title p in
        (page_title,
         Registry (dict_set note_id page_title (note_id_to_title reg))
                  (note_id_to_page reg) (note_id_to_index reg))
    | _, _ => (page_title, reg)
    end in
  let page_title :=
    match page_title with
    | [] => codes "note_" ++ codes note_id
    | _ => page_title
    end in
  let file_index := default 1 (dict_lookup note_id (note_id_to_index reg)) in
  let safe_title := sanitize_filename page_title in
  (filename_base file_index safe_title note_id, reg).

(** [save_comments_to_file]: the registry and the directory afterwards,
    and the exception raised, if any. Nothing is done for an item without
    an entry or with an empty nested list. The function has no handler
    of its own around the two writes. *)
Definition save_comments_to_file (open_raises : pystr -> option exn) (st : store) (reg : registry)
    (dir : gmap pystr file_content) (note_id : string)
    : registry * gmap pystr file_content * option exn :=
  match dict_lookup note_id (all_comments_data st) with
  | None | Some [] => (reg, dir, None)
  | Some nested_comments =>
    let flat_comments := default [] (dict_lookup note_id (all_comments_flat st)) in
    let '(filename_base, reg) := item_filename reg note_id in
    let '(dir, raised) :=
      write_files open_raises (filename_base ++ codes ".json") (filename_base ++ codes ".csv")
                  nested_comments flat_comments dir in
    (reg, dir, raised)
  end.

(** [for note_id in note_ids: await save_comments_to_file(note_id)] inside
    a [try]: an exception ends the loop at the item that raised it. *)
Fixpoint save_each (open_raises : pystr -> option exn) (st : store) (note_ids : list string)
    (reg : registry) (dir : gmap pystr file_content)
    : registry * gmap pystr file_content * option exn :=
  match note_ids with
  | [] => (reg, dir, None)
  | note_id :: rest =>
    match save_comments_to_file open_raises st reg dir note_id with
    | (reg, dir, Some e) => (reg, dir, Some e)
    | (reg, dir, None) => save_each open_raises st rest reg dir
    end
  end.

(** The final save of [main] (lines 795 to 808): the files of each item
    in the order of the keys, then the aggregate files, all in one [try]
    whose handler is [except Exception: pass]. The third component is the
    exception that ended it and was dropped, if any. *)
Definition final_save (open_raises : pystr -> option exn) (st : store) (reg : registry)
    (dir : gmap pystr file_content) : registry * gmap pystr file_content * option exn :=
  match all_comments_data st with
  | [] => (reg, dir, None)
  | _ =>
    match save_each open_raises st (map fst (all_comments_data st)) reg dir with
    | (reg, dir, Some e) => (reg, dir, Some e)
    | (reg, dir, None) =>
      let '(dir, raised) := save_all_comments_to_file open_raises st dir in
      (reg, dir, raised)
    end
  end.

(** ** The list of URLs *)

(** A cell of the sheet as [read_urls_from_excel] tells cells apart: a
    [str], or any other value ([None], a number, a date) with its truth
    value. *)
Inductive cell : Type :=
| CellStr (s : pystr)
| CellOther (truth : bool).

Definition startswith (s p : pystr) : bool := bool_decide (take (List.length p) s = p).

(** The body of the inner loop, on the list of URLs so far. *)
Definition read_cell (urls : list pystr) (cell_value : cell) : list pystr :=
  match cell_value with
  | CellStr [] => urls
  | CellStr s =>
    let url := strip s in
    match url with
    | [] => urls
    | _ => if startswith url (codes "http://") || startswith url (codes "https://")
           then urls ++ [url] else urls
    end
  | CellOther _ => urls
  end.

(** [read_urls_from_excel] on the rows of the active sheet, from row 1 on
    ([None] when the file does not exist or cannot be loaded):
    [iter_rows(min_row=2)] leaves the first row out. *)
Definition read_urls_from_excel (sheet : option (list (list cell))) : list pystr :=
  match sheet with
  | None => []
  | Some rows => foldl (fun urls row => foldl read_cell urls row) [] (drop 1 rows)
  end.

(** [list(dict.fromkeys(urls))]: the keys of a dict in the order of
    their first insertion. *)
Definition fromkeys (urls : list pystr) : list pystr :=
  foldl (fun d k => if bool_decide (k ∈ d) then d else d ++ [k]) [] urls.

(** The URLs [main] goes through: those of [URL_LIST], then those of the
    sheet, without duplicates. *)
Definition main_urls (URL_LIST : list pystr) (sheet : option (list (list cell)))
    : list pystr :=
  fromkeys (URL_LIST ++ read_urls_from_excel sheet).

(** ** Waiting for the login *)

(** The [while] loop of [wait_for_login]. [evaluate k] is what the call
    of [page.evaluate] in round [k] gives ([None] when it raises), and
    [wait_for_timeout k] says whether the call of [page.wait_for_timeout]
    that follows a positive answer in round [k] returns. Both calls are
    inside the [try]: when either raises, the [except] clause sleeps and
    counts, and the loop goes on. The result is the returned value, the
    number of rounds and the seconds slept between them; [None] when the
    fuel does not suffice. *)
Fixpoint wait_loop (fuel : nat) (evaluate : nat -> option bool)
    (wait_for_timeout : nat -> bool) (rounds : nat) (elapsed_time : Z)
    : option (bool * nat * Z) :=
  if bool_decide (elapsed_time < 300) then
    match fuel with
    | O => None
    | S fuel =>
      match evaluate rounds with
      | Some true =>
        if wait_for_timeout rounds then Some (true, S rounds, elapsed_time)
        else wait_loop fuel evaluate wait_for_timeout (S rounds) (elapsed_time + 2)
      | _ => wait_loop fuel evaluate wait_for_timeout (S rounds) (elapsed_time + 2)
      end
    end
  else Some (false, rounds, elapsed_time).

Definition wait_for_login (fuel : nat) (evaluate : nat -> option bool)
    (wait_for_timeout : nat -> bool) : option (bool * nat * Z) :=
  wait_loop fuel evaluate wait_for_timeout 0 0.

(** No hexadecimal character in the name of an extension. *)
Definition extension (e : string) : Prop := e = ".json" \/ e = ".csv".

(** A string does not begin with a character that [strip] removes. *)
Definition no_space_first (s : pystr) : Prop :=
  match s with
  | [] => True
  | c :: _ => isspace c = false
  end.

(** A sheet, titles and pages to try the definitions on. *)
Definition ex_title : pystr := codes "  a/b: c?  ".

Definition ex_registry : registry :=
  Registry [] [("abc123", Page false (Some ex_title))] [("abc123", 3)].

Definition ex_sheet : option (list (list cell)) :=
  Some [[CellStr (codes "https://header.example/"); CellStr (codes "URL")];
        [CellStr (codes "  https://www.xiaohongshu.com/explore/abc123 "); CellOther true];
        [CellStr (codes "ftp://no"); CellStr (codes "http://xhslink.com/o/1")];
        [CellStr (codes "https://www.xiaohongshu.com/explore/abc123")]].

(** ** Insertion-ordered dicts *)

Section dict.
Context {V : Type}.
Implicit Types (d : list (string * list V)) (k : string).

Lemma dict_lookup_app {W : Type} k (d1 d2 : list (string * W)) :
  dict_lookup k (d1 ++ d2) =
  match dict_lookup k d1 with Some v => Some v | None => dict_lookup k d2 end.
Proof.
  induction d1 as [|[k' v] d1 IH]; simpl; [done|].
  destruct (String.eqb k k'); done.
Qed.

Lemma dict_lookup_init k d :
  dict_lookup k (dict_init k d) = Some (default [] (dict_lookup k d)).
Proof.
  unfold dict_init. destruct (dict_lookup k d) eqn:E; simpl; [done|].
  rewrite dict_lookup_app, E. simpl. by rewrite String.eqb_refl.
Qed.

Lemma dict_lookup_init_ne k k' d :
  k' <> k -> dict_lookup k' (dict_init k d) = dict_lookup k' d.
Proof.
  intros Hne. unfold dict_init. destruct (dict_lookup k d); [done|].
  rewrite dict_lookup_app. destruct (dict_lookup k' d); [done|]. simpl.
  destruct (String.eqb_spec k' k); congruence.
Qed.

Lemma dict_init_present k d v : dict_lookup k d = Some v -> dict_init k d = d.
Proof. unfold dict_init. by intros ->. Qed.

Lemma dict_init_idemp k d : dict_init k (dict_init k d) = dict_init k d.
Proof. eapply dict_init_present, dict_lookup_init. Qed.

Lemma dict_lookup_extend k new d :
  dict_lookup k (dict_extend k new d) = (fun v => v ++ new) <$> dict_lookup k d.
Proof.
  induction d as [|[k' v] d IH]; simpl; [done|].
  destruct (String.eqb k k') eqn:E; simpl; rewrite E; done.
Qed.

Lemma dict_lookup_extend_ne k k' new d :
  k' <> k -> dict_lookup k' (dict_extend k new d) = dict_lookup k' d.
Proof.
  intros Hne. induction d as [|[k0 v] d IH]; simpl; [done|].
  destruct (String.eqb_spec k k0) as [->|]; simpl.
  - destruct (String.eqb_spec k' k0); congruence.
  - destruct (String.eqb k' k0); done.
Qed.

Lemma dict_keys_extend k new d : map fst (dict_extend k new d) = map fst d.
Proof.
  induction d as [|[k' v] d IH]; simpl; [done|].
  destruct (String.eqb k k'); simpl; congruence.
Qed.

Lemma dict_extend_nil k d : dict_extend k [] d = d.
Proof.
  induction d as [|[k' v] d IH]; simpl; [done|].
  destruct (String.eqb k k'); [by rewrite app_nil_r | by rewrite IH].
Qed.
End dict.

Lemma map_lookup {A B : Type} (f : A -> B) (l : list A) (i : nat) :
  map f l !! i = f <$> l !! i.
Proof. revert i. induction l as [|x l IH]; intros [|i]; simpl; auto. Qed.

Lemma map_id_on {A : Type} (f : A -> A) (l : list A) :
  Forall (fun x => f x = x) l -> map f l = l.
Proof. induction 1; simpl; congruence. Qed.

Lemma surjective_pairing_none {A B : Type} (x : A * option B) :
  x.2 = None -> x = (x.1, None).
Proof. destruct x as [a b]. simpl. by intros ->. Qed.

(** ** Keys and key sets *)

Lemma py_hash_key_of v k : py_hash v = Ok k <-> key_of v = Some k.
Proof. unfold key_of. destruct (py_hash v); split; congruence. Qed.

Lemma py_hash_raise v e : py_hash v = Raise e -> key_of v = None.
Proof. unfold key_of. by intros ->. Qed.

(** Only the float NaN has the key of NaN. *)
Lemma key_of_nan v : key_of v = Some KNan <-> v = JFloat S754_nan.
Proof.
  split; [|by intros ->]. unfold key_of.
  destruct v as [| | |f| | |]; simpl; try done; try (by destruct b).
  destruct f as [| | |neg m e]; simpl; try done.
  destruct (odd_part m e) as [m' e']. by destruct (0 <=? e').
Qed.

Lemma bind_ok {A B : Type} (r : result A) (f : A -> result B) b :
  r ≫= f = Ok b -> exists a, r = Ok a /\ f a = Ok b.
Proof. destruct r as [a|e]; simpl; [eauto | done]. Qed.

Lemma key_list_app l1 l2 : key_list (l1 ++ l2) = key_list l1 ++ key_list l2.
Proof. apply omap_app. Qed.

Lemma key_set_nil : key_set [] = ∅.
Proof. done. Qed.

Lemma key_set_app l1 l2 : key_set (l1 ++ l2) = key_set l1 ∪ key_set l2.
Proof. unfold key_set. rewrite key_list_app. apply list_to_set_app_L. Qed.

Lemma key_set_cons v l k : key_of v = Some k -> key_set (v :: l) = {[k]} ∪ key_set l.
Proof. intros H. unfold key_set, key_list. simpl. by rewrite H. Qed.

Lemma elem_of_key_set k l : k ∈ key_set l <-> k ∈ key_list l.
Proof. unfold key_set. apply elem_of_list_to_set. Qed.

Lemma elem_of_key_list k l : k ∈ key_list l <-> exists v, v ∈ l /\ key_of v = Some k.
Proof. unfold key_list. apply list_elem_of_omap. Qed.

Lemma no_nan_key_set ids :
  Forall (fun v => v <> JFloat S754_nan) ids -> KNan ∉ key_set ids.
Proof.
  intros Hnan (v & Hv & Hk)%elem_of_key_set%elem_of_key_list.
  rewrite Forall_forall in Hnan. apply (Hnan v Hv). by apply key_of_nan.
Qed.

Lemma nested_ids_app l1 l2 : nested_ids (l1 ++ l2) = nested_ids l1 ++ nested_ids l2.
Proof. unfold nested_ids. by rewrite map_app, concat_app. Qed.

Lemma nested_ids_one c : nested_ids [c] = comment_id c :: reply_ids c.
Proof. unfold nested_ids. simpl. by rewrite app_nil_r. Qed.

Lemma nested_ids_cons c l : nested_ids (c :: l) = comment_id c :: reply_ids c ++ nested_ids l.
Proof. done. Qed.

Lemma top_ids_app l1 l2 : top_ids (l1 ++ l2) = top_ids l1 ++ top_ids l2.
Proof. apply map_app. Qed.

Lemma flat_ids_app l1 l2 : flat_ids (l1 ++ l2) = flat_ids l1 ++ flat_ids l2.
Proof. apply map_app. Qed.

Lemma top_ids_nested c cs : c ∈ cs -> comment_id c ∈ nested_ids cs.
Proof.
  induction cs as [|c' cs IH]; [by intros ?%elem_of_nil|].
  rewrite nested_ids_cons. intros [->|Hin]%elem_of_cons; [left|].
  right. apply elem_of_app. right. auto.
Qed.

Lemma reply_ids_nested c cs v : c ∈ cs -> v ∈ reply_ids c -> v ∈ nested_ids cs.
Proof.
  induction cs as [|c' cs IH]; [by intros ?%elem_of_nil|].
  rewrite nested_ids_cons. intros [->|Hin]%elem_of_cons Hv.
  - right. apply elem_of_app. by left.
  - right. apply elem_of_app. right. auto.
Qed.

Lemma elem_of_nested_ids v cs :
  v ∈ nested_ids cs <-> exists c, c ∈ cs /\ (v = comment_id c \/ v ∈ reply_ids c).
Proof.
  split.
  - induction cs as [|c cs IH]; [by intros ?%elem_of_nil|].
    rewrite nested_ids_cons. intros [->|[H|H]%elem_of_app]%elem_of_cons.
    + exists c. split; [left | by left].
    + exists c. split; [left | by right].
    + destruct (IH H) as (c' & ? & ?). exists c'. split; [by right | done].
  - intros (c & Hin & [->|H]); eauto using top_ids_nested, reply_ids_nested.
Qed.

(** The loops that build the known-identifier sets succeed exactly on
    hashable identifiers, and then add their keys. *)
Lemma add_sub_ids_ok subs s s' :
  add_sub_ids subs s = Ok s' ->
  s' = key_set (map sc_comment_id subs) ∪ s /\ Forall hashable (map sc_comment_id subs).
Proof.
  revert s. induction subs as [|sc r IH]; simpl; intros s H.
  - inversion H. split; [set_solver | constructor].
  - apply bind_ok in H as (k & Hk & H). apply py_hash_key_of in Hk.
    destruct (IH _ H) as [-> Hall]. split.
    + rewrite (key_set_cons _ _ _ Hk). set_solver.
    + constructor; [by exists k | done].
Qed.

Lemma add_sub_ids_hashable subs s :
  Forall hashable (map sc_comment_id subs) ->
  add_sub_ids subs s = Ok (key_set (map sc_comment_id subs) ∪ s).
Proof.
  revert s. induction subs as [|sc r IH]; simpl; intros s H.
  - f_equal. set_solver.
  - inversion H as [|? ? [k Hk] Hr]; subst.
    rewrite (proj2 (py_hash_key_of _ _) Hk). simpl.
    rewrite (IH _ Hr), (key_set_cons _ _ _ Hk). f_equal. set_solver.
Qed.

Lemma add_nested_ids_ok cs s s' :
  add_nested_ids cs s = Ok s' ->
  s' = key_set (nested_ids cs) ∪ s /\ Forall hashable (nested_ids cs).
Proof.
  revert s. induction cs as [|c r IH]; simpl; intros s H.
  - inversion H. split; [set_solver | constructor].
  - apply bind_ok in H as (k & Hk & H). apply py_hash_key_of in Hk.
    apply bind_ok in H as (s1 & Hs1 & H).
    apply add_sub_ids_ok in Hs1 as [-> Hsub].
    destruct (IH _ H) as [-> Hall]. rewrite nested_ids_cons. split.
    + rewrite (key_set_cons _ _ _ Hk), key_set_app. unfold reply_ids. set_solver.
    + constructor; [by exists k|]. apply Forall_app. done.
Qed.

Lemma add_nested_ids_hashable cs s :
  Forall hashable (nested_ids cs) ->
  add_nested_ids cs s = Ok (key_set (nested_ids cs) ∪ s).
Proof.
  revert s. induction cs as [|c r IH]; simpl; intros s H.
  - f_equal. set_solver.
  - rewrite nested_ids_cons in H.
    inversion H as [|? ? [k Hk] Hr]; subst. apply Forall_app in Hr as [Hsub Hr].
    rewrite (proj2 (py_hash_key_of _ _) Hk). simpl.
    rewrite (add_sub_ids_hashable _ _ Hsub). simpl.
    rewrite (IH _ Hr), nested_ids_cons, (key_set_cons _ _ _ Hk), key_set_app.
    f_equal. unfold reply_ids. set_solver.
Qed.

Lemma add_flat_ids_ok fs s s' :
  add_flat_ids fs s = Ok s' ->
  s' = key_set (flat_ids fs) ∪ s /\ Forall hashable (flat_ids fs).
Proof.
  revert s. induction fs as [|f r IH]; simpl; intros s H.
  - inversion H. split; [set_solver | constructor].
  - apply bind_ok in H as (k & Hk & H). apply py_hash_key_of in Hk.
    destruct (IH _ H) as [-> Hall]. split.
    + rewrite (key_set_cons _ _ _ Hk). set_solver.
    + constructor; [by exists k | done].
Qed.

Lemma add_flat_ids_hashable fs s :
  Forall hashable (flat_ids fs) ->
  add_flat_ids fs s = Ok (key_set (flat_ids fs) ∪ s).
Proof.
  revert s. induction fs as [|f r IH]; simpl; intros s H.
  - f_equal. set_solver.
  - inversion H as [|? ? [k Hk] Hr]; subst.
    rewrite (proj2 (py_hash_key_of _ _) Hk). simpl.
    rewrite (IH _ Hr). unfold flat_ids. simpl.
    rewrite (key_set_cons _ _ _ Hk). f_equal. set_solver.
Qed.

(** ** The filtering loop *)

Lemma next_match_some {A : Type} (p : A -> bool) l x :
  next_match p l = Some x -> p x = true /\ x ∈ l.
Proof.
  induction l as [|y l IH]; simpl; [done|].
  destruct (p y) eqn:E.
  - intros [= ->]. split; [done | left].
  - intros H. destruct (IH H). split; [done | by right].
Qed.

Lemma next_match_is_some {A : Type} (p : A -> bool) l :
  is_Some (next_match p l) <-> exists x, x ∈ l /\ p x = true.
Proof.
  induction l as [|y l IH]; simpl.
  - split; [by intros [? ?] | by intros (? & ?%elem_of_nil & _)].
  - destruct (p y) eqn:E.
    + split; [|by eauto]. intros _. exists y. split; [left | done].
    + rewrite IH. split.
      * intros (x & ? & ?). exists x. split; [by right | done].
      * intros (x & [->|?]%elem_of_cons & ?); [congruence | eauto].
Qed.

Lemma flat_for_some flat_comments k sub fc :
  flat_for flat_comments k sub = Some fc ->
  key_of (fc_comment_id fc) = Some k /\ fc_is_sub_comment fc = sub /\ fc ∈ flat_comments.
Proof.
  intros H. apply next_match_some in H as [Hp Hin].
  apply andb_true_iff in Hp as [Hk Hs]. apply Bool.eqb_prop in Hs.
  unfold py_eq_key in Hk. destruct (py_hash (fc_comment_id fc)) as [k'|] eqn:E; [|done].
  apply andb_true_iff in Hk as [Hk _].
  apply bool_decide_eq_true in Hk as ->. by apply py_hash_key_of in E.
Qed.

(** Nothing equals NaN: a search for it finds no row. *)
Lemma row_matches_nan sub fc : row_matches KNan sub fc = false.
Proof.
  unfold row_matches, py_eq_key. destruct (py_hash _); [|done].
  by rewrite andb_false_r.
Qed.

Lemma flat_for_nan flat_comments sub : flat_for flat_comments KNan sub = None.
Proof.
  unfold flat_for. induction flat_comments as [|fc l IH]; simpl; [done|].
  by rewrite row_matches_nan.
Qed.

Lemma flat_for_mono flat1 flat2 k sub :
  is_Some (flat_for flat1 k sub) -> is_Some (flat_for (flat1 ++ flat2) k sub).
Proof.
  unfold flat_for. rewrite !next_match_is_some. intros (x & ? & ?).
  exists x. split; [apply elem_of_app; by left | done].
Qed.

Lemma accept_flat_inv found ms ms' :
  accept_flat found ms = Ok ms' ->
  ms' = ms \/
  (exists fc k, found = Some fc /\ key_of (fc_comment_id fc) = Some k /\
     (k ∉ existing_flat_ids ms) /\
     ms' = MergeState (new_nested_comments ms) (new_flat_comments ms ++ [fc])
                      (existing_nested_ids ms) ({[k]} ∪ existing_flat_ids ms)).
Proof.
  destruct found as [fc|]; simpl; intros H; [|left; congruence].
  apply bind_ok in H as (k & Hk & H). apply py_hash_key_of in Hk.
  destruct (decide (k ∈ existing_flat_ids ms)); inversion H; [by left|].
  right. by exists fc, k.
Qed.

Lemma accept_flat_nested found ms ms' :
  accept_flat found ms = Ok ms' ->
  new_nested_comments ms' = new_nested_comments ms /\
  existing_nested_ids ms' = existing_nested_ids ms.
Proof. intros [->|(fc & k & _ & _ & _ & ->)]%accept_flat_inv; done. Qed.

(** A found record always leaves its key in the flat set. *)
Lemma accept_flat_found fc k ms ms' :
  key_of (fc_comment_id fc) = Some k ->
  accept_flat (Some fc) ms = Ok ms' ->
  existing_flat_ids ms' = {[k]} ∪ existing_flat_ids ms.
Proof.
  intros Hk H. simpl in H. rewrite (proj2 (py_hash_key_of _ _) Hk) in H. simpl in H.
  destruct (decide (k ∈ existing_flat_ids ms)); inversion H; simpl; set_solver.
Qed.

Lemma flat_ext_refl ms : flat_ext ms ms.
Proof.
  exists []. rewrite app_nil_r. repeat split; try constructor; [set_solver|].
  by intros k ?%elem_of_nil.
Qed.

Lemma flat_ext_trans ms1 ms2 ms3 : flat_ext ms1 ms2 -> flat_ext ms2 ms3 -> flat_ext ms1 ms3.
Proof.
  intros (a1 & E1 & F1 & H1 & N1 & D1) (a2 & E2 & F2 & H2 & N2 & D2).
  exists (a1 ++ a2). rewrite E2, E1, F2, F1, flat_ids_app, key_set_app, key_list_app.
  repeat split.
  - by rewrite app_assoc.
  - set_solver.
  - by apply Forall_app.
  - apply NoDup_app. repeat split; [done| |done].
    intros k Hk1 Hk2. apply (D2 k Hk2). rewrite F1. apply elem_of_union. left.
    by apply elem_of_key_set.
  - intros k [Hk|Hk]%elem_of_app; [by apply D1|].
    intros Hin. apply (D2 k Hk). rewrite F1. set_solver.
Qed.

Lemma accept_flat_ext found ms ms' : accept_flat found ms = Ok ms' -> flat_ext ms ms'.
Proof.
  intros [->|(fc & k & _ & Hk & Hnot & ->)]%accept_flat_inv; [apply flat_ext_refl|].
  exists [fc]. simpl. unfold flat_ids. simpl.
  rewrite (key_set_cons _ _ _ Hk), key_set_nil. unfold key_list. simpl. rewrite Hk. simpl.
  repeat split.
  - set_solver.
  - repeat constructor. by exists k.
  - apply NoDup_singleton.
  - by intros k' ->%list_elem_of_singleton.
Qed.

Section merge_loop.
Variable flat_comments : list flat_comment.

(** *** The reply loop *)

Lemma merge_subs_nested subs ms ms' :
  merge_subs flat_comments subs ms = Ok ms' ->
  new_nested_comments ms' = new_nested_comments ms /\
  existing_nested_ids ms' = key_set (map sc_comment_id subs) ∪ existing_nested_ids ms /\
  Forall hashable (map sc_comment_id subs).
Proof.
  revert ms. induction subs as [|sc r IH]; simpl; intros ms H.
  - inversion H. repeat split; [set_solver | constructor].
  - apply bind_ok in H as (k & Hk & H). apply py_hash_key_of in Hk.
    rewrite (key_set_cons _ _ _ Hk).
    assert (hashable (sc_comment_id sc)) by (by exists k).
    destruct (decide (k ∈ existing_nested_ids ms)).
    + destruct (IH _ H) as (-> & -> & ?). repeat split; [set_solver | by constructor].
    + apply bind_ok in H as (ms1 & H1 & H).
      apply accept_flat_nested in H1 as [E1 E2]. simpl in E1, E2.
      destruct (IH _ H) as (-> & -> & ?). rewrite E1, E2.
      repeat split; [set_solver | by constructor].
Qed.

Lemma merge_subs_flat_ext subs ms ms' :
  merge_subs flat_comments subs ms = Ok ms' -> flat_ext ms ms'.
Proof.
  revert ms. induction subs as [|sc r IH]; simpl; intros ms H.
  - inversion H. apply flat_ext_refl.
  - apply bind_ok in H as (k & Hk & H).
    destruct (decide (k ∈ existing_nested_ids ms)); [by apply IH|].
    apply bind_ok in H as (ms1 & H1 & H).
    eapply flat_ext_trans; [|by apply IH]. by apply accept_flat_ext in H1.
Qed.

(** The flat records the reply loop appends carry keys of the replies. *)
Lemma merge_subs_flat_keys subs ms ms' (K : gset key) :
  merge_subs flat_comments subs ms = Ok ms' ->
  key_set (flat_ids (new_flat_comments ms)) ⊆ K ->
  key_set (map sc_comment_id subs) ⊆ K ->
  key_set (flat_ids (new_flat_comments ms')) ⊆ K.
Proof.
  revert ms. induction subs as [|sc r IH]; simpl; intros ms H HK Hsub.
  - by inversion H; subst.
  - apply bind_ok in H as (k & Hk & H). apply py_hash_key_of in Hk.
    rewrite (key_set_cons _ _ _ Hk) in Hsub.
    destruct (decide (k ∈ existing_nested_ids ms)).
    + apply (IH _ H); set_solver.
    + apply bind_ok in H as (ms1 & H1 & H). apply (IH _ H); [|set_solver].
      destruct (flat_for flat_comments k true) as [fc|] eqn:Ef.
      * apply flat_for_some in Ef as (Hfk & _ & _).
        apply accept_flat_inv in H1 as [->|(fc' & k' & [= <-] & Hk' & _ & ->)]; [done|].
        simpl. rewrite flat_ids_app, key_set_app. unfold flat_ids at 2. simpl.
        rewrite (key_set_cons _ _ _ Hk'), key_set_nil. set_solver.
      * simpl in H1. by inversion H1; subst.
Qed.

(** With every reply covered by the flat batch, the flat set stays the
    nested set without NaN. *)
Lemma merge_subs_sets_eq subs ms ms' :
  merge_subs flat_comments subs ms = Ok ms' ->
  (forall sc k, sc ∈ subs -> key_of (sc_comment_id sc) = Some k -> k <> KNan ->
     is_Some (flat_for flat_comments k true)) ->
  existing_flat_ids ms = existing_nested_ids ms ∖ {[KNan]} ->
  existing_flat_ids ms' = existing_nested_ids ms' ∖ {[KNan]}.
Proof.
  revert ms. induction subs as [|sc r IH]; simpl; intros ms H Hcov Heq.
  - by inversion H; subst.
  - apply bind_ok in H as (k & Hk & H). apply py_hash_key_of in Hk.
    assert (forall sc' k', sc' ∈ r -> key_of (sc_comment_id sc') = Some k' -> k' <> KNan ->
              is_Some (flat_for flat_comments k' true)) as Hcov'
      by (intros; eapply Hcov; [by right | done | done]).
    destruct (decide (k ∈ existing_nested_ids ms)); [by apply (IH _ H)|].
    apply bind_ok in H as (ms1 & H1 & H). apply (IH _ H Hcov').
    destruct (decide (k = KNan)) as [->|Hnan].
    + rewrite flat_for_nan in H1. simpl in H1. inversion H1; subst ms1. simpl.
      rewrite Heq. set_solver.
    + destruct (Hcov sc k) as [fc Ef]; [left | done | done |]. rewrite Ef in H1.
      apply flat_for_some in Ef as (Hfk & _ & _).
      rewrite (accept_flat_found _ _ _ _ Hfk H1).
      apply accept_flat_nested in H1 as [_ ->]. simpl. rewrite Heq. set_solver.
Qed.

(** *** One round and the whole loop *)

Lemma merge_one_inv c ms ms' :
  merge_one flat_comments c ms = Ok ms' ->
  exists k, key_of (comment_id c) = Some k /\
    ((k ∈ existing_nested_ids ms /\ ms' = ms) \/
     ((k ∉ existing_nested_ids ms) /\
      exists ms1,
        accept_flat (flat_for flat_comments k false)
          (MergeState (new_nested_comments ms ++ [c]) (new_flat_comments ms)
                      ({[k]} ∪ existing_nested_ids ms) (existing_flat_ids ms)) = Ok ms1 /\
        merge_subs flat_comments (sub_comments c) ms1 = Ok ms')).
Proof.
  unfold merge_one. intros H. apply bind_ok in H as (k & Hk & H).
  apply py_hash_key_of in Hk. exists k. split; [done|].
  destruct (decide (k ∈ existing_nested_ids ms)).
  - left. split; [done | congruence].
  - right. split; [done|]. apply bind_ok in H as (ms1 & H1 & H). eauto.
Qed.

(** A record whose identifier is known is passed over: nothing is
    appended and no identifier is recorded, whatever its replies are. *)
Lemma merge_one_known c k ms :
  key_of (comment_id c) = Some k -> k ∈ existing_nested_ids ms ->
  merge_one flat_comments c ms = Ok ms.
Proof.
  intros Hk Hin. unfold merge_one. rewrite (proj2 (py_hash_key_of _ _) Hk). simpl.
  by destruct (decide (k ∈ existing_nested_ids ms)).
Qed.

Lemma merge_one_nested c ms ms' :
  merge_one flat_comments c ms = Ok ms' ->
  exists k, key_of (comment_id c) = Some k /\ k ∈ existing_nested_ids ms' /\
    ((k ∈ existing_nested_ids ms /\ ms' = ms) \/
     ((k ∉ existing_nested_ids ms) /\
      new_nested_comments ms' = new_nested_comments ms ++ [c] /\
      existing_nested_ids ms' = key_set (nested_ids [c]) ∪ existing_nested_ids ms /\
      Forall hashable (nested_ids [c]))).
Proof.
  intros (k & Hk & [[Hin ->]|(Hnot & ms1 & H1 & H2)])%merge_one_inv;
    exists k; (split; [done|]).
  - split; [done | by left].
  - apply accept_flat_nested in H1 as [E1 E2]. simpl in E1, E2.
    apply merge_subs_nested in H2 as (-> & -> & Hsub). rewrite E1, E2.
    rewrite nested_ids_one, (key_set_cons _ _ _ Hk). unfold reply_ids.
    split; [set_solver|]. right. repeat split; [done | set_solver |].
    constructor; [by exists k | done].
Qed.

Lemma merge_loop_nested cs ms ms' :
  merge_loop flat_comments cs ms = Ok ms' ->
  exists acc,
    new_nested_comments ms' = new_nested_comments ms ++ acc /\
    acc `sublist_of` cs /\
    existing_nested_ids ms' = key_set (nested_ids acc) ∪ existing_nested_ids ms /\
    Forall hashable (nested_ids acc) /\
    NoDup (key_list (top_ids acc)) /\
    (forall k, k ∈ key_list (top_ids acc) -> k ∉ existing_nested_ids ms) /\
    Forall (fun c => exists k, key_of (comment_id c) = Some k /\
                               k ∈ existing_nested_ids ms') cs.
Proof.
  revert ms. induction cs as [|c r IH]; simpl; intros ms H.
  - inversion H; subst. exists []. rewrite app_nil_r.
    repeat split; try constructor; [set_solver|]. by intros k ?%elem_of_nil.
  - apply bind_ok in H as (ms1 & H1 & H).
    destruct (IH _ H) as (acc & En & Hsl & Es & Hh & Hnd & Hdis & Hall).
    apply merge_one_nested in H1 as (k & Hk & Hin1 & [[Hin ->]|(Hnot & E1 & S1 & Hc)]).
    + exists acc. repeat split; try done.
      * by apply sublist_cons.
      * constructor; [|done]. exists k. split; [done|]. rewrite Es. set_solver.
    + exists (c :: acc). rewrite En, E1, Es, S1.
      change (c :: acc) with ([c] ++ acc).
      rewrite nested_ids_app, key_set_app, top_ids_app, key_list_app.
      assert (key_list (top_ids [c]) = [k]) as Ek
        by (unfold key_list; simpl; by rewrite Hk).
      rewrite Ek. repeat split.
      * by rewrite <- app_assoc.
      * simpl. by constructor.
      * set_solver.
      * by apply Forall_app.
      * simpl. constructor; [|done]. intros Hk'. apply (Hdis k Hk'). done.
      * intros k' [->%list_elem_of_singleton|Hk']%elem_of_app; [done|].
        intros Hin'. apply (Hdis k' Hk'). rewrite S1. set_solver.
      * constructor; [|by rewrite <- S1, <- Es]. exists k. split; [done|]. set_solver.
Qed.

Lemma merge_one_flat_ext c ms ms' :
  merge_one flat_comments c ms = Ok ms' -> flat_ext ms ms'.
Proof.
  intros (k & Hk & [[Hin ->]|(Hnot & ms1 & H1 & H2)])%merge_one_inv;
    [apply flat_ext_refl|].
  eapply flat_ext_trans; [|by eapply merge_subs_flat_ext].
  by apply accept_flat_ext in H1.
Qed.

Lemma merge_loop_flat_ext cs ms ms' :
  merge_loop flat_comments cs ms = Ok ms' -> flat_ext ms ms'.
Proof.
  revert ms. induction cs as [|c r IH]; simpl; intros ms H.
  - inversion H. apply flat_ext_refl.
  - apply bind_ok in H as (ms1 & H1 & H).
    eapply flat_ext_trans; [by eapply merge_one_flat_ext | by apply IH].
Qed.

(** Every flat record appended carries the key of an identifier of an
    appended nested record. *)
Lemma merge_one_flat_keys c ms ms' :
  merge_one flat_comments c ms = Ok ms' ->
  key_set (flat_ids (new_flat_comments ms)) ⊆ key_set (nested_ids (new_nested_comments ms)) ->
  key_set (flat_ids (new_flat_comments ms')) ⊆ key_set (nested_ids (new_nested_comments ms')).
Proof.
  intros (k & Hk & [[Hin ->]|(Hnot & ms1 & H1 & H2)])%merge_one_inv Hsub; [done|].
  pose proof (merge_subs_nested _ _ _ H2) as (-> & _ & _).
  pose proof (accept_flat_nested _ _ _ H1) as [E1 _]. simpl in E1. rewrite E1.
  rewrite nested_ids_app, key_set_app, nested_ids_one, (key_set_cons _ _ _ Hk).
  eapply merge_subs_flat_keys; [done| |unfold reply_ids; set_solver].
  destruct (flat_for flat_comments k false) as [fc|] eqn:Ef.
  - apply flat_for_some in Ef as (Hfk & _ & _).
    apply accept_flat_inv in H1 as [->|(fc' & k' & [= <-] & Hk' & _ & ->)]; simpl.
    + set_solver.
    + rewrite flat_ids_app, key_set_app. unfold flat_ids at 2. simpl.
      rewrite (key_set_cons _ _ _ Hk'), key_set_nil. set_solver.
  - simpl in H1. inversion H1; subst. simpl. set_solver.
Qed.

Lemma merge_loop_flat_keys cs ms ms' :
  merge_loop flat_comments cs ms = Ok ms' ->
  key_set (flat_ids (new_flat_comments ms)) ⊆ key_set (nested_ids (new_nested_comments ms)) ->
  key_set (flat_ids (new_flat_comments ms')) ⊆ key_set (nested_ids (new_nested_comments ms')).
Proof.
  revert ms. induction cs as [|c r IH]; simpl; intros ms H Hsub.
  - by inversion H; subst.
  - apply bind_ok in H as (ms1 & H1 & H).
    apply (IH _ H). by eapply merge_one_flat_keys.
Qed.

Lemma merge_one_sets_eq c ms ms' :
  merge_one flat_comments c ms = Ok ms' ->
  covered flat_comments c ->
  existing_flat_ids ms = existing_nested_ids ms ∖ {[KNan]} ->
  existing_flat_ids ms' = existing_nested_ids ms' ∖ {[KNan]}.
Proof.
  intros (k & Hk & [[Hin ->]|(Hnot & ms1 & H1 & H2)])%merge_one_inv [Htop Hsub] Heq;
    [done|].
  eapply merge_subs_sets_eq; [done|done|].
  destruct (decide (k = KNan)) as [->|Hnan].
  - rewrite flat_for_nan in H1. simpl in H1. inversion H1; subst ms1. simpl.
    rewrite Heq. set_solver.
  - destruct (Htop k Hk Hnan) as [fc Ef]. rewrite Ef in H1.
    apply flat_for_some in Ef as (Hfk & _ & _).
    rewrite (accept_flat_found _ _ _ _ Hfk H1).
    apply accept_flat_nested in H1 as [_ ->]. simpl. rewrite Heq. set_solver.
Qed.

Lemma merge_loop_sets_eq cs ms ms' :
  merge_loop flat_comments cs ms = Ok ms' ->
  Forall (covered flat_comments) cs ->
  existing_flat_ids ms = existing_nested_ids ms ∖ {[KNan]} ->
  existing_flat_ids ms' = existing_nested_ids ms' ∖ {[KNan]}.
Proof.
  revert ms. induction cs as [|c r IH]; simpl; intros ms H Hcov Heq.
  - by inversion H; subst.
  - apply bind_ok in H as (ms1 & H1 & H). inversion Hcov; subst.
    apply (IH _ H); [done|]. by eapply merge_one_sets_eq.
Qed.

(** A batch whose top-level identifiers are all known changes nothing. *)
Lemma merge_loop_known cs ms :
  Forall (fun c => exists k, key_of (comment_id c) = Some k /\
                             k ∈ existing_nested_ids ms) cs ->
  merge_loop flat_comments cs ms = Ok ms.
Proof.
  induction 1 as [|c r (k & Hk & Hin) _ IH]; simpl; [done|].
  by rewrite (merge_one_known _ _ _ Hk Hin).
Qed.

Lemma merge_loop_app l1 l2 ms :
  merge_loop flat_comments (l1 ++ l2) ms
  = merge_loop flat_comments l1 ms ≫= merge_loop flat_comments l2.
Proof.
  revert ms. induction l1 as [|c r IH]; simpl; intros ms; [done|].
  destruct (merge_one flat_comments c ms) as [ms1|e]; simpl; [apply IH | done].
Qed.

(** The outcome of the loop is the same as for the batch without a
    record whose identifier is known before the loop starts. *)
Lemma merge_loop_drop_known l1 c l2 ms k :
  key_of (comment_id c) = Some k -> k ∈ existing_nested_ids ms ->
  merge_loop flat_comments (l1 ++ c :: l2) ms = merge_loop flat_comments (l1 ++ l2) ms.
Proof.
  intros Hk Hin. rewrite !merge_loop_app.
  destruct (merge_loop flat_comments l1 ms) as [ms1|e] eqn:E; simpl; [|done].
  apply merge_loop_nested in E as (acc & _ & _ & Es & _).
  rewrite (merge_one_known c k); [done | done |]. rewrite Es. set_solver.
Qed.
End merge_loop.

(** ** What the parser returns *)

Lemma py_eq_key_true v k : py_eq_key v k = true <-> key_of v = Some k /\ k <> KNan.
Proof.
  unfold py_eq_key, key_of. destruct (py_hash v) as [k'|]; [|by split; [|intros [? _]]].
  rewrite andb_true_iff, negb_true_iff, bool_decide_eq_true, bool_decide_eq_false.
  split; intros [? ?]; split; congruence.
Qed.

Lemma flat_for_row flat k sub ct lk ip nk n id pid :
  key_of id = Some k -> k <> KNan ->
  is_Some (flat_for (flat ++ [FlatComment ct lk ip nk n id pid sub]) k sub).
Proof.
  intros Hk Hnan. unfold flat_for. apply next_match_is_some.
  exists (FlatComment ct lk ip nk n id pid sub). split.
  - apply elem_of_app. right. left.
  - unfold row_matches. simpl. rewrite (proj2 (py_eq_key_true _ _) (conj Hk Hnan)).
    by destruct sub.
Qed.

Lemma covered_mono flat1 flat2 c : covered flat1 c -> covered (flat1 ++ flat2) c.
Proof. intros [H1 H2]. split; intros; apply flat_for_mono; eauto. Qed.

(** The reply loop only appends, and every reply it has built has its
    row in the flat list. *)
Lemma parse_sub_comments_rows n pid subs acc flat acc' flat' e :
  parse_sub_comments n pid subs acc flat = (acc', flat', e) ->
  (forall sc k, sc ∈ acc -> key_of (sc_comment_id sc) = Some k -> k <> KNan ->
     is_Some (flat_for flat k true)) ->
  (exists more, flat' = flat ++ more) /\
  (forall sc k, sc ∈ acc' -> key_of (sc_comment_id sc) = Some k -> k <> KNan ->
     is_Some (flat_for flat' k true)).
Proof.
  revert acc flat. induction subs as [|s r IH]; simpl; intros acc flat H Hcov.
  - inversion H; subst. split; [exists []; by rewrite app_nil_r | done].
  - destruct (entry_fields s) as [[[[[ct lk] ip] nk] id]|e'].
    + apply IH in H as [[more ->] Hc].
      * split; [|done]. eexists. by rewrite <- app_assoc.
      * intros sc k [Hin|Hin]%elem_of_app Hk Hnan;
          [|apply list_elem_of_singleton in Hin as ->].
        -- apply flat_for_mono. eauto.
        -- by apply flat_for_row.
    + inversion H; subst. split; [exists []; by rewrite app_nil_r | done].
Qed.

(** The comment loop only appends to the flat list, and every nested
    record it returns is covered by the flat list it returns. *)
Lemma parse_comments_covered n cs nested flat nested' flat' e :
  parse_comments n cs nested flat = (nested', flat', e) ->
  Forall (covered flat) nested ->
  Forall (covered flat') nested'.
Proof.
  revert nested flat. induction cs as [|c r IH]; simpl; intros nested flat H Hcov.
  - by inversion H; subst.
  - destruct (entry_fields c) as [[[[[ct lk] ip] nk] id]|e']; [|by inversion H; subst].
    set (flat1 := flat ++ [FlatComment ct lk ip nk n id (JStr "") false]) in *.
    assert (Forall (covered flat1) nested) as Hcov1
      by (eapply Forall_impl; [done | intros; by apply covered_mono]).
    destruct (py_get c "sub_comments" (JArr []) ≫= _) as [subs|e'];
      [|by inversion H; subst].
    destruct (parse_sub_comments n id subs [] flat1) as [[scs flat2] e2] eqn:Es.
    apply parse_sub_comments_rows in Es as [[more ->] Hrows];
      [|by intros ? ? ?%elem_of_nil].
    assert (Forall (covered (flat1 ++ more)) nested) as Hcov2
      by (eapply Forall_impl; [done | intros; by apply covered_mono]).
    destruct e2; [by inversion H; subst|].
    apply (IH _ _ H). apply Forall_app. split; [done|].
    constructor; [|done]. split; simpl; [|done].
    intros k Hk Hnan. apply flat_for_mono. by apply flat_for_row.
Qed.

Lemma parse_comment_response_covered response_data n nested flat e :
  parse_comment_response response_data n = (nested, flat, e) ->
  Forall (covered flat) nested.
Proof.
  unfold parse_comment_response.
  destruct (gate_closed response_data) as [[]|]; try (by intros [= <- <- <-]).
  destruct (py_get response_data "data" (JObj []) ≫= _) as [cs|];
    [|by intros [= <- <- <-]].
  intros H. by apply parse_comments_covered in H.
Qed.

(** The flat list the parser returns starts with the rows of the nested
    records it returns, in their order; what may follow are the rows built
    for an entry that raised. *)
Lemma parse_sub_comments_sub_rows n pid subs acc flat acc' flat' e :
  parse_sub_comments n pid subs acc flat = (acc', flat', e) ->
  exists new, acc' = acc ++ new /\ flat' = flat ++ map (sub_row n pid) new.
Proof.
  revert acc flat. induction subs as [|s r IH]; simpl; intros acc flat H.
  - inversion H; subst. exists []. by rewrite !app_nil_r.
  - destruct (entry_fields s) as [[[[[ct lk] ip] nk] id]|e'].
    + apply IH in H as (new & -> & ->).
      exists (SubComment ct lk ip nk id :: new). by rewrite <- !app_assoc.
    + inversion H; subst. exists []. by rewrite !app_nil_r.
Qed.

Lemma all_rows_app n l1 l2 : all_rows n (l1 ++ l2) = all_rows n l1 ++ all_rows n l2.
Proof. unfold all_rows. by rewrite map_app, concat_app. Qed.

Lemma parse_comments_all_rows n cs nested flat nested' flat' e :
  parse_comments n cs nested flat = (nested', flat', e) ->
  exists new extra, nested' = nested ++ new /\ flat' = flat ++ all_rows n new ++ extra.
Proof.
  revert nested flat. induction cs as [|c r IH]; simpl; intros nested flat H.
  - inversion H; subst. exists [], []. by rewrite !app_nil_r.
  - destruct (entry_fields c) as [[[[[ct lk] ip] nk] id]|e'].
    2: { inversion H; subst. exists [], []. by rewrite !app_nil_r. }
    destruct (py_get c "sub_comments" (JArr []) ≫= _) as [subs|e'].
    2: { inversion H; subst. exists [], [FlatComment ct lk ip nk n id (JStr "") false].
         by rewrite app_nil_r. }
    destruct (parse_sub_comments n id subs [] _) as [[scs flat2] e2] eqn:Es.
    apply parse_sub_comments_sub_rows in Es as (new & -> & ->). simpl in *.
    destruct e2.
    + inversion H; subst. eexists [], _. rewrite app_nil_r. simpl.
      by rewrite <- app_assoc.
    + apply IH in H as (more & extra & -> & ->).
      exists (Comment ct lk ip nk id new :: more), extra.
      rewrite <- !app_assoc. split; [done|].
      change (Comment ct lk ip nk id new :: more) with ([Comment ct lk ip nk id new] ++ more).
      rewrite all_rows_app. unfold all_rows at 2, rows_of, top_row. simpl.
      by rewrite app_nil_r, <- !app_assoc.
Qed.

Lemma parse_comment_response_all_rows response_data n nested flat e :
  parse_comment_response response_data n = (nested, flat, e) ->
  exists extra, flat = all_rows n nested ++ extra.
Proof.
  unfold parse_comment_response.
  destruct (gate_closed response_data) as [[]|];
    try (intros [= <- <- <-]; by exists []).
  destruct (py_get response_data "data" (JObj []) ≫= _) as [cs|];
    [|intros [= <- <- <-]; by exists []].
  intros (new & extra & -> & ->)%parse_comments_all_rows. by exists extra.
Qed.

(** ** The merge at the level of one item *)

Lemma key_set_top_nested cs : key_set (top_ids cs) ⊆ key_set (nested_ids cs).
Proof.
  intros k. rewrite !elem_of_key_set, !elem_of_key_list.
  intros (v & Hv & Hk). exists v. split; [|done].
  apply list_elem_of_fmap in Hv as (c & -> & Hc). by apply top_ids_nested.
Qed.

Lemma consistent_nil : consistent [] [].
Proof. split; by try constructor. Qed.

Lemma filter_new_consistent old_nested old_flat nested flat ms :
  consistent old_nested old_flat ->
  Forall (covered flat) nested ->
  filter_new old_nested old_flat nested flat = Ok ms ->
  consistent (old_nested ++ new_nested_comments ms) (old_flat ++ new_flat_comments ms).
Proof.
  intros [Hn Hf Heq Hnd Hfd] Hcov H. unfold filter_new in H.
  apply bind_ok in H as (nids & Hnids & H). apply bind_ok in H as (fids & Hfids & H).
  apply add_nested_ids_ok in Hnids as [-> _]. apply add_flat_ids_ok in Hfids as [-> _].
  pose proof (merge_loop_nested _ _ _ _ H) as (acc & En & _ & Es & Hh & Hnd' & Hdis & _).
  pose proof (merge_loop_flat_ext _ _ _ _ H) as (accf & Ef & Efs & Hfh & Hfd' & Hfdis).
  pose proof (merge_loop_sets_eq _ _ _ _ H Hcov) as Hsets.
  simpl in *. rewrite En, Ef. split.
  - rewrite nested_ids_app. by apply Forall_app.
  - rewrite flat_ids_app. by apply Forall_app.
  - rewrite nested_ids_app, flat_ids_app, !key_set_app.
    rewrite Es, Efs in Hsets. set_solver.
  - rewrite top_ids_app, key_list_app. apply NoDup_app. repeat split; [done| |done].
    intros k Hk Hk'. apply (Hdis k Hk').
    pose proof (key_set_top_nested old_nested k) as Htop.
    rewrite elem_of_key_set in Htop. set_solver.
  - rewrite flat_ids_app, key_list_app. apply NoDup_app. repeat split; [done| |done].
    intros k Hk Hk'. apply (Hfdis k Hk'). apply elem_of_union. left.
    by apply elem_of_key_set.
Qed.

(** [merge_batch] with the two [d[k]] reads resolved: after the keys
    were initialised they return the sequences of the item. *)
Lemma merge_batch_unfold st n ns fs :
  merge_batch st n ns fs =
  match ns, fs with
  | [], [] => st
  | _, _ =>
    let data := dict_init n (all_comments_data st) in
    let flat := dict_init n (all_comments_flat st) in
    match filter_new (item_nested st n) (item_flat st n) ns fs with
    | Raise _ => Store data flat
    | Ok ms =>
      match new_nested_comments ms with
      | [] => Store data flat
      | _ => Store (dict_extend n (new_nested_comments ms) data)
                   (dict_extend n (new_flat_comments ms) flat)
      end
    end
  end.
Proof.
  unfold merge_batch, dict_item, item_nested, item_flat.
  rewrite !dict_lookup_init. by destruct ns, fs.
Qed.

(** The three outcomes of a merge for the item it is about. *)
Lemma merge_batch_cases st n ns fs :
  merge_batch st n ns fs = st \/
  (merge_batch st n ns fs =
     Store (dict_init n (all_comments_data st)) (dict_init n (all_comments_flat st)) /\
   forall ms, filter_new (item_nested st n) (item_flat st n) ns fs = Ok ms ->
              new_nested_comments ms = []) \/
  (exists ms,
     filter_new (item_nested st n) (item_flat st n) ns fs = Ok ms /\
     new_nested_comments ms <> [] /\
     merge_batch st n ns fs =
       Store (dict_extend n (new_nested_comments ms) (dict_init n (all_comments_data st)))
             (dict_extend n (new_flat_comments ms) (dict_init n (all_comments_flat st)))).
Proof.
  rewrite merge_batch_unfold.
  destruct (filter_new (item_nested st n) (item_flat st n) ns fs) as [ms|e] eqn:E.
  - destruct (new_nested_comments ms) as [|c l] eqn:En.
    + destruct ns, fs; auto; right; left; (split; [done|]); by intros ? [= <-].
    + destruct ns, fs; auto; right; right; exists ms; rewrite En; done.
  - destruct ns, fs; auto; right; left; (split; [done|]); done.
Qed.

(** A merge that finds nothing new for an item that has its entries
    leaves the store as it is. *)
Lemma merge_batch_nothing st n ns fs :
  (forall ms, filter_new (item_nested st n) (item_flat st n) ns fs = Ok ms ->
              new_nested_comments ms = []) ->
  dict_init n (all_comments_data st) = all_comments_data st ->
  dict_init n (all_comments_flat st) = all_comments_flat st ->
  merge_batch st n ns fs = st.
Proof.
  intros Hnone Hd Hf. rewrite merge_batch_unfold. simpl. rewrite Hd, Hf.
  destruct st as [data flat]; simpl.
  destruct (filter_new _ _ ns fs) as [ms|].
  - rewrite (Hnone ms eq_refl). by destruct ns, fs.
  - by destruct ns, fs.
Qed.

Lemma item_nested_init st n flat :
  item_nested (Store (dict_init n (all_comments_data st)) flat) n = item_nested st n.
Proof. unfold item_nested. simpl. by rewrite dict_lookup_init. Qed.

Lemma item_flat_init st n data :
  item_flat (Store data (dict_init n (all_comments_flat st))) n = item_flat st n.
Proof. unfold item_flat. simpl. by rewrite dict_lookup_init. Qed.

Lemma item_nested_extend st n new flat :
  item_nested (Store (dict_extend n new (dict_init n (all_comments_data st))) flat) n
  = item_nested st n ++ new.
Proof. unfold item_nested. simpl. by rewrite dict_lookup_extend, dict_lookup_init. Qed.

Lemma item_flat_extend st n new data :
  item_flat (Store data (dict_extend n new (dict_init n (all_comments_flat st)))) n
  = item_flat st n ++ new.
Proof. unfold item_flat. simpl. by rewrite dict_lookup_extend, dict_lookup_init. Qed.

(** What a merge appends to the sequences of its item: nothing, or the
    two lists the filtering loop has built. *)
Lemma merge_batch_item st n ns fs :
  (item_nested (merge_batch st n ns fs) n = item_nested st n /\
   item_flat (merge_batch st n ns fs) n = item_flat st n) \/
  (exists ms,
     filter_new (item_nested st n) (item_flat st n) ns fs = Ok ms /\
     item_nested (merge_batch st n ns fs) n = item_nested st n ++ new_nested_comments ms /\
     item_flat (merge_batch st n ns fs) n = item_flat st n ++ new_flat_comments ms).
Proof.
  destruct (merge_batch_cases st n ns fs) as [->|[[-> _]|(ms & Hf & _ & ->)]].
  - by left.
  - left. by rewrite item_nested_init, item_flat_init.
  - right. exists ms. by rewrite item_nested_extend, item_flat_extend.
Qed.

(** A merge for one item leaves the entries of the others as they are. *)
Lemma merge_batch_frame st n ns fs m :
  m <> n ->
  dict_lookup m (all_comments_data (merge_batch st n ns fs))
    = dict_lookup m (all_comments_data st) /\
  dict_lookup m (all_comments_flat (merge_batch st n ns fs))
    = dict_lookup m (all_comments_flat st).
Proof.
  intros Hne.
  destruct (merge_batch_cases st n ns fs) as [->|[[-> _]|(ms & _ & _ & ->)]]; simpl.
  - done.
  - by rewrite !dict_lookup_init_ne.
  - by rewrite !dict_lookup_extend_ne, !dict_lookup_init_ne.
Qed.

Lemma parse_and_merge_frame st n response_body m :
  m <> n ->
  dict_lookup m (all_comments_data (parse_and_merge st n response_body))
    = dict_lookup m (all_comments_data st) /\
  dict_lookup m (all_comments_flat (parse_and_merge st n response_body))
    = dict_lookup m (all_comments_flat st).
Proof.
  intros Hne. unfold parse_and_merge.
  destruct (parse_comment_response response_body n) as [[ns fs] e].
  by apply merge_batch_frame.
Qed.

Lemma parse_and_merge_consistent st n response_body :
  consistent (item_nested st n) (item_flat st n) ->
  consistent (item_nested (parse_and_merge st n response_body) n)
             (item_flat (parse_and_merge st n response_body) n).
Proof.
  intros Hc. unfold parse_and_merge.
  destruct (parse_comment_response response_body n) as [[ns fs] e] eqn:Ep.
  apply parse_comment_response_covered in Ep.
  destruct (merge_batch_item st n ns fs) as [[-> ->]|(ms & Hf & -> & ->)]; [done|].
  by eapply filter_new_consistent.
Qed.

Lemma reachable_consistent st :
  reachable st -> forall n, consistent (item_nested st n) (item_flat st n).
Proof.
  induction 1 as [|st n0 b _ IH]; intros n.
  - apply consistent_nil.
  - destruct (decide (n = n0)) as [->|Hne]; [by apply parse_and_merge_consistent|].
    unfold item_nested, item_flat.
    destruct (parse_and_merge_frame st n0 b n Hne) as [-> ->]. apply IH.
Qed.

(** ** Merging the same batch again *)

(** After a merge that appended something, every top-level identifier
    of the batch is among the identifiers of the nested sequence, so a
    second pass over the same batch accepts nothing. *)
Lemma filter_new_again old_nested old_flat nested flat ms ms2 :
  filter_new old_nested old_flat nested flat = Ok ms ->
  filter_new (old_nested ++ new_nested_comments ms) (old_flat ++ new_flat_comments ms)
             nested flat = Ok ms2 ->
  new_nested_comments ms2 = [].
Proof.
  unfold filter_new. intros H H2.
  apply bind_ok in H as (nids & Hnids & H). apply bind_ok in H as (fids & _ & H).
  apply add_nested_ids_ok in Hnids as [-> _].
  apply merge_loop_nested in H as (acc & En & _ & Es & _ & _ & _ & Hall).
  simpl in En. subst acc.
  apply bind_ok in H2 as (nids2 & Hnids2 & H2). apply bind_ok in H2 as (fids2 & _ & H2).
  apply add_nested_ids_ok in Hnids2 as [-> _].
  rewrite merge_loop_known in H2; [by inversion H2|].
  eapply Forall_impl; [exact Hall|]. simpl. intros c (k & Hk & Hin).
  exists k. split; [done|]. rewrite Es in Hin.
  rewrite nested_ids_app, key_set_app. set_solver.
Qed.

Lemma merge_batch_idempotent st n ns fs :
  merge_batch (merge_batch st n ns fs) n ns fs = merge_batch st n ns fs.
Proof.
  destruct (merge_batch_cases st n ns fs) as [E|[[E Hnone]|(ms & Hf & Hne & E)]].
  - by rewrite !E.
  - rewrite E. apply merge_batch_nothing; simpl.
    + by rewrite item_nested_init, item_flat_init.
    + apply dict_init_idemp.
    + apply dict_init_idemp.
  - rewrite E. apply merge_batch_nothing; simpl.
    + rewrite item_nested_extend, item_flat_extend. intros ms2.
      by apply filter_new_again.
    + eapply dict_init_present. by rewrite dict_lookup_extend, dict_lookup_init.
    + eapply dict_init_present. by rewrite dict_lookup_extend, dict_lookup_init.
Qed.

Lemma parse_and_merge_idempotent st n response_body :
  parse_and_merge (parse_and_merge st n response_body) n response_body
  = parse_and_merge st n response_body.
Proof.
  unfold parse_and_merge.
  destruct (parse_comment_response response_body n) as [[ns fs] e].
  apply merge_batch_idempotent.
Qed.

(** ** What one merge appends *)

Lemma elem_of_key_set_nested k cs :
  k ∈ key_set (nested_ids cs) <-> exists c, c ∈ cs /\ k ∈ key_set (nested_ids [c]).
Proof.
  rewrite elem_of_key_set, elem_of_key_list. split.
  - intros (v & Hv & Hk). apply elem_of_nested_ids in Hv as (c & Hc & Hv).
    exists c. split; [done|]. rewrite elem_of_key_set, elem_of_key_list.
    exists v. split; [|done]. rewrite nested_ids_one.
    destruct Hv as [->|Hv]; [left | by right].
  - intros (c & Hc & Hk). rewrite elem_of_key_set, elem_of_key_list in Hk.
    destruct Hk as (v & Hv & Hk). exists v. split; [|done].
    rewrite nested_ids_one in Hv. apply elem_of_nested_ids. exists c.
    split; [done|]. apply elem_of_cons in Hv as [->|Hv]; auto.
Qed.

(** The records the filtering loop accepts: nested records of the batch,
    in the order of the batch, none with a top-level identifier that the
    item already knows; and flat records whose identifiers are among those
    of the accepted nested records. *)
Lemma filter_new_accepted old_nested old_flat nested flat ms :
  filter_new old_nested old_flat nested flat = Ok ms ->
  new_nested_comments ms `sublist_of` nested /\
  (forall c k, c ∈ new_nested_comments ms -> key_of (comment_id c) = Some k ->
     k ∉ key_set (nested_ids old_nested)) /\
  key_set (flat_ids (new_flat_comments ms)) ⊆ key_set (nested_ids (new_nested_comments ms)).
Proof.
  unfold filter_new. intros H.
  apply bind_ok in H as (nids & Hnids & H). apply bind_ok in H as (fids & _ & H).
  apply add_nested_ids_ok in Hnids as [-> _].
  pose proof (merge_loop_nested _ _ _ _ H) as (acc & En & Hsl & _ & _ & _ & Hdis & _).
  pose proof (merge_loop_flat_keys _ _ _ _ H) as Hfk.
  simpl in *. subst acc. repeat split; [done| |by apply Hfk].
  intros c k Hc Hk Hin. apply (Hdis k); [|set_solver].
  apply elem_of_key_list. exists (comment_id c). split; [|done].
  apply list_elem_of_fmap. by exists c.
Qed.

(** A record of the batch whose identifier the item knows is passed
    over: the filtering gives what it gives without the record. *)
Lemma filter_new_drop_known old_nested old_flat flat l1 c l2 k :
  key_of (comment_id c) = Some k -> k ∈ key_set (nested_ids old_nested) ->
  filter_new old_nested old_flat (l1 ++ c :: l2) flat
  = filter_new old_nested old_flat (l1 ++ l2) flat.
Proof.
  intros Hk Hin. unfold filter_new.
  destruct (add_nested_ids old_nested ∅) as [nids|e] eqn:En; simpl; [|done].
  apply add_nested_ids_ok in En as [-> _].
  destruct (add_flat_ids old_flat ∅) as [fids|e]; simpl; [|done].
  apply (merge_loop_drop_known _ _ _ _ _ k Hk). simpl. set_solver.
Qed.

(** Across merges the sequences only grow at the end, and the nested
    records one merge appends come in the order of the parsed batch. *)
Lemma parse_and_merge_appends st n response_body :
  exists more_nested more_flat,
    item_nested (parse_and_merge st n response_body) n = item_nested st n ++ more_nested /\
    item_flat (parse_and_merge st n response_body) n = item_flat st n ++ more_flat /\
    more_nested `sublist_of` (parse_comment_response response_body n).1.1.
Proof.
  unfold parse_and_merge.
  destruct (parse_comment_response response_body n) as [[ns fs] e]. simpl.
  destruct (merge_batch_item st n ns fs) as [[-> ->]|(ms & Hf & -> & ->)].
  - exists [], []. rewrite !app_nil_r. repeat split. apply sublist_nil_l.
  - exists (new_nested_comments ms), (new_flat_comments ms). repeat split.
    by apply filter_new_accepted in Hf as (? & _).
Qed.

(** ** The order of the flat rows *)

Lemma next_match_skip {A : Type} (p : A -> bool) l1 l2 :
  Forall (fun x => p x = false) l1 -> next_match p (l1 ++ l2) = next_match p l2.
Proof. induction 1 as [|x l Hx _ IH]; simpl; [done | by rewrite Hx]. Qed.

Lemma row_matches_key k sub fc :
  row_matches k sub fc = true <->
  key_of (fc_comment_id fc) = Some k /\ k <> KNan /\ fc_is_sub_comment fc = sub.
Proof.
  unfold row_matches. rewrite andb_true_iff, py_eq_key_true. split.
  - intros [[Hk Hn] Hs]. repeat split; try done. by apply Bool.eqb_prop.
  - intros (Hk & Hn & <-). repeat split; try done. apply Bool.eqb_reflx.
Qed.

Lemma row_matches_not k sub fc :
  (key_of (fc_comment_id fc) = Some k -> fc_is_sub_comment fc <> sub) ->
  row_matches k sub fc = false.
Proof.
  intros H. destruct (row_matches k sub fc) eqn:E; [|done].
  apply row_matches_key in E as (Hk & _ & Hs). by destruct (H Hk).
Qed.

Lemma all_reply_ids_app l1 l2 : all_reply_ids (l1 ++ l2) = all_reply_ids l1 ++ all_reply_ids l2.
Proof. unfold all_reply_ids. by rewrite map_app, concat_app. Qed.

Lemma all_rows_one n c : all_rows n [c] = rows_of n c.
Proof. unfold all_rows. simpl. by rewrite app_nil_r. Qed.

Lemma sub_rows_no_match n pid k subs :
  k ∉ key_list (map sc_comment_id subs) ->
  Forall (fun fc => row_matches k true fc = false) (map (sub_row n pid) subs).
Proof.
  intros Hk. apply Forall_fmap, Forall_forall. intros sc Hin.
  apply row_matches_not. simpl. intros Hsc. destruct Hk.
  apply elem_of_key_list. exists (sc_comment_id sc). split; [|done].
  apply list_elem_of_fmap. by exists sc.
Qed.

Lemma all_rows_no_top_match n k cs :
  k ∉ key_list (top_ids cs) ->
  Forall (fun fc => row_matches k false fc = false) (all_rows n cs).
Proof.
  induction cs as [|c r IH]; [constructor|].
  change (c :: r) with ([c] ++ r). rewrite top_ids_app, key_list_app, all_rows_app.
  intros [Hc Hr]%not_elem_of_app. apply Forall_app. split; [|by apply IH].
  unfold all_rows. simpl. rewrite app_nil_r. constructor.
  - apply row_matches_not. simpl. intros Hk. destruct Hc.
    unfold key_list. simpl. rewrite Hk. left.
  - apply Forall_fmap, Forall_forall. intros sc _. by apply row_matches_not.
Qed.

Lemma all_rows_no_sub_match n k cs :
  k ∉ key_list (all_reply_ids cs) ->
  Forall (fun fc => row_matches k true fc = false) (all_rows n cs).
Proof.
  induction cs as [|c r IH]; [constructor|].
  change (c :: r) with ([c] ++ r). rewrite all_reply_ids_app, key_list_app, all_rows_app.
  intros [Hc Hr]%not_elem_of_app. apply Forall_app. split; [|by apply IH].
  unfold all_rows. simpl. rewrite app_nil_r. constructor.
  - by apply row_matches_not.
  - apply sub_rows_no_match. unfold all_reply_ids in Hc. simpl in Hc.
    by rewrite app_nil_r in Hc.
Qed.

(** What [accept_flat] appends is the record found, or nothing. *)
Lemma accept_flat_appends fc ms ms' :
  accept_flat (Some fc) ms = Ok ms' ->
  exists acc, new_flat_comments ms' = new_flat_comments ms ++ acc /\ acc `sublist_of` [fc].
Proof.
  intros [->|(fc' & k & [= <-] & _ & _ & ->)]%accept_flat_inv.
  - exists []. rewrite app_nil_r. split; [done | apply sublist_nil_l].
  - by exists [fc].
Qed.

(** With each reply of the record matched by no row before its own, the
    reply loop appends rows of the replies, in their order. *)
Lemma merge_subs_own_rows n pid before s1 subs rest ms ms' :
  (forall k, k ∈ key_list (map sc_comment_id subs) ->
     Forall (fun fc => row_matches k true fc = false) before) ->
  NoDup (key_list (map sc_comment_id (s1 ++ subs))) ->
  merge_subs (before ++ map (sub_row n pid) (s1 ++ subs) ++ rest) subs ms = Ok ms' ->
  exists acc, new_flat_comments ms' = new_flat_comments ms ++ acc /\
              acc `sublist_of` map (sub_row n pid) subs.
Proof.
  revert s1 ms. induction subs as [|sc r IH]; intros s1 ms Hbefore Hnd H.
  - inversion H; subst. exists []. rewrite app_nil_r. split; [done | constructor].
  - simpl in H. apply bind_ok in H as (k & Hk & H). apply py_hash_key_of in Hk.
    assert (k ∈ key_list (map sc_comment_id (sc :: r))) as Hkin
      by (unfold key_list; simpl; rewrite Hk; left).
    assert (forall k', k' ∈ key_list (map sc_comment_id r) ->
              Forall (fun fc => row_matches k' true fc = false) before) as Hbefore'.
    { intros k' Hk'. apply Hbefore. unfold key_list. simpl. rewrite Hk. by right. }
    assert (k ∉ key_list (map sc_comment_id s1)) as Hs1.
    { rewrite map_app, key_list_app in Hnd.
      apply NoDup_app in Hnd as (_ & Hdis & _). intros Hin. by apply (Hdis k Hin). }
    replace (s1 ++ sc :: r) with ((s1 ++ [sc]) ++ r) in * by (by rewrite <- app_assoc).
    destruct (decide (k ∈ existing_nested_ids ms)).
    + destruct (IH _ _ Hbefore' Hnd H) as (acc & E & Hsl).
      exists acc. split; [done | by apply sublist_cons].
    + apply bind_ok in H as (ms1 & H1 & H).
      destruct (IH _ _ Hbefore' Hnd H) as (acc & E & Hsl).
      assert (exists a1, new_flat_comments ms1 = new_flat_comments ms ++ a1 /\
                         a1 `sublist_of` [sub_row n pid sc]) as (a1 & E1 & Hsl1).
      { destruct (decide (k = KNan)) as [->|Hnan].
        - rewrite flat_for_nan in H1. simpl in H1. inversion H1; subst ms1. simpl.
          exists []. rewrite app_nil_r. split; [done | apply sublist_nil_l].
        - assert (flat_for (before ++ map (sub_row n pid) ((s1 ++ [sc]) ++ r) ++ rest) k true
                  = Some (sub_row n pid sc)) as Efound.
          { unfold flat_for. rewrite next_match_skip by (by apply Hbefore).
            rewrite <- (app_assoc s1), !map_app, <- !app_assoc.
            rewrite next_match_skip by (by apply sub_rows_no_match).
            simpl. assert (row_matches k true (sub_row n pid sc) = true) as ->
              by (by apply row_matches_key). done. }
          rewrite Efound in H1. apply accept_flat_appends in H1 as (a1 & E1 & Hsl1).
          simpl in E1. by exists a1. }
      exists (a1 ++ acc). rewrite E, E1, <- app_assoc. split; [done|].
      change (map (sub_row n pid) (sc :: r))
        with ([sub_row n pid sc] ++ map (sub_row n pid) r).
      by apply sublist_app.
Qed.

(** With the identifiers of the batch pairwise different at each level,
    one round appends rows of its own record, in their order. *)
Lemma merge_one_own_rows n pre c post rest ms ms' :
  NoDup (key_list (top_ids (pre ++ c :: post))) ->
  NoDup (key_list (all_reply_ids (pre ++ c :: post))) ->
  merge_one (all_rows n (pre ++ c :: post) ++ rest) c ms = Ok ms' ->
  exists acc, new_flat_comments ms' = new_flat_comments ms ++ acc /\
              acc `sublist_of` rows_of n c.
Proof.
  intros Htop Hsub.
  assert (all_rows n (pre ++ c :: post) ++ rest
          = all_rows n pre ++ top_row n c
              :: map (sub_row n (comment_id c)) (sub_comments c)
                 ++ all_rows n post ++ rest) as ->.
  { change (c :: post) with ([c] ++ post). rewrite !all_rows_app, all_rows_one.
    unfold rows_of. by rewrite <- !app_assoc. }
  intros (k & Hk & [[Hin ->]|(Hnot & ms1 & H1 & H2)])%merge_one_inv.
  { exists []. rewrite app_nil_r. split; [done | apply sublist_nil_l]. }
  change (c :: post) with ([c] ++ post) in *.
  assert (k ∉ key_list (top_ids pre)) as Hpre.
  { rewrite top_ids_app, key_list_app in Htop. apply NoDup_app in Htop as (_ & Htop & _).
    intros Hin. apply (Htop k Hin). rewrite top_ids_app, key_list_app.
    apply elem_of_app. left. unfold key_list. simpl. rewrite Hk. left. }
  rewrite !all_reply_ids_app, !key_list_app in Hsub.
  apply NoDup_app in Hsub as (_ & Hdis & Hsub). apply NoDup_app in Hsub as (Hsub & _ & _).
  assert (key_list (all_reply_ids [c]) = key_list (map sc_comment_id (sub_comments c)))
    as Ec by (unfold all_reply_ids, reply_ids; simpl; by rewrite app_nil_r).
  rewrite Ec in Hsub, Hdis.
  assert (exists a1, new_flat_comments ms1 = new_flat_comments ms ++ a1 /\
                     a1 `sublist_of` [top_row n c]) as (a1 & E1 & Hs1).
  { destruct (decide (k = KNan)) as [->|Hnan].
    - rewrite flat_for_nan in H1. simpl in H1. inversion H1; subst ms1. simpl.
      exists []. rewrite app_nil_r. split; [done | apply sublist_nil_l].
    - assert (flat_for (all_rows n pre ++ top_row n c
                          :: map (sub_row n (comment_id c)) (sub_comments c)
                             ++ all_rows n post ++ rest) k false
              = Some (top_row n c)) as Efound.
      { unfold flat_for. rewrite next_match_skip by (by apply all_rows_no_top_match).
        simpl. assert (row_matches k false (top_row n c) = true) as ->
          by (by apply row_matches_key). done. }
      rewrite Efound in H1. apply accept_flat_appends in H1 as (a1 & E1 & Hs1).
      simpl in E1. by exists a1. }
  replace (all_rows n pre ++ top_row n c
             :: map (sub_row n (comment_id c)) (sub_comments c)
                ++ all_rows n post ++ rest)
    with ((all_rows n pre ++ [top_row n c])
          ++ map (sub_row n (comment_id c)) ([] ++ sub_comments c)
          ++ (all_rows n post ++ rest)) in H2
    by (by rewrite <- app_assoc).
  apply merge_subs_own_rows in H2 as (a2 & E2 & Hs2); [| |done].
  - exists (a1 ++ a2). rewrite E2, E1, <- app_assoc. split; [done|].
    change (rows_of n c)
      with ([top_row n c] ++ map (sub_row n (comment_id c)) (sub_comments c)).
    by apply sublist_app.
  - intros k' Hk'. apply Forall_app. split.
    + apply all_rows_no_sub_match. intros Hin. apply (Hdis k' Hin).
      apply elem_of_app. by left.
    + constructor; [by apply row_matches_not | constructor].
Qed.

Lemma merge_loop_own_rows n pre cs rest ms ms' :
  NoDup (key_list (top_ids (pre ++ cs))) ->
  NoDup (key_list (all_reply_ids (pre ++ cs))) ->
  merge_loop (all_rows n (pre ++ cs) ++ rest) cs ms = Ok ms' ->
  exists acc, new_flat_comments ms' = new_flat_comments ms ++ acc /\
              acc `sublist_of` all_rows n cs.
Proof.
  revert pre ms. induction cs as [|c r IH]; simpl; intros pre ms Htop Hsub H.
  - inversion H; subst. exists []. rewrite app_nil_r. split; [done | constructor].
  - apply bind_ok in H as (ms1 & H1 & H).
    apply merge_one_own_rows in H1 as (a1 & E1 & Hs1); [|done|done].
    replace (pre ++ c :: r) with ((pre ++ [c]) ++ r) in * by (by rewrite <- app_assoc).
    apply IH in H as (a2 & E2 & Hs2); [|done|done].
    exists (a1 ++ a2). rewrite E2, E1, <- app_assoc. split; [done|].
    change (c :: r) with ([c] ++ r). rewrite all_rows_app.
    apply sublist_app; [|done]. unfold all_rows. simpl. by rewrite app_nil_r.
Qed.

(** When no two top-level comments and no two replies of the parsed
    batch have the same identifier, the flat rows one merge appends come
    in the order of the parsed flat batch. *)
Lemma parse_and_merge_flat_order st n response_body :
  NoDup (key_list (top_ids (parse_comment_response response_body n).1.1)) ->
  NoDup (key_list (all_reply_ids (parse_comment_response response_body n).1.1)) ->
  exists more_flat,
    item_flat (parse_and_merge st n response_body) n = item_flat st n ++ more_flat /\
    more_flat `sublist_of` (parse_comment_response response_body n).1.2.
Proof.
  unfold parse_and_merge.
  destruct (parse_comment_response response_body n) as [[ns fs] e] eqn:Ep. simpl.
  intros Htop Hsub. apply parse_comment_response_all_rows in Ep as [extra ->].
  destruct (merge_batch_item st n ns (all_rows n ns ++ extra))
    as [[_ ->]|(ms & Hf & _ & ->)].
  - exists []. rewrite app_nil_r. split; [done | apply sublist_nil_l].
  - exists (new_flat_comments ms). split; [done|].
    unfold filter_new in Hf.
    apply bind_ok in Hf as (nids & _ & Hf). apply bind_ok in Hf as (fids & _ & Hf).
    apply (merge_loop_own_rows n [] ns extra) in Hf as (acc & E & Hsl); [|done|done].
    simpl in E. subst acc. by apply sublist_inserts_r.
Qed.

(** ** The parser on a failing entry *)

Lemma parse_body_of cs n : parse_comment_response (body_of cs) n = parse_comments n cs [] [].
Proof. reflexivity. Qed.

Lemma parse_comments_app n l1 l2 ns fs :
  parse_comments n (l1 ++ l2) ns fs =
  match parse_comments n l1 ns fs with
  | (ns1, fs1, None) => parse_comments n l2 ns1 fs1
  | stopped => stopped
  end.
Proof.
  revert ns fs. induction l1 as [|c r IH]; simpl; intros ns fs; [done|].
  destruct (entry_fields c) as [[[[[ct lk] ip] nk] id]|e]; [|done].
  destruct (py_get c "sub_comments" (JArr []) ≫= _) as [subs|e]; [|done].
  destruct (parse_sub_comments n id subs [] _) as [[scs flat2] [e|]]; [done|].
  apply IH.
Qed.


Lemma entry_fields_ok m :
  user_info_ok m = true ->
  entry_fields (JObj m)
  = Ok (field m "content" (JStr ""), field m "like_count" (JStr "0"),
        field m "ip_location" (JStr ""), nickname_of m, field m "id" (JStr "")).
Proof.
  unfold user_info_ok, entry_fields, nickname_of, field. simpl.
  destruct (dict_lookup "user_info" m) as [[]|]; simpl; done.
Qed.

Lemma parse_sub_comments_well_formed n pid l acc flat :
  forallb well_formed_reply l = true ->
  parse_sub_comments n pid l acc flat
  = (acc ++ map reply_of l, flat ++ map (sub_row n pid) (map reply_of l), None).
Proof.
  revert acc flat. induction l as [|j l IH]; simpl; intros acc flat H.
  - by rewrite !app_nil_r.
  - apply andb_true_iff in H as [Hj Hl]. destruct j as [| | | | | |m]; try done.
    simpl in Hj. rewrite (entry_fields_ok m Hj), (IH _ _ Hl).
    by rewrite <- !app_assoc.
Qed.






(** ** The keys of the two dicts *)

Lemma dict_lookup_None {V : Type} k (d : list (string * V)) :
  dict_lookup k d = None <-> k ∉ map fst d.
Proof.
  induction d as [|[k' v] d IH]; simpl.
  - split; [intros _ ?%elem_of_nil; done | done].
  - rewrite not_elem_of_cons. destruct (String.eqb_spec k k') as [->|Hne].
    + split; [done | by intros [? _]].
    + rewrite IH. tauto.
Qed.

Lemma dict_init_keys {V : Type} k (d : list (string * list V)) :
  map fst (dict_init k d) = if bool_decide (k ∈ map fst d) then map fst d else map fst d ++ [k].
Proof.
  unfold dict_init. destruct (dict_lookup k d) eqn:E.
  - rewrite bool_decide_eq_true_2; [done|].
    destruct (decide (k ∈ map fst d)) as [|Hn]; [done|].
    apply dict_lookup_None in Hn. congruence.
  - rewrite bool_decide_eq_false_2; [|by apply dict_lookup_None].
    by rewrite map_app.
Qed.

Lemma merge_batch_same_keys st n ns fs :
  same_keys st -> same_keys (merge_batch st n ns fs).
Proof.
  intros [Hk Hnd].
  assert (same_keys (Store (dict_init n (all_comments_data st))
                           (dict_init n (all_comments_flat st)))) as Hinit.
  { unfold same_keys. simpl. rewrite !dict_init_keys, <- Hk. split; [done|].
    case_bool_decide; [done|]. apply NoDup_app. repeat split; [done| |apply NoDup_singleton].
    by intros k Hin ->%list_elem_of_singleton. }
  destruct (merge_batch_cases st n ns fs) as [->|[[-> _]|(ms & _ & _ & ->)]]; try done.
  unfold same_keys in *. simpl in *. by rewrite !dict_keys_extend.
Qed.

Lemma reachable_same_keys st : reachable st -> same_keys st.
Proof.
  induction 1 as [|st n b _ IH].
  - split; [done | constructor].
  - unfold parse_and_merge. destruct (parse_comment_response b n) as [[ns fs] e].
    by apply merge_batch_same_keys.
Qed.

(** With each key once, what [extend_all] collects is the sequence of
    each item, one item after the other in the order of the keys. *)
Lemma extend_all_items {V : Type} (d : list (string * list V)) :
  NoDup (map fst d) ->
  extend_all d = List.concat (map (fun k => default [] (dict_lookup k d)) (map fst d)).
Proof.
  unfold extend_all. induction d as [|[k v] d IH]; simpl; [done|].
  intros [Hk Hnd]%NoDup_cons. rewrite String.eqb_refl. simpl. f_equal.
  rewrite (IH Hnd). f_equal. apply map_ext_in. intros k' Hin.
  destruct (String.eqb_spec k' k) as [->|]; [|done].
  by apply list_elem_of_In in Hin.
Qed.

(** ** The URL patterns *)

Lemma append_cons c s r : String c s +:+ r = String c (s +:+ r).
Proof. reflexivity. Qed.

Lemma append_nil s : EmptyString +:+ s = s.
Proof. reflexivity. Qed.

Lemma strip_prefix_app p r : strip_prefix p (p +:+ r) = Some r.
Proof. induction p as [|a p IH]; simpl; [by destruct r | by rewrite Ascii.eqb_refl]. Qed.

Lemma strip_prefix_some p s r : strip_prefix p s = Some r -> s = p +:+ r.
Proof.
  revert s. induction p as [|a p IH]; simpl; intros s H.
  - destruct s; by inversion H.
  - destruct s as [|b s]; [done|]. destruct (Ascii.eqb_spec a b) as [->|]; [|done].
    by rewrite (IH _ H).
Qed.

Lemma hex_run_not_hex s : starts_hex s = false -> hex_run s = EmptyString.
Proof. destruct s as [|c s]; simpl; [done | by intros ->]. Qed.

Lemma hex_run_app g rest :
  all_hex g = true -> starts_hex rest = false -> hex_run (g +:+ rest) = g.
Proof.
  induction g as [|c g IH]; simpl; intros Hg Hr; [by apply hex_run_not_hex|].
  apply andb_true_iff in Hg as [-> Hg]. by rewrite IH.
Qed.

Lemma hex_run_split s :
  exists rest, s = hex_run s +:+ rest /\ all_hex (hex_run s) = true /\ starts_hex rest = false.
Proof.
  induction s as [|c s (rest & E & Hh & Hr)]; simpl; [by exists EmptyString|].
  destruct (is_hex c) eqn:Hc; simpl.
  - exists rest. rewrite append_cons, <- E, Hc, Hh. done.
  - exists (String c s). rewrite append_nil. simpl. by rewrite Hc.
Qed.

Lemma starts_hex_app g rest :
  g <> EmptyString -> all_hex g = true -> starts_hex (g +:+ rest) = true.
Proof. destruct g as [|c g]; simpl; [done|]. by intros _ [-> _]%andb_true_iff. Qed.

Lemma hex_run_starts s : starts_hex s = true -> hex_run s <> EmptyString.
Proof. destruct s as [|c s]; simpl; [done | by intros ->]. Qed.

Lemma match_here_some p s g :
  match_here p s = Some g -> run_after p s EmptyString g.
Proof.
  unfold match_here. destruct (strip_prefix p s) as [r|] eqn:E; [|done].
  apply strip_prefix_some in E as ->.
  destruct (hex_run_split r) as (rest & Er & Hh & Hr).
  destruct (hex_run r) as [|c g'] eqn:Eg; [done|]. intros [= <-].
  exists rest. simpl. by rewrite <- Er.
Qed.

Lemma match_here_run p g rest :
  g <> EmptyString -> all_hex g = true -> starts_hex rest = false ->
  match_here p (p +:+ g +:+ rest) = Some g.
Proof.
  intros Hg Hh Hr. unfold match_here. rewrite strip_prefix_app, hex_run_app by done.
  by destruct g.
Qed.

Lemma match_here_none p s rest1 :
  match_here p s = None -> s = p +:+ rest1 -> starts_hex rest1 = false.
Proof.
  unfold match_here. intros H ->. rewrite strip_prefix_app in H.
  destruct (starts_hex rest1) eqn:E; [|done].
  apply hex_run_starts in E. by destruct (hex_run rest1).
Qed.

Lemma re_search_hex_unfold p s :
  re_search_hex p s =
  match match_here p s with
  | Some g => Some g
  | None => match s with
            | EmptyString => None
            | String _ s' => re_search_hex p s'
            end
  end.
Proof. by destruct s. Qed.

Lemma re_search_hex_some p s g : re_search_hex p s = Some g -> first_run p s g.
Proof.
  induction s as [|c s IH]; rewrite re_search_hex_unfold;
    destruct (match_here p _) as [g0|] eqn:E.
  - intros [= ->]. exists EmptyString. split; [by apply match_here_some|].
    intros; simpl; lia.
  - done.
  - intros [= ->]. exists EmptyString. split; [by apply match_here_some|].
    intros; simpl; lia.
  - intros H. destruct (IH H) as (pre & (rest & -> & Hg) & Hmin).
    exists (String c pre). split; [by exists rest|].
    intros [|c1 pre1] rest1 E1 Hr1.
    + rewrite (match_here_none _ _ _ E E1) in Hr1. done.
    + simpl in E1. inversion E1 as [[Ec E2]]. simpl.
      apply le_n_S, (Hmin pre1 rest1); done.
Qed.

Lemma re_search_hex_none p s : re_search_hex p s = None -> no_run p s.
Proof.
  induction s as [|c s IH]; rewrite re_search_hex_unfold;
    destruct (match_here p _) as [g0|] eqn:E; try done.
  - intros _ [|c1 pre1] rest1 E1.
    + by apply (match_here_none _ _ _ E).
    + done.
  - intros H [|c1 pre1] rest1 E1.
    + by apply (match_here_none _ _ _ E).
    + simpl in E1. inversion E1 as [[Ec E2]]. by apply (IH H pre1).
Qed.

Lemma first_run_search p s g : first_run p s g -> re_search_hex p s = Some g.
Proof.
  intros (pre & (rest & -> & Hg & Hh & Hr) & Hmin).
  induction pre as [|c pre IH]; rewrite re_search_hex_unfold.
  - rewrite append_nil. by rewrite match_here_run.
  - rewrite append_cons in *. destruct (match_here p _) as [g0|] eqn:E.
    + apply match_here_some in E as (rest0 & E0 & Hg0 & Hh0 & _).
      specialize (Hmin EmptyString (g0 +:+ rest0) E0 (starts_hex_app _ _ Hg0 Hh0)).
      simpl in Hmin. lia.
    + apply IH. intros pre1 rest1 E1 Hr1.
      specialize (Hmin (String c pre1) rest1). rewrite append_cons, E1 in Hmin.
      specialize (Hmin eq_refl Hr1). simpl in Hmin. lia.
Qed.

Lemma no_run_search p s : no_run p s -> re_search_hex p s = None.
Proof.
  intros Hno. destruct (re_search_hex p s) as [g|] eqn:E; [|done].
  apply re_search_hex_some in E as (pre & (rest & E & Hg & Hh & _) & _).
  specialize (Hno pre (g +:+ rest) E). by rewrite starts_hex_app in Hno.
Qed.

(** A body that is not an object has no [get]: the parser's [except]
    clause catches the exception and prints it, both lists are empty and
    the merge leaves the store as it is. *)
Lemma parse_not_an_object response_data n st :
  match response_data with JObj _ => False | _ => True end ->
  parse_comment_response response_data n = ([], [], Some AttributeError) /\
  parse_and_merge st n response_data = st.
Proof.
  intros H. unfold parse_and_merge.
  assert (parse_comment_response response_data n = ([], [], Some AttributeError)) as ->
    by (by destruct response_data).
  done.
Qed.

(** ** The claims of the specification *)

(** C1, as stated, fails: the store knows the top-level comment [p];
    the next batch has [p] with the reply [r], never seen; the merge
    leaves the store as it was, so [r] is in neither sequence. *)
Lemma C1_new_reply_dropped :
  top_ids (item_nested store_p "abc123") = [JStr "p"] /\
  (exists c, (parse_comment_response body_p_r "abc123").1.1 = [c] /\
             comment_id c = JStr "p" /\ reply_ids c = [JStr "r"]) /\
  parse_and_merge store_p "abc123" body_p_r = store_p /\
  (KStr "r" ∉ key_set (nested_ids (item_nested (parse_and_merge store_p "abc123" body_p_r) "abc123"))) /\
  KStr "r" ∉ key_set (flat_ids (item_flat (parse_and_merge store_p "abc123" body_p_r) "abc123")).
Proof.
  assert (parse_and_merge store_p "abc123" body_p_r = store_p) as E by (vm_compute; reflexivity).
  split; [reflexivity|]. split; [eexists; repeat split; vm_compute; reflexivity|].
  split; [exact E|]. rewrite E. split; vm_compute; set_solver.
Qed.

(** C1, amended. When the item already knows a top-level comment, a
    later batch that carries a reply never seen before under known
    parents only does not add that reply: both sequences keep what they
    held (they can only grow at the end, so the nested record of the
    parent stays as it is), and the identifier of the reply enters
    neither the nested nor the flat sequence. It can enter only with a
    top-level comment of the batch that the item does not know yet. *)
Theorem C1_reply_under_known_parent st n response_body (r : key) :
  (r ∉ key_set (nested_ids (item_nested st n))) ->
  (r ∉ key_set (flat_ids (item_flat st n))) ->
  (forall c, c ∈ (parse_comment_response response_body n).1.1 ->
     r ∈ key_set (nested_ids [c]) ->
     exists p, key_of (comment_id c) = Some p /\
               p ∈ key_set (nested_ids (item_nested st n))) ->
  item_nested st n `prefix_of` item_nested (parse_and_merge st n response_body) n /\
  item_flat st n `prefix_of` item_flat (parse_and_merge st n response_body) n /\
  (r ∉ key_set (nested_ids (item_nested (parse_and_merge st n response_body) n))) /\
  r ∉ key_set (flat_ids (item_flat (parse_and_merge st n response_body) n)).
Proof.
  intros Hn Hf Hknown. unfold parse_and_merge in *.
  destruct (parse_comment_response response_body n) as [[ns fs] e]. simpl in Hknown.
  destruct (merge_batch_item st n ns fs) as [[-> ->]|(ms & Hfn & -> & ->)].
  - done.
  - apply filter_new_accepted in Hfn as (Hsl & Hdis & Hfk).
    assert (r ∉ key_set (nested_ids (new_nested_comments ms))) as Hnew.
    { intros (c & Hc & Hr)%elem_of_key_set_nested.
      destruct (Hknown c) as (p & Hp & Hin); [by eapply sublist_subseteq | done |].
      by apply (Hdis c p). }
    repeat split.
    + by apply prefix_app_r.
    + by apply prefix_app_r.
    + rewrite nested_ids_app, key_set_app. set_solver.
    + rewrite flat_ids_app, key_set_app. set_solver.
Qed.

Lemma C1_reply_under_known_parent_witness :
  (KStr "r" ∉ key_set (nested_ids (item_nested store_p "abc123"))) /\
  (KStr "r" ∉ key_set (flat_ids (item_flat store_p "abc123"))) /\
  KStr "r" ∉ key_set (flat_ids (item_flat (parse_and_merge store_p "abc123" body_p_r) "abc123")).
Proof.
  assert (KStr "r" ∉ key_set (nested_ids (item_nested store_p "abc123"))) as H1
    by (vm_compute; set_solver).
  assert (KStr "r" ∉ key_set (flat_ids (item_flat store_p "abc123"))) as H2
    by (vm_compute; set_solver).
  split; [exact H1|]. split; [exact H2|].
  refine (proj2 (proj2 (proj2
    (C1_reply_under_known_parent store_p "abc123" body_p_r (KStr "r") H1 H2 _)))).
  intros c Hc Hr. exists (KStr "p"). vm_compute in Hc.
  apply list_elem_of_singleton in Hc as ->. split; [reflexivity|].
  vm_compute. set_solver.
Defined.




(** C3, as stated, fails: after one merge of [body_dup] the nested
    sequence holds a record whose reply list has two records with the
    same identifier, at the same level. *)
Lemma C3_reply_level_duplicate :
  reachable (parse_and_merge empty_store "abc123" body_dup) /\
  exists c, item_nested (parse_and_merge empty_store "abc123" body_dup) "abc123" = [c] /\
            reply_ids c = [JStr "x"; JStr "x"].
Proof.
  split; [apply reachable_step, reachable_empty|].
  eexists. split; vm_compute; reflexivity.
Qed.

(** C3, amended. Parsing and merging the same body twice in a row gives
    the state that doing it once gives: the second time nothing is
    appended to either sequence. In a reachable state no two top-level
    records of the nested sequence have the same identifier, and no two
    records of the flat sequence have (reply lists are kept as parsed). *)
Theorem C3_idempotent_merge st n response_body :
  reachable st ->
  let st1 := parse_and_merge st n response_body in
  let st2 := parse_and_merge st1 n response_body in
  st2 = st1 /\
  item_nested st2 n = item_nested st1 n /\
  item_flat st2 n = item_flat st1 n /\
  NoDup (key_list (top_ids (item_nested st1 n))) /\
  NoDup (key_list (flat_ids (item_flat st1 n))).
Proof.
  intros H. simpl. rewrite parse_and_merge_idempotent. repeat split.
  - apply (reachable_consistent _ (reachable_step _ n response_body H) n).
  - apply (reachable_consistent _ (reachable_step _ n response_body H) n).
Qed.

Lemma C3_idempotent_merge_witness :
  reachable empty_store /\
  parse_and_merge (parse_and_merge empty_store "abc123" ex_body) "abc123" ex_body
  = parse_and_merge empty_store "abc123" ex_body.
Proof.
  split; [apply reachable_empty|].
  exact (proj1 (C3_idempotent_merge empty_store "abc123" ex_body reachable_empty)).
Defined.

(** C4, at the failing input. The store knows [p]. The batch has [p]
    with the reply [r], then the new comment [q] with a reply of the same
    identifier. The round for [p] appends nothing, as it must; the round
    for [q] then looks its reply up in the flat batch by identifier alone
    and takes the first reply row found, which is the row of the reply of
    the skipped [p] (parent [p], text [under p]). That row ends up in the
    flat sequence. *)
Theorem C4_row_of_skipped_reply_appended :
  top_ids (item_nested store_p "abc123") = [JStr "p"] /\
  item_flat store_p "abc123" = [flat_row "p" "parent" "" false] /\
  item_flat (parse_and_merge store_p "abc123" body_p_q) "abc123"
  = [flat_row "p" "parent" "" false;
     flat_row "q" "other" "" false;
     flat_row "r" "under p" "p" true].
Proof. repeat split; vm_compute; reflexivity. Qed.

(** C5, at the failing input (the one of C4). The parsed flat batch has
    the rows [p], [r] under [p], [q], [r] under [q], in this order. The
    merge appends [q] and then [r] under [p]: two rows of the batch in the
    opposite of their order in the batch. *)
Theorem C5_flat_rows_out_of_batch_order :
  (parse_comment_response body_p_q "abc123").1.2
  = [flat_row "p" "parent" "" false; flat_row "r" "under p" "p" true;
     flat_row "q" "other" "" false; flat_row "r" "under q" "q" true] /\
  item_flat (parse_and_merge store_p "abc123" body_p_q) "abc123"
  = item_flat store_p "abc123"
    ++ [flat_row "q" "other" "" false; flat_row "r" "under p" "p" true] /\
  ~ [flat_row "q" "other" "" false; flat_row "r" "under p" "p" true]
      `sublist_of` (parse_comment_response body_p_q "abc123").1.2.
Proof.
  split; [vm_compute; reflexivity|]. split; [vm_compute; reflexivity|].
  replace ((parse_comment_response body_p_q "abc123").1.2)
    with [flat_row "p" "parent" "" false; flat_row "r" "under p" "p" true;
          flat_row "q" "other" "" false; flat_row "r" "under q" "q" true]
    by (vm_compute; reflexivity).
  intros H.
  apply sublist_cons_r in H as [H|(l & [=] & _)].
  apply sublist_cons_r in H as [H|(l & [=] & _)].
  apply sublist_cons_r in H as [H|(l & [= <-] & H)].
  - apply sublist_cons_r in H as [H|(l & [=] & _)].
    by apply sublist_nil_r in H.
  - apply sublist_cons_r in H as [H|(l & [=] & _)].
    by apply sublist_nil_r in H.
Qed.

(** C6, as stated, fails: a body that is a list has no success flag,
    and the parser returns two empty lists for it and the merge changes
    nothing; but the lists are empty because [response_data.get] raised,
    and the [except] clause reports the exception on the console. *)
Lemma C6_non_object_body_reported :
  unsuccessful (JArr []) /\
  parse_comment_response (JArr []) "abc123" = ([], [], Some AttributeError) /\
  parse_and_merge ex_store "abc123" (JArr []) = ex_store.
Proof. split; [exact I|]. split; reflexivity. Qed.

(** C6, amended. A body that the gate does not let through (its success
    flag is absent or false, or its status code is not zero, or it is no
    object at all) parses to two empty lists, and the merge that follows
    leaves the whole store, hence the state of the item, as it was. When
    the body is an object no exception is raised or printed; when it is
    not, the parser's [except] clause catches an [AttributeError] and
    prints it. *)
Theorem C6_unsuccessful_body_ignored st n response_data :
  unsuccessful response_data ->
  parse_comment_response response_data n
  = ([], [], match response_data with JObj _ => None | _ => Some AttributeError end) /\
  parse_and_merge st n response_data = st /\
  forall u, handle_comment_api_response st (Response u (Some response_data)) = st.
Proof.
  intros H.
  assert (forall n', exists caught,
            parse_comment_response response_data n' = ([], [], caught) /\
            caught = match response_data with
                     | JObj _ => None
                     | _ => Some AttributeError
                     end) as Hall.
  { intros n'. destruct response_data as [| | | | | |m]; try (by eexists).
    exists None. split; [|done]. simpl in H. unfold field in H.
    unfold parse_comment_response, gate_closed. simpl.
    destruct H as [H|H]; rewrite H; simpl; [done|].
    by destruct (truthy _). }
  destruct (Hall n) as (caught & Hp & ->). split; [done|]. split.
  - unfold parse_and_merge. by rewrite Hp.
  - intros u. unfold handle_comment_api_response. simpl.
    destruct (contains _ _); simpl; [|done].
    destruct (re_search_hex _ _) as [n'|]; [|done].
    unfold parse_and_merge. by destruct (Hall n') as (c' & -> & _).
Qed.

Lemma C6_unsuccessful_body_ignored_witness :
  unsuccessful (JObj [("success", JBool false)]) /\
  parse_comment_response (JObj [("success", JBool false)]) "abc123" = ([], [], None) /\
  parse_and_merge ex_store "abc123" (JObj [("success", JBool false)]) = ex_store.
Proof.
  assert (unsuccessful (JObj [("success", JBool false)])) as H by (left; reflexivity).
  split; [exact H|].
  destruct (C6_unsuccessful_body_ignored ex_store "abc123" _ H) as (H1 & H2 & _).
  split; [exact H1 | exact H2].
Defined.




(** C8, as stated, fails: a reachable store whose only item holds no
    record is a collection of item states, but the write returns early.
    It produces neither file, and a table left under the fixed name
    keeps its row, which is not the (empty) concatenation. *)
Lemma C8_no_file_without_records :
  reachable store_no_records /\
  all_comments_flat store_no_records = [("abc123", [])] /\
  (save_all_comments_to_file (fun _ => None) store_no_records ∅).1 !! codes ALL_CSV = None /\
  (save_all_comments_to_file (fun _ => None) store_no_records ∅).1 !! codes ALL_JSON = None /\
  (save_all_comments_to_file (fun _ => None) store_no_records dir_old_table).1
    !! codes ALL_CSV
  = Some (CsvFile CSV_FIELDNAMES [csv_row (flat_row "old" "left over" "" false)]).
Proof.
  split; [apply reachable_step, reachable_empty|]. repeat split; vm_compute; reflexivity.
Qed.

(** C8, amended. For every reachable store: when no item holds any
    record the aggregate write returns early, touches no file and raises
    nothing. When the store holds at least one flat record, both files can
    be opened and no string of a record holds a lone surrogate, the write
    raises nothing and leaves under the fixed name of the CSV file the
    fixed header of 8 columns and, as rows, the flat sequences of the
    items one after the other in the order in which the items got their
    entry; and under the fixed name of the JSON file the nested sequences
    of the items, concatenated in the same order. When a string of a
    nested record cannot be encoded, the write raises after it has begun
    the JSON file, which is left cut short, and the CSV file is not
    written. When the JSON file cannot be opened, the write raises and
    touches no file. When there are nested records but no flat record,
    only the JSON file is written. *)
Theorem C8_aggregate_files open_raises st dir :
  reachable st ->
  let items := map fst (all_comments_data st) in
  let all_nested := List.concat (map (item_nested st) items) in
  let all_flat := List.concat (map (item_flat st) items) in
  let result := save_all_comments_to_file open_raises st dir in
  (all_nested = [] -> all_flat = [] -> result = (dir, None)) /\
  (all_flat <> [] ->
   open_raises (codes ALL_JSON) = None -> open_raises (codes ALL_CSV) = None ->
   forallb comment_encodable all_nested = true ->
   forallb row_encodable all_flat = true ->
   result.2 = None /\
   result.1 !! codes ALL_CSV = Some (CsvFile CSV_FIELDNAMES (map csv_row all_flat)) /\
   result.1 !! codes ALL_JSON = Some (JsonFile all_nested)) /\
  (all_nested <> [] \/ all_flat <> [] ->
   open_raises (codes ALL_JSON) = None ->
   forallb comment_encodable all_nested = false ->
   result = (<[codes ALL_JSON := JsonCut all_nested]> dir, Some UnicodeEncodeError)) /\
  (forall e, all_nested <> [] \/ all_flat <> [] ->
   open_raises (codes ALL_JSON) = Some e -> result = (dir, Some e)) /\
  (all_nested <> [] -> all_flat = [] ->
   open_raises (codes ALL_JSON) = None ->
   forallb comment_encodable all_nested = true ->
   result = (<[codes ALL_JSON := JsonFile all_nested]> dir, None)) /\
  CSV_FIELDNAMES = ["content"; "like_count"; "ip_location"; "nickname";
                    "note_id"; "comment_id"; "parent_comment_id"; "is_sub_comment"] /\
  (forall fc, List.length (csv_row fc) = 8%nat).
Proof.
  intros [Hk Hnd]%reachable_same_keys. simpl.
  assert (List.concat (map (item_flat st) (map fst (all_comments_data st)))
          = extend_all (all_comments_flat st)) as ->.
  { rewrite Hk. symmetry. apply extend_all_items. by rewrite <- Hk. }
  assert (List.concat (map (item_nested st) (map fst (all_comments_data st)))
          = extend_all (all_comments_data st)) as ->.
  { symmetry. by apply extend_all_items. }
  assert (codes ALL_JSON <> codes ALL_CSV) as Hnames by (by vm_compute).
  assert (extend_all (all_comments_data st) <> [] \/ extend_all (all_comments_flat st) <> [] ->
          save_all_comments_to_file open_raises st dir
          = write_files open_raises (codes ALL_JSON) (codes ALL_CSV)
              (extend_all (all_comments_data st)) (extend_all (all_comments_flat st)) dir)
    as Hwrite.
  { unfold save_all_comments_to_file.
    destruct (all_comments_data st) as [|x l] eqn:Ed.
    - destruct (all_comments_flat st); [|discriminate Hk]. intros [H|H]; by destruct H.
    - rewrite <- Ed.
      destruct (extend_all (all_comments_data st)), (extend_all (all_comments_flat st));
        try done. intros [H|H]; by destruct H. }
  split; [|split; [|split; [|split; [|split; [|split; [done|done]]]]]].
  - intros En Ef. unfold save_all_comments_to_file. rewrite En, Ef.
    by destruct (all_comments_data st).
  - intros Hne Hj Hc Hen Hef. rewrite Hwrite by auto. unfold write_files.
    rewrite Hj, Hc, Hen, Hef. simpl.
    destruct (extend_all (all_comments_flat st)) as [|f fs] eqn:Ef; [done|]. simpl.
    repeat split; [by rewrite lookup_insert_eq
                  | by rewrite lookup_insert_ne, lookup_insert_eq].
  - intros Hne Hj Hen. rewrite Hwrite by done. unfold write_files.
    by rewrite Hj, Hen.
  - intros e Hne Hj. rewrite Hwrite by done. unfold write_files. by rewrite Hj.
  - intros Hne Ef Hj Hen. rewrite Hwrite by auto. unfold write_files.
    by rewrite Hj, Hen, Ef.
Qed.

Lemma C8_aggregate_files_witness :
  reachable store_two_items /\
  map (fun kv => List.length kv.2) (all_comments_flat store_two_items) = [3%nat; 2%nat] /\
  exists rows,
    (save_all_comments_to_file (fun _ => None) store_two_items ∅).1 !! codes ALL_CSV
    = Some (CsvFile CSV_FIELDNAMES rows) /\
    List.length rows = 5%nat /\
    map (fun row => row !! 5%nat) rows
    = [Some (JStr "c1"); Some (JStr "c1a"); Some (JStr "c1b");
       Some (JStr "d1"); Some (JStr "d1a")].
Proof.
  assert (reachable store_two_items) as H
    by (apply reachable_step, reachable_step, reachable_empty).
  split; [exact H|]. split; [reflexivity|].
  eexists. split.
  - refine (proj1 (proj2 (proj1 (proj2
      (C8_aggregate_files (fun _ => None) store_two_items ∅ H)) _ _ _ _ _)));
      try reflexivity. vm_compute. discriminate.
  - split; reflexivity.
Defined.

(** C9. Handling a response that qualifies for item [n] leaves the entry
    of every other item [m] in both dicts exactly as it was: the same
    nested sequence and the same flat sequence (or no entry, as before). *)
Theorem C9_other_items_untouched st r n m :
  contains COMMENT_API_PATTERN (url r) = true ->
  re_search_hex "note_id=" (url r) = Some n ->
  m <> n ->
  dict_lookup m (all_comments_data (handle_comment_api_response st r))
    = dict_lookup m (all_comments_data st) /\
  dict_lookup m (all_comments_flat (handle_comment_api_response st r))
    = dict_lookup m (all_comments_flat st) /\
  item_nested (handle_comment_api_response st r) m = item_nested st m /\
  item_flat (handle_comment_api_response st r) m = item_flat st m.
Proof.
  intros Hc Hn Hne. unfold handle_comment_api_response, item_nested, item_flat.
  rewrite Hc, Hn. simpl.
  destruct (body r) as [b|]; [|done].
  destruct (parse_and_merge_frame st n b m Hne) as [-> ->]. done.
Qed.

Lemma C9_other_items_untouched_witness :
  contains COMMENT_API_PATTERN (url ex_response) = true /\
  re_search_hex "note_id=" (url ex_response) = Some "abc123" /\
  "ffff" <> "abc123" /\
  item_flat (handle_comment_api_response store_p ex_response) "ffff"
  = item_flat store_p "ffff".
Proof.
  assert (contains COMMENT_API_PATTERN (url ex_response) = true) as H1 by reflexivity.
  assert (re_search_hex "note_id=" (url ex_response) = Some "abc123") as H2 by reflexivity.
  assert ("ffff" <> "abc123") as H3 by discriminate.
  split; [exact H1|]. split; [exact H2|]. split; [exact H3|].
  exact (proj2 (proj2 (proj2 (C9_other_items_untouched store_p ex_response _ _ H1 H2 H3)))).
Defined.

(** C10. The identifier taken from a URL is defined for every URL (the
    three cases below leave none out, and the function has one value):
    it is the run of lowercase hexadecimal characters after the first
    [/explore/] that is followed by one, whatever else the URL holds, a
    [note_id=] parameter included; without such a segment it is the run
    after the first [note_id=] followed by one; without either it is the
    empty string. *)
Theorem C10_extract_note_id url :
  (forall g, first_run "/explore/" url g -> extract_note_id_from_url url = g) /\
  (forall g, no_run "/explore/" url -> first_run "note_id=" url g ->
     extract_note_id_from_url url = g) /\
  (no_run "/explore/" url -> no_run "note_id=" url ->
     extract_note_id_from_url url = EmptyString) /\
  ((exists g, first_run "/explore/" url g) \/
   (no_run "/explore/" url /\ exists g, first_run "note_id=" url g) \/
   (no_run "/explore/" url /\ no_run "note_id=" url)).
Proof.
  unfold extract_note_id_from_url. repeat split.
  - intros g H. by rewrite (first_run_search _ _ _ H).
  - intros g H1 H2. by rewrite (no_run_search _ _ H1), (first_run_search _ _ _ H2).
  - intros H1 H2. by rewrite (no_run_search _ _ H1), (no_run_search _ _ H2).
  - destruct (re_search_hex "/explore/" url) as [g|] eqn:E1.
    { left. exists g. by apply re_search_hex_some. }
    right. apply re_search_hex_none in E1.
    destruct (re_search_hex "note_id=" url) as [g|] eqn:E2.
    + left. split; [done|]. exists g. by apply re_search_hex_some.
    + right. split; [done|]. by apply re_search_hex_none.
Qed.

Lemma C10_extract_note_id_witness :
  first_run "/explore/" "https://www.xiaohongshu.com/explore/64ab12ff?note_id=99" "64ab12ff" /\
  extract_note_id_from_url "https://www.xiaohongshu.com/explore/64ab12ff?note_id=99"
  = "64ab12ff".
Proof.
  assert (first_run "/explore/"
            "https://www.xiaohongshu.com/explore/64ab12ff?note_id=99" "64ab12ff") as H
    by (apply re_search_hex_some; reflexivity).
  split; [exact H|]. exact (proj1 (C10_extract_note_id _) _ H).
Defined.

(** ** Further properties: the parser *)

Lemma parse_comments_well_formed n cs nested flat :
  forallb well_formed_comment cs = true ->
  parse_comments n cs nested flat
  = (nested ++ map comment_of cs, flat ++ all_rows n (map comment_of cs), None).
Proof.
  revert nested flat. induction cs as [|j cs IH]; simpl; intros nested flat H.
  - by rewrite !app_nil_r.
  - apply andb_true_iff in H as [Hj Hcs]. destruct j as [| | | | | |m]; try done.
    simpl in Hj. apply andb_true_iff in Hj as [Hu Hs].
    rewrite (entry_fields_ok m Hu).
    assert (py_get (JObj m) "sub_comments" (JArr []) ≫= (fun sc => py_iter sc)
            = Ok (replies_of m)
            /\ forallb well_formed_reply (replies_of m) = true) as [-> Hr].
    { unfold replies_of. simpl.
      destruct (dict_lookup "sub_comments" m) as [[]|]; simpl; done. }
    rewrite (parse_sub_comments_well_formed _ _ _ _ _ Hr), (IH _ _ Hcs). simpl.
    change (comment_of (JObj m) :: map comment_of cs)
      with ([comment_of (JObj m)] ++ map comment_of cs).
    rewrite all_rows_app, all_rows_one, <- !app_assoc. done.
Qed.

Lemma parse_comments_exact n cs nested flat nested' flat' :
  parse_comments n cs nested flat = (nested', flat', None) ->
  exists new, nested' = nested ++ new /\ flat' = flat ++ all_rows n new.
Proof.
  revert nested flat. induction cs as [|c r IH]; simpl; intros nested flat H.
  - inversion H; subst. exists []. by rewrite !app_nil_r.
  - destruct (entry_fields c) as [[[[[ct lk] ip] nk] id]|e']; [|done].
    destruct (py_get c "sub_comments" (JArr []) ≫= _) as [subs|e']; [|done].
    destruct (parse_sub_comments n id subs [] _) as [[scs flat2] e2] eqn:Es.
    apply parse_sub_comments_sub_rows in Es as (new & -> & ->). simpl in *.
    destruct e2; [done|].
    apply IH in H as (more & -> & ->).
    exists (Comment ct lk ip nk id new :: more).
    rewrite <- ?app_assoc. split; [done|].
    change (Comment ct lk ip nk id new :: more) with ([Comment ct lk ip nk id new] ++ more).
    by rewrite all_rows_app, all_rows_one, <- ?app_assoc.
Qed.

Lemma length_all_rows n cs :
  List.length (all_rows n cs) = (List.length cs + List.length (all_reply_ids cs))%nat.
Proof.
  induction cs as [|c r IH]; [done|].
  change (c :: r) with ([c] ++ r).
  rewrite all_rows_app, all_reply_ids_app, !length_app, IH, all_rows_one.
  unfold all_reply_ids, reply_ids, rows_of. simpl.
  rewrite app_nil_r, !length_map. lia.
Qed.

(** X1. The flat list the parser returns starts with the rows of the
    nested records it returns: for each record, in order, the row of the
    comment (no parent, not a reply) and then one row per reply (parent:
    the identifier of the comment), all with the same fields and with the
    item identifier given. When the parser caught no exception there is
    nothing else in the flat list, so it has one row per nested record
    plus one per reply. *)
Theorem X1_flat_rows_of_nested_records response_data n :
  let '(nested, flat, e) := parse_comment_response response_data n in
  (exists extra, flat = all_rows n nested ++ extra) /\
  (e = None ->
     flat = all_rows n nested /\
     List.length flat = (List.length nested + List.length (all_reply_ids nested))%nat).
Proof.
  destruct (parse_comment_response response_data n) as [[ns fs] e] eqn:Ep.
  split; [by apply parse_comment_response_all_rows in Ep|].
  intros ->. assert (fs = all_rows n ns) as ->; [|by rewrite length_all_rows].
  unfold parse_comment_response in Ep.
  destruct (gate_closed response_data) as [[]|]; try by inversion Ep.
  destruct (py_get response_data "data" (JObj []) ≫= _) as [cs|]; [|done].
  by apply parse_comments_exact in Ep as (new & -> & ->).
Qed.

(** X2. On a body that passes the gate and whose comment entries are all
    well formed (objects, with an author object that is absent or an
    object, and replies that are absent or a list of such objects), the
    parser catches no exception and returns one nested record per entry,
    in the order of the entries, each with its replies in their order and
    with every field read with its default; the flat list holds exactly
    their rows. *)
Theorem X2_parse_well_formed_body m d cs n :
  truthy (field m "success" JNull) = true ->
  py_eq_key (field m "code" JNull) (KNum 0) = true ->
  dict_lookup "data" m = Some (JObj d) ->
  dict_lookup "comments" d = Some (JArr cs) ->
  forallb well_formed_comment cs = true ->
  parse_comment_response (JObj m) n
  = (map comment_of cs, all_rows n (map comment_of cs), None).
Proof.
  intros Hs Hc Hd Hcs Hwf. unfold field in Hs, Hc.
  unfold parse_comment_response, gate_closed. simpl. rewrite Hs, Hc, Hd. simpl.
  rewrite Hcs. simpl. by rewrite parse_comments_well_formed.
Qed.

Lemma X2_parse_well_formed_body_witness :
  forallb well_formed_comment
    [comment_entry "c1" "hi" [reply_entry "c1a" "reply"]] = true /\
  parse_comment_response ex_body "abc123"
  = (map comment_of [comment_entry "c1" "hi" [reply_entry "c1a" "reply"]],
     all_rows "abc123" (map comment_of [comment_entry "c1" "hi" [reply_entry "c1a" "reply"]]),
     None).
Proof.
  split; [reflexivity|].
  exact (X2_parse_well_formed_body
           [("success", JBool true); ("code", JNum 0);
            ("data", JObj [("comments",
                            JArr [comment_entry "c1" "hi" [reply_entry "c1a" "reply"]])])]
           [("comments", JArr [comment_entry "c1" "hi" [reply_entry "c1a" "reply"]])]
           [comment_entry "c1" "hi" [reply_entry "c1a" "reply"]] "abc123"
           eq_refl eq_refl eq_refl eq_refl eq_refl).
Defined.

(** ** Further properties: the merger *)

Lemma filter_new_top_hashable old_nested old_flat nested flat ms :
  filter_new old_nested old_flat nested flat = Ok ms ->
  Forall (fun c => hashable (comment_id c)) nested.
Proof.
  unfold filter_new. intros H.
  apply bind_ok in H as (nids & _ & H). apply bind_ok in H as (fids & _ & H).
  apply merge_loop_nested in H as (acc & _ & _ & _ & _ & _ & _ & Hall).
  eapply Forall_impl; [exact Hall|]. intros c (k & Hk & _). by exists k.
Qed.

(** X3. A parsed batch in which some top-level comment has an identifier
    that cannot be hashed (a list or an object) is dropped whole: the
    membership test raises, the handler catches the exception, and the
    sequences of the item stay as they were, also for the records of the
    batch that are in order. The two keys were initialised before the
    exception: an item that had no entry has one afterwards, with two
    empty lists, and nothing else in the store has changed. *)
Theorem X3_unhashable_identifier_drops_batch st n response_body c :
  c ∈ (parse_comment_response response_body n).1.1 ->
  key_of (comment_id c) = None ->
  parse_and_merge st n response_body
  = Store (dict_init n (all_comments_data st)) (dict_init n (all_comments_flat st)) /\
  item_nested (parse_and_merge st n response_body) n = item_nested st n /\
  item_flat (parse_and_merge st n response_body) n = item_flat st n /\
  (n ∈ map fst (all_comments_data st) -> n ∈ map fst (all_comments_flat st) ->
   parse_and_merge st n response_body = st).
Proof.
  unfold parse_and_merge.
  destruct (parse_comment_response response_body n) as [[ns fs] e]. simpl.
  intros Hc Hk.
  assert (merge_batch st n ns fs
          = Store (dict_init n (all_comments_data st)) (dict_init n (all_comments_flat st)))
    as E.
  { rewrite merge_batch_unfold.
    destruct (filter_new (item_nested st n) (item_flat st n) ns fs) as [ms|] eqn:Hf.
    - apply filter_new_top_hashable in Hf.
      rewrite Forall_forall in Hf. destruct (Hf c Hc) as [k Hk']. congruence.
    - destruct ns; [by apply elem_of_nil in Hc | done]. }
  rewrite E. split; [done|]. rewrite item_nested_init, item_flat_init.
  split; [done|]. split; [done|]. intros Hd Hf. destruct st as [data flat]. simpl in *.
  f_equal; unfold dict_init.
  - destruct (dict_lookup n data) eqn:El; [done|]. by apply dict_lookup_None in El.
  - destruct (dict_lookup n flat) eqn:El; [done|]. by apply dict_lookup_None in El.
Qed.

Lemma X3_unhashable_identifier_drops_batch_witness :
  (exists c, c ∈ (parse_comment_response body_list_id "abc123").1.1 /\
             key_of (comment_id c) = None) /\
  item_nested (parse_and_merge store_p "abc123" body_list_id) "abc123"
  = item_nested store_p "abc123" /\
  all_comments_data (parse_and_merge empty_store "abc123" body_list_id) = [("abc123", [])].
Proof.
  assert (Comment (JStr "odd") (JStr "0") (JStr "") (JStr "") (JArr [JNum 1]) []
          ∈ (parse_comment_response body_list_id "abc123").1.1) as Hin
    by (vm_compute; right; left).
  split; [eexists; split; [exact Hin | reflexivity]|].
  split.
  - exact (proj1 (proj2 (X3_unhashable_identifier_drops_batch store_p "abc123" body_list_id _
                           Hin eq_refl))).
  - rewrite (proj1 (X3_unhashable_identifier_drops_batch empty_store "abc123" body_list_id _
                      Hin eq_refl)). reflexivity.
Defined.

(** *** Dicts that grow *)

Lemma dict_grows_refl {V : Type} (d : list (string * list V)) : dict_grows d d.
Proof.
  induction d as [|[k v] d IH]; [constructor|].
  rewrite <- (app_nil_r v) at 2. by constructor.
Qed.

Lemma dict_grows_trans {V : Type} (d1 d2 d3 : list (string * list V)) :
  dict_grows d1 d2 -> dict_grows d2 d3 -> dict_grows d1 d3.
Proof.
  intros H. revert d3. induction H as [|k v more d d' _ IH]; intros d3 H3.
  - constructor.
  - inversion H3 as [|k' v' more' d0 d3' H3']; subst.
    rewrite <- app_assoc. constructor. by apply IH.
Qed.

Lemma dict_grows_app {V : Type} (d new : list (string * list V)) : dict_grows d (d ++ new).
Proof.
  induction d as [|[k v] d IH]; simpl; [constructor|].
  rewrite <- (app_nil_r v) at 2. by constructor.
Qed.

Lemma dict_grows_init {V : Type} k (d : list (string * list V)) : dict_grows d (dict_init k d).
Proof.
  unfold dict_init. destruct (dict_lookup k d); [apply dict_grows_refl | apply dict_grows_app].
Qed.

Lemma dict_grows_extend {V : Type} k new (d : list (string * list V)) :
  dict_grows d (dict_extend k new d).
Proof.
  induction d as [|[k' v] d IH]; simpl; [constructor|].
  destruct (String.eqb k k').
  - constructor. apply dict_grows_refl.
  - rewrite <- (app_nil_r v) at 2. by constructor.
Qed.

Lemma dict_grows_lookup {V : Type} (d d' : list (string * list V)) k :
  dict_grows d d' ->
  default [] (dict_lookup k d) `prefix_of` default [] (dict_lookup k d').
Proof.
  induction 1 as [|k0 v more d d' _ IH]; simpl.
  - apply prefix_nil.
  - destruct (String.eqb k k0); simpl; [by apply prefix_app_r | done].
Qed.

Lemma dict_grows_keys {V : Type} (d d' : list (string * list V)) :
  dict_grows d d' -> map fst d `prefix_of` map fst d'.
Proof.
  induction 1 as [|k0 v more d d' _ IH]; simpl; [apply prefix_nil|].
  by apply prefix_cons.
Qed.

Lemma dict_grows_extend_all {V : Type} (d d' : list (string * list V)) :
  dict_grows d d' -> extend_all d `sublist_of` extend_all d'.
Proof.
  unfold extend_all. induction 1 as [|k0 v more d d' _ IH]; simpl.
  - apply sublist_nil_l.
  - apply sublist_app; [|done]. by apply sublist_inserts_r.
Qed.

Lemma merge_batch_grows st n ns fs :
  dict_grows (all_comments_data st) (all_comments_data (merge_batch st n ns fs)) /\
  dict_grows (all_comments_flat st) (all_comments_flat (merge_batch st n ns fs)).
Proof.
  destruct (merge_batch_cases st n ns fs) as [->|[[-> _]|(ms & _ & _ & ->)]]; simpl.
  - split; apply dict_grows_refl.
  - split; apply dict_grows_init.
  - split; (eapply dict_grows_trans; [apply dict_grows_init | apply dict_grows_extend]).
Qed.

Lemma steps_grows st st' :
  steps st st' ->
  dict_grows (all_comments_data st) (all_comments_data st') /\
  dict_grows (all_comments_flat st) (all_comments_flat st').
Proof.
  induction 1 as [st|st st' n b _ [IH1 IH2]].
  - split; apply dict_grows_refl.
  - unfold parse_and_merge. destruct (parse_comment_response b n) as [[ns fs] e].
    destruct (merge_batch_grows st' n ns fs).
    split; eapply dict_grows_trans; eauto.
Qed.

Lemma steps_reachable st st' : reachable st -> steps st st' -> reachable st'.
Proof. intros H. induction 1; [done | by constructor; auto]. Qed.

(** X4. Whatever bodies are merged later, for whatever items, what an
    item holds stays and stays in place: its nested and its flat sequence
    only grow at the end (no record is changed, moved or removed), and the
    items keep the order in which they got their entries, new ones coming
    last. *)
Theorem X4_append_only st st' n :
  steps st st' ->
  item_nested st n `prefix_of` item_nested st' n /\
  item_flat st n `prefix_of` item_flat st' n /\
  map fst (all_comments_data st) `prefix_of` map fst (all_comments_data st') /\
  map fst (all_comments_flat st) `prefix_of` map fst (all_comments_flat st').
Proof.
  intros [H1 H2]%steps_grows. unfold item_nested, item_flat.
  auto using dict_grows_lookup, dict_grows_keys.
Qed.

Lemma X4_append_only_witness :
  steps store_p (parse_and_merge (parse_and_merge store_p "def456" body_two) "abc123" body_p_q) /\
  item_flat store_p "abc123"
    `prefix_of` item_flat (parse_and_merge (parse_and_merge store_p "def456" body_two)
                             "abc123" body_p_q) "abc123".
Proof.
  assert (steps store_p
            (parse_and_merge (parse_and_merge store_p "def456" body_two) "abc123" body_p_q))
    as H by (do 2 apply steps_step; apply steps_refl).
  split; [exact H|]. exact (proj1 (proj2 (X4_append_only _ _ "abc123" H))).
Defined.

(** *** Counting rows *)

Lemma length_key_list ids : Forall hashable ids -> List.length (key_list ids) = List.length ids.
Proof.
  induction 1 as [|v l [k Hk] _ IH]; [done|].
  unfold key_list in *. simpl. rewrite Hk. simpl. by f_equal.
Qed.

(** X5. In every reachable state the flat sequence of an item has as
    many rows as the item has different identifiers other than NaN: one
    row for each such identifier found in its nested sequence, top level
    or reply, however often the nested sequence repeats it, and no row for
    the float NaN. Without NaN among the identifiers the rows are as many
    as the different identifiers. *)
Theorem X5_one_row_per_identifier st n :
  reachable st ->
  List.length (item_flat st n)
  = size (key_set (nested_ids (item_nested st n)) ∖ {[KNan]}) /\
  (Forall (fun v => v <> JFloat S754_nan) (nested_ids (item_nested st n)) ->
   List.length (item_flat st n) = size (key_set (nested_ids (item_nested st n)))).
Proof.
  intros H. destruct (reachable_consistent st H n) as [_ Hf Heq _ Hnd].
  assert (List.length (item_flat st n)
          = size (key_set (nested_ids (item_nested st n)) ∖ {[KNan]})) as E.
  { rewrite <- Heq. unfold key_set. rewrite size_list_to_set by done.
    rewrite length_key_list by done. unfold flat_ids. by rewrite length_map. }
  split; [done|]. intros Hnan%no_nan_key_set. rewrite E. f_equal. set_solver.
Qed.

Lemma X5_one_row_per_identifier_witness :
  reachable (parse_and_merge store_nan "abc123" body_dup) /\
  List.length (item_flat (parse_and_merge store_nan "abc123" body_dup) "abc123") = 2%nat /\
  size (key_set (nested_ids
          (item_nested (parse_and_merge store_nan "abc123" body_dup) "abc123")) ∖ {[KNan]})
  = 2%nat.
Proof.
  assert (reachable (parse_and_merge store_nan "abc123" body_dup)) as H
    by (apply reachable_step, reachable_step, reachable_empty).
  split; [exact H|]. split; [reflexivity|].
  rewrite <- (proj1 (X5_one_row_per_identifier _ "abc123" H)). reflexivity.
Defined.

(** *** Rows and their item *)

Lemma parse_sub_comments_note_id n pid subs acc flat acc' flat' e :
  parse_sub_comments n pid subs acc flat = (acc', flat', e) ->
  Forall (fun f => fc_note_id f = n) flat -> Forall (fun f => fc_note_id f = n) flat'.
Proof.
  revert acc flat. induction subs as [|s r IH]; simpl; intros acc flat H Hall.
  - by inversion H; subst.
  - destruct (entry_fields s) as [[[[[ct lk] ip] nk] id]|e']; [|by inversion H; subst].
    apply (IH _ _ H). apply Forall_app. split; [done|]. by constructor.
Qed.

Lemma parse_comments_note_id n cs nested flat nested' flat' e :
  parse_comments n cs nested flat = (nested', flat', e) ->
  Forall (fun f => fc_note_id f = n) flat -> Forall (fun f => fc_note_id f = n) flat'.
Proof.
  revert nested flat. induction cs as [|c r IH]; simpl; intros nested flat H Hall.
  - by inversion H; subst.
  - destruct (entry_fields c) as [[[[[ct lk] ip] nk] id]|e']; [|by inversion H; subst].
    assert (Forall (fun f => fc_note_id f = n)
              (flat ++ [FlatComment ct lk ip nk n id (JStr "") false])) as Hall1
      by (apply Forall_app; split; [done | by constructor]).
    destruct (py_get c "sub_comments" (JArr []) ≫= _) as [subs|e'];
      [|by inversion H; subst].
    destruct (parse_sub_comments n id subs [] _) as [[scs flat2] e2] eqn:Es.
    apply parse_sub_comments_note_id in Es; [|done].
    destruct e2; [by inversion H; subst|]. by apply (IH _ _ H).
Qed.

Lemma parse_comment_response_note_id response_data n :
  Forall (fun f => fc_note_id f = n) (parse_comment_response response_data n).1.2.
Proof.
  unfold parse_comment_response.
  destruct (gate_closed response_data) as [[]|]; try by constructor.
  destruct (py_get response_data "data" (JObj []) ≫= _) as [cs|]; [|by constructor].
  destruct (parse_comments n cs [] []) as [[ns fs] e] eqn:E.
  by apply parse_comments_note_id in E.
Qed.

Section rows_from_batch.
Variable flat_comments : list flat_comment.

Lemma accept_flat_from_batch k sub ms ms' f :
  accept_flat (flat_for flat_comments k sub) ms = Ok ms' ->
  f ∈ new_flat_comments ms' -> f ∈ new_flat_comments ms \/ f ∈ flat_comments.
Proof.
  intros [->|(fc & k' & Hfound & _ & _ & ->)]%accept_flat_inv; [by left|].
  simpl. intros [?|Hf]%elem_of_app; [by left|].
  apply list_elem_of_singleton in Hf as ->.
  right. by apply flat_for_some in Hfound as (_ & _ & ?).
Qed.

Lemma merge_subs_from_batch subs ms ms' f :
  merge_subs flat_comments subs ms = Ok ms' ->
  f ∈ new_flat_comments ms' -> f ∈ new_flat_comments ms \/ f ∈ flat_comments.
Proof.
  revert ms. induction subs as [|sc r IH]; simpl; intros ms H Hf.
  - inversion H; subst. by left.
  - apply bind_ok in H as (k & _ & H).
    destruct (decide (k ∈ existing_nested_ids ms)); [by apply (IH _ H)|].
    apply bind_ok in H as (ms1 & H1 & H).
    destruct (IH _ H Hf) as [Hf1|]; [|by right].
    by apply (accept_flat_from_batch _ _ _ _ _ H1) in Hf1.
Qed.

Lemma merge_loop_from_batch cs ms ms' f :
  merge_loop flat_comments cs ms = Ok ms' ->
  f ∈ new_flat_comments ms' -> f ∈ new_flat_comments ms \/ f ∈ flat_comments.
Proof.
  revert ms. induction cs as [|c r IH]; simpl; intros ms H Hf.
  - inversion H; subst. by left.
  - apply bind_ok in H as (ms1 & H1 & H).
    destruct (IH _ H Hf) as [Hf1|]; [|by right].
    apply merge_one_inv in H1 as (k & _ & [[_ ->]|(_ & ms0 & H0 & H2)]); [by left|].
    destruct (merge_subs_from_batch _ _ _ _ H2 Hf1) as [Hf0|]; [|by right].
    by apply (accept_flat_from_batch _ _ _ _ _ H0) in Hf0.
Qed.
End rows_from_batch.

Lemma filter_new_from_batch old_nested old_flat nested flat ms :
  filter_new old_nested old_flat nested flat = Ok ms ->
  new_flat_comments ms ⊆ flat.
Proof.
  unfold filter_new. intros H f Hf.
  apply bind_ok in H as (nids & _ & H). apply bind_ok in H as (fids & _ & H).
  destruct (merge_loop_from_batch _ _ _ _ _ H Hf) as [Hnil|]; [|done].
  by apply elem_of_nil in Hnil.
Qed.

(** X6. In every reachable state each flat row kept for an item carries
    the identifier of that item in its own item field: a row is never
    filed under another item than the one it names. *)
Theorem X6_rows_name_their_item st n :
  reachable st -> Forall (fun f => fc_note_id f = n) (item_flat st n).
Proof.
  induction 1 as [|st n0 b _ IH]; [constructor|].
  destruct (decide (n = n0)) as [->|Hne].
  - unfold parse_and_merge.
    pose proof (parse_comment_response_note_id b n0) as Hrows.
    destruct (parse_comment_response b n0) as [[ns fs] e]. simpl in Hrows.
    destruct (merge_batch_item st n0 ns fs) as [[_ ->]|(ms & Hf & _ & ->)]; [done|].
    apply Forall_app. split; [done|].
    apply filter_new_from_batch in Hf. rewrite Forall_forall in Hrows |- *. auto.
  - unfold item_flat in *. by destruct (parse_and_merge_frame st n0 b n Hne) as [_ ->].
Qed.

Lemma X6_rows_name_their_item_witness :
  reachable store_two_items /\
  Forall (fun f => fc_note_id f = "def456") (item_flat store_two_items "def456").
Proof.
  assert (reachable store_two_items) as H
    by (apply reachable_step, reachable_step, reachable_empty).
  split; [exact H|]. exact (X6_rows_name_their_item _ "def456" H).
Defined.

(** *** Nothing hashable is lost at the top level *)

Lemma accept_flat_flat_for_ok flat k sub ms :
  exists ms', accept_flat (flat_for flat k sub) ms = Ok ms'.
Proof.
  destruct (flat_for flat k sub) as [fc|] eqn:E; simpl; [|eauto].
  apply flat_for_some in E as (Hk & _ & _).
  rewrite (proj2 (py_hash_key_of _ _) Hk). simpl.
  destruct (decide (k ∈ existing_flat_ids ms)); eauto.
Qed.

Lemma merge_subs_ok flat subs ms :
  Forall hashable (map sc_comment_id subs) ->
  exists ms', merge_subs flat subs ms = Ok ms'.
Proof.
  revert ms. induction subs as [|sc r IH]; simpl; intros ms H; [eauto|].
  inversion H as [|? ? [k Hk] Hr]; subst.
  rewrite (proj2 (py_hash_key_of _ _) Hk). simpl.
  destruct (decide (k ∈ existing_nested_ids ms)); [by apply IH|].
  destruct (accept_flat_flat_for_ok flat k true
              (MergeState (new_nested_comments ms) (new_flat_comments ms)
                          ({[k]} ∪ existing_nested_ids ms) (existing_flat_ids ms)))
    as [ms1 ->].
  simpl. by apply IH.
Qed.

Lemma merge_loop_ok flat cs ms :
  Forall hashable (nested_ids cs) ->
  exists ms', merge_loop flat cs ms = Ok ms'.
Proof.
  revert ms. induction cs as [|c r IH]; simpl; intros ms H; [eauto|].
  rewrite nested_ids_cons in H. inversion H as [|? ? [k Hk] Hr]; subst.
  apply Forall_app in Hr as [Hsub Hr].
  assert (exists ms1, merge_one flat c ms = Ok ms1) as [ms1 ->].
  { unfold merge_one. rewrite (proj2 (py_hash_key_of _ _) Hk). simpl.
    destruct (decide (k ∈ existing_nested_ids ms)); [eauto|].
    destruct (accept_flat_flat_for_ok flat k false
                (MergeState (new_nested_comments ms ++ [c]) (new_flat_comments ms)
                            ({[k]} ∪ existing_nested_ids ms) (existing_flat_ids ms)))
      as [ms0 ->].
    simpl. by apply merge_subs_ok. }
  simpl. by apply IH.
Qed.

Lemma filter_new_ok old_nested old_flat nested flat :
  Forall hashable (nested_ids old_nested) -> Forall hashable (flat_ids old_flat) ->
  Forall hashable (nested_ids nested) ->
  exists ms, filter_new old_nested old_flat nested flat = Ok ms.
Proof.
  intros Hn Hf Hb. unfold filter_new.
  rewrite (add_nested_ids_hashable _ _ Hn). simpl.
  rewrite (add_flat_ids_hashable _ _ Hf). simpl.
  by apply merge_loop_ok.
Qed.

Lemma filter_new_top_known old_nested old_flat nested flat ms :
  filter_new old_nested old_flat nested flat = Ok ms ->
  Forall (fun c => exists k, key_of (comment_id c) = Some k /\
                             k ∈ key_set (nested_ids (old_nested ++ new_nested_comments ms)))
         nested.
Proof.
  unfold filter_new. intros H.
  apply bind_ok in H as (nids & Hnids & H). apply bind_ok in H as (fids & _ & H).
  apply add_nested_ids_ok in Hnids as [-> _].
  apply merge_loop_nested in H as (acc & En & _ & Es & _ & _ & _ & Hall).
  simpl in En. subst acc.
  eapply Forall_impl; [exact Hall|]. simpl. intros c (k & Hk & Hin).
  exists k. split; [done|]. rewrite Es in Hin.
  rewrite nested_ids_app, key_set_app. set_solver.
Qed.

Lemma merge_batch_item_ok st n ns fs ms :
  filter_new (item_nested st n) (item_flat st n) ns fs = Ok ms ->
  ns = [] \/
  item_nested (merge_batch st n ns fs) n = item_nested st n ++ new_nested_comments ms.
Proof.
  intros Hf. destruct ns as [|c ns]; [by left|]. right.
  rewrite merge_batch_unfold, Hf.
  destruct (new_nested_comments ms) eqn:En.
  - rewrite app_nil_r. by destruct fs; rewrite item_nested_init.
  - rewrite <- En. by destruct fs; rewrite item_nested_extend.
Qed.

(** X7. When every identifier in the parsed nested batch can be hashed,
    the merge into a reachable state loses no top-level comment: after it,
    the identifier of each top-level comment of the batch is among the
    identifiers of the nested sequence of the item (it was there before, as
    a comment or as a reply, or its record has just been appended). *)
Theorem X7_top_level_known_after_merge st n response_body c :
  reachable st ->
  Forall hashable (nested_ids (parse_comment_response response_body n).1.1) ->
  c ∈ (parse_comment_response response_body n).1.1 ->
  exists k, key_of (comment_id c) = Some k /\
            k ∈ key_set (nested_ids (item_nested (parse_and_merge st n response_body) n)).
Proof.
  intros Hr. unfold parse_and_merge.
  destruct (parse_comment_response response_body n) as [[ns fs] e]. simpl.
  intros Hh Hc. destruct (reachable_consistent st Hr n) as [Hn Hf _ _ _].
  destruct (filter_new_ok _ _ ns fs Hn Hf Hh) as [ms Hms].
  destruct (merge_batch_item_ok st n ns fs ms Hms) as [->| ->];
    [by apply elem_of_nil in Hc|].
  apply filter_new_top_known in Hms. rewrite Forall_forall in Hms. auto.
Qed.

Lemma X7_top_level_known_after_merge_witness :
  reachable store_p /\
  exists k, key_of (JStr "q") = Some k /\
            k ∈ key_set (nested_ids (item_nested (parse_and_merge store_p "abc123" body_p_q)
                                                 "abc123")).
Proof.
  assert (reachable store_p) as H by (apply reachable_step, reachable_empty).
  split; [exact H|].
  refine (X7_top_level_known_after_merge store_p "abc123" body_p_q
            (Comment (JStr "other") (JStr "0") (JStr "") (JStr "") (JStr "q")
               [SubComment (JStr "under q") (JStr "0") (JStr "") (JStr "") (JStr "r")])
            H _ _).
  - vm_compute. repeat constructor; eexists; reflexivity.
  - vm_compute. right. left.
Defined.

(** *** The items the handler creates *)

Lemma re_search_hex_hex p s g :
  re_search_hex p s = Some g -> g <> EmptyString /\ all_hex g = true.
Proof. intros (pre & (rest & _ & ? & ? & _) & _)%re_search_hex_some. done. Qed.

Lemma merge_batch_keys st n ns fs k :
  k ∈ map fst (all_comments_data (merge_batch st n ns fs)) ->
  k ∈ map fst (all_comments_data st) \/ k = n.
Proof.
  destruct (merge_batch_cases st n ns fs) as [->|[[-> _]|(ms & _ & _ & ->)]]; simpl;
    rewrite ?dict_keys_extend, ?dict_init_keys; [by left| |];
    (case_bool_decide; [by left|]);
    intros [?|Hin]%elem_of_app; auto;
    apply list_elem_of_singleton in Hin as ->; auto.
Qed.

Lemma served_reachable st : served st -> reachable st.
Proof.
  induction 1 as [|st r _ IH]; [constructor|].
  unfold handle_comment_api_response.
  destruct (negb _); [done|]. destruct (re_search_hex _ _); [|done].
  destruct (body r); [by constructor | done].
Qed.

Lemma served_keys_hex st :
  served st ->
  Forall (fun k => k <> EmptyString /\ all_hex k = true) (map fst (all_comments_data st)).
Proof.
  induction 1 as [|st r _ IH]; [constructor|].
  unfold handle_comment_api_response.
  destruct (negb _); [done|].
  destruct (re_search_hex "note_id=" (url r)) as [n|] eqn:En; [|done].
  destruct (body r) as [b|]; [|done].
  apply re_search_hex_hex in En. unfold parse_and_merge.
  destruct (parse_comment_response b n) as [[ns fs] e].
  rewrite Forall_forall in IH |- *. intros k Hin.
  apply merge_batch_keys in Hin as [?| ->]; auto.
Qed.

(** X8. Whatever responses the handler is given, it creates entries only
    under identifiers that are non-empty runs of lowercase hexadecimal
    characters, and both dicts hold the same identifiers in the same
    order, each once. *)
Theorem X8_items_have_hex_identifiers st :
  served st ->
  Forall (fun k => k <> EmptyString /\ all_hex k = true) (map fst (all_comments_data st)) /\
  map fst (all_comments_flat st) = map fst (all_comments_data st) /\
  NoDup (map fst (all_comments_data st)).
Proof.
  intros H. pose proof (reachable_same_keys _ (served_reachable _ H)) as [Hk Hnd].
  split; [by apply served_keys_hex | done].
Qed.

Lemma X8_items_have_hex_identifiers_witness :
  served (handle_comment_api_response empty_store ex_response) /\
  Forall (fun k => k <> EmptyString /\ all_hex k = true)
         (map fst (all_comments_data (handle_comment_api_response empty_store ex_response))).
Proof.
  assert (served (handle_comment_api_response empty_store ex_response)) as H
    by (apply served_step, served_empty).
  split; [exact H|].
  exact (proj1 (X8_items_have_hex_identifiers _ H)).
Defined.

(** *** Writing the two files *)

(** The block of the two writes touches the two names it is given. *)
Lemma write_files_frame open_raises json_path csv_path nested flat dir name :
  name <> json_path -> name <> csv_path ->
  (write_files open_raises json_path csv_path nested flat dir).1 !! name = dir !! name.
Proof.
  intros Hj Hc. unfold write_files.
  destruct (open_raises json_path) as [?|], (forallb comment_encodable nested),
    (open_raises csv_path) as [?|],
    (forallb row_encodable flat), flat; simpl; by rewrite ?lookup_insert_ne.
Qed.

(** It ends without an exception exactly when the files can be opened
    and what is written can be encoded; the files then hold what they
    were given. *)
Lemma write_files_raises_nothing open_raises json_path csv_path nested flat dir :
  (write_files open_raises json_path csv_path nested flat dir).2 = None <->
  open_raises json_path = None /\ forallb comment_encodable nested = true /\
  (flat <> [] -> open_raises csv_path = None /\ forallb row_encodable flat = true).
Proof.
  unfold write_files.
  destruct (open_raises json_path) as [?|], (forallb comment_encodable nested),
    (open_raises csv_path) as [?|],
    (forallb row_encodable flat), flat as [|f fs]; simpl;
    (split; [try done; by intros _; repeat split|]);
    try done; try (by intros (? & ? & ?)); intros (_ & _ & H); by destruct H.
Qed.

Lemma write_files_written open_raises json_path csv_path nested flat dir :
  json_path <> csv_path ->
  (write_files open_raises json_path csv_path nested flat dir).2 = None ->
  (write_files open_raises json_path csv_path nested flat dir).1 !! json_path
  = Some (JsonFile nested) /\
  (write_files open_raises json_path csv_path nested flat dir).1 !! csv_path
  = match flat with
    | [] => dir !! csv_path
    | _ => Some (CsvFile CSV_FIELDNAMES (map csv_row flat))
    end.
Proof.
  intros Hne. unfold write_files.
  destruct (open_raises json_path) as [?|], (forallb comment_encodable nested),
    (open_raises csv_path) as [?|],
    (forallb row_encodable flat), flat as [|f fs]; simpl; try done; intros _;
    by rewrite ?lookup_insert_eq, ?(lookup_insert_ne _ csv_path), ?lookup_insert_eq,
               ?(lookup_insert_ne _ json_path).
Qed.

Lemma aggregate_names_differ : codes ALL_JSON <> codes ALL_CSV.
Proof. by vm_compute. Qed.

(** *** The aggregate files over time *)

Lemma same_keys_data_nonempty st :
  same_keys st -> extend_all (all_comments_flat st) <> [] -> all_comments_data st <> [].
Proof.
  intros [Hk _] Hne Hd. rewrite Hd in Hk.
  destruct (all_comments_flat st); [by apply Hne | discriminate Hk].
Qed.

Lemma save_all_unfold open_raises st dir :
  all_comments_data st <> [] ->
  extend_all (all_comments_flat st) <> [] ->
  save_all_comments_to_file open_raises st dir
  = write_files open_raises (codes ALL_JSON) (codes ALL_CSV)
      (extend_all (all_comments_data st)) (extend_all (all_comments_flat st)) dir.
Proof.
  intros Hd Hf. unfold save_all_comments_to_file.
  destruct (all_comments_data st) as [|x l] eqn:Ed; [done|]. rewrite <- Ed.
  destruct (extend_all (all_comments_flat st)) as [|f fs] eqn:Ef; [done|].
  by destruct (extend_all (all_comments_data st)).
Qed.

Lemma save_all_frame open_raises st dir name :
  name <> codes ALL_JSON -> name <> codes ALL_CSV ->
  (save_all_comments_to_file open_raises st dir).1 !! name = dir !! name.
Proof.
  intros Hj Hc. unfold save_all_comments_to_file.
  destruct (all_comments_data st); [done|].
  destruct (extend_all _), (extend_all _); try done; by apply write_files_frame.
Qed.

Lemma save_all_written open_raises st dir dir' :
  same_keys st -> extend_all (all_comments_flat st) <> [] ->
  save_all_comments_to_file open_raises st dir = (dir', None) ->
  dir' !! codes ALL_CSV
  = Some (CsvFile CSV_FIELDNAMES (map csv_row (extend_all (all_comments_flat st)))) /\
  dir' !! codes ALL_JSON = Some (JsonFile (extend_all (all_comments_data st))).
Proof.
  intros Hk Hf. rewrite (save_all_unfold _ _ _ (same_keys_data_nonempty _ Hk Hf) Hf).
  intros E.
  destruct (write_files_written open_raises (codes ALL_JSON) (codes ALL_CSV)
              (extend_all (all_comments_data st)) (extend_all (all_comments_flat st)) dir
              aggregate_names_differ) as [Hj Hc]; [by rewrite E|].
  rewrite E in Hj, Hc. simpl in Hj, Hc. split; [|done].
  by destruct (extend_all (all_comments_flat st)).
Qed.

(** X9. The aggregate files only gain records. When a reachable store
    with at least one flat record is written, and written again after any
    further merges, and neither write raises, then the rows of the first
    CSV file are, in their order, among the rows of the second one, and
    the records of the first JSON file are, in their order, among those of
    the second (whatever the directory held before either write). *)
Theorem X9_aggregate_rows_stay open_raises open_raises' st st' dir dir' dir1 dir2 :
  reachable st -> steps st st' ->
  extend_all (all_comments_flat st) <> [] ->
  save_all_comments_to_file open_raises st dir = (dir1, None) ->
  save_all_comments_to_file open_raises' st' dir' = (dir2, None) ->
  exists rows rows' records records',
    dir1 !! codes ALL_CSV = Some (CsvFile CSV_FIELDNAMES rows) /\
    dir2 !! codes ALL_CSV = Some (CsvFile CSV_FIELDNAMES rows') /\
    rows `sublist_of` rows' /\
    dir1 !! codes ALL_JSON = Some (JsonFile records) /\
    dir2 !! codes ALL_JSON = Some (JsonFile records') /\
    records `sublist_of` records'.
Proof.
  intros Hr Hs Hne H1 H2.
  pose proof (steps_grows _ _ Hs) as [Hg1 Hg2].
  apply dict_grows_extend_all in Hg1, Hg2.
  assert (extend_all (all_comments_flat st') <> []) as Hne'.
  { intros E. rewrite E in Hg2. by apply sublist_nil_r in Hg2. }
  pose proof (reachable_same_keys _ Hr) as Hk.
  pose proof (reachable_same_keys _ (steps_reachable _ _ Hr Hs)) as Hk'.
  destruct (save_all_written _ _ _ _ Hk Hne H1) as [-> ->].
  destruct (save_all_written _ _ _ _ Hk' Hne' H2) as [-> ->].
  do 4 eexists. repeat split; [|done]. by apply fmap_sublist.
Qed.

Lemma X9_aggregate_rows_stay_witness :
  reachable store_p /\
  exists rows rows' records records',
    (save_all_comments_to_file (fun _ => None) store_p ∅).1 !! codes ALL_CSV
    = Some (CsvFile CSV_FIELDNAMES rows) /\
    (save_all_comments_to_file (fun _ => None)
       (parse_and_merge store_p "def456" body_two) ∅).1 !! codes ALL_CSV
    = Some (CsvFile CSV_FIELDNAMES rows') /\
    rows `sublist_of` rows' /\
    (save_all_comments_to_file (fun _ => None) store_p ∅).1 !! codes ALL_JSON
    = Some (JsonFile records) /\
    (save_all_comments_to_file (fun _ => None)
       (parse_and_merge store_p "def456" body_two) ∅).1 !! codes ALL_JSON
    = Some (JsonFile records') /\
    records `sublist_of` records'.
Proof.
  assert (reachable store_p) as H by (apply reachable_step, reachable_empty).
  split; [exact H|].
  refine (X9_aggregate_rows_stay (fun _ => None) (fun _ => None) store_p _ ∅ ∅ _ _ H _ _ _ _).
  - apply steps_step, steps_refl.
  - vm_compute. discriminate.
  - apply surjective_pairing_none. reflexivity.
  - apply surjective_pairing_none. reflexivity.
Defined.

(** *** The identifier read from a URL *)

(** X11. The identifier read from a URL is always a run of lowercase
    hexadecimal characters, and it is empty exactly when the URL has
    neither [/explore/] nor [note_id=] followed by such a character. *)
Theorem X11_extracted_identifier_is_hex (u : string) :
  all_hex (extract_note_id_from_url u) = true /\
  (extract_note_id_from_url u = EmptyString <->
   no_run "/explore/" u /\ no_run "note_id=" u).
Proof.
  unfold extract_note_id_from_url.
  destruct (re_search_hex "/explore/" u) as [g|] eqn:E1.
  { pose proof (re_search_hex_hex _ _ _ E1) as [Hne Hh]. split; [done|].
    split; [done|]. intros [H%no_run_search _]. congruence. }
  destruct (re_search_hex "note_id=" u) as [g|] eqn:E2.
  { pose proof (re_search_hex_hex _ _ _ E2) as [Hne Hh]. split; [done|].
    split; [done|]. intros [_ H%no_run_search]. congruence. }
  split; [done|]. split; [|done].
  intros _. split; by apply re_search_hex_none.
Qed.

(** ** Further properties: names of files *)

Lemma replace_illegal_legal c :
  illegal_char (if illegal_char c then 95%N else c) = false.
Proof. by destruct (illegal_char c) eqn:E. Qed.

Lemma sanitize_filename_legal s :
  Forall (fun c => illegal_char c = false) (sanitize_filename s).
Proof.
  unfold sanitize_filename.
  assert (Forall (fun c => illegal_char c = false)
                 (map (fun c => if illegal_char c then 95%N else c) s)) as H.
  { apply Forall_forall. intros c (c0 & -> & _)%list_elem_of_fmap.
    apply replace_illegal_legal. }
  case_bool_decide; [by apply Forall_take | done].
Qed.

Lemma sanitize_filename_length s :
  List.length (sanitize_filename s) = Nat.min (List.length s) 200.
Proof.
  unfold sanitize_filename. case_bool_decide as H; rewrite length_map in H;
    rewrite ?length_take, length_map; lia.
Qed.

Lemma sanitize_filename_fixed s :
  (List.length s <= 200)%nat -> Forall (fun c => illegal_char c = false) s ->
  sanitize_filename s = s.
Proof.
  intros Hl Hs. unfold sanitize_filename. rewrite map_id_on.
  - case_bool_decide; [lia | done].
  - eapply Forall_impl; [exact Hs|]. by intros c ->.
Qed.

(** X12. The cleaned name has the length of the given one, cut at 200
    characters; character by character it is the given one with each of
    the nine illegal characters replaced by an underscore, so it holds
    none of them; cleaning a cleaned name changes nothing, and a name is
    left as it is exactly when it has at most 200 characters and none of
    the nine. *)
Theorem X12_sanitized_name (filename : pystr) :
  List.length (sanitize_filename filename) = Nat.min (List.length filename) 200 /\
  (forall i, sanitize_filename filename !! i
             = if decide (i < 200)%nat
               then (fun c => if illegal_char c then 95%N else c) <$> filename !! i
               else None) /\
  Forall (fun c => illegal_char c = false) (sanitize_filename filename) /\
  sanitize_filename (sanitize_filename filename) = sanitize_filename filename /\
  (sanitize_filename filename = filename <->
   (List.length filename <= 200)%nat /\ Forall (fun c => illegal_char c = false) filename).
Proof.
  pose proof (sanitize_filename_length filename) as Hlen.
  pose proof (sanitize_filename_legal filename) as Hleg.
  split; [done|]. split; [|split; [done|split]].
  - intros i. unfold sanitize_filename, pystr.
    case_bool_decide as H; rewrite length_map in H.
    + destruct (decide (i < 200)%nat).
      * by rewrite lookup_take_lt, map_lookup.
      * by rewrite lookup_take_ge by lia.
    + rewrite map_lookup. destruct (decide (i < 200)%nat); [done|].
      by rewrite lookup_ge_None_2 by lia.
  - apply sanitize_filename_fixed; [lia | done].
  - split.
    + intros E. rewrite E in Hlen, Hleg. split; [lia | done].
    + intros [? ?]. by apply sanitize_filename_fixed.
Qed.

(** *** Stripping *)

Lemma lstrip_spec s :
  exists sp, s = sp ++ lstrip s /\ Forall (fun c => isspace c = true) sp /\
             no_space_first (lstrip s).
Proof.
  induction s as [|c s (sp & E & Hsp & Hn)]; simpl.
  - by exists [].
  - destruct (isspace c) eqn:Ec.
    + exists (c :: sp). split; [by rewrite <- app_comm_cons, <- E|]. split; [|done].
      by constructor.
    + by exists [].
Qed.

Lemma lstrip_id s : no_space_first s -> lstrip s = s.
Proof. destruct s as [|c s]; simpl; [done|]. by intros ->. Qed.

Lemma no_space_first_app_l (x y : pystr) :
  no_space_first (x ++ y) -> x <> [] -> no_space_first x.
Proof. by destruct x. Qed.

Lemma strip_spec s :
  exists a b, s = a ++ strip s ++ b /\
              Forall (fun c => isspace c = true) a /\
              Forall (fun c => isspace c = true) b /\
              no_space_first (strip s) /\ no_space_first (reverse (strip s)).
Proof.
  unfold strip.
  destruct (lstrip_spec s) as (a & Ea & Ha & Hn).
  destruct (lstrip_spec (reverse (lstrip s))) as (sp & Er & Hsp & Hr).
  set (t := lstrip s) in *. set (r := lstrip (reverse t)) in *.
  assert (t = reverse r ++ reverse sp) as Et.
  { rewrite <- reverse_app, <- Er. by rewrite reverse_involutive. }
  exists a, (reverse sp). split; [by rewrite <- Et|]. split; [done|].
  split; [by apply Forall_reverse|]. split; [|by rewrite reverse_involutive].
  destruct r as [|c r]; [done|].
  rewrite Et in Hn. apply (no_space_first_app_l _ _ Hn).
  intros E%(f_equal List.length). rewrite length_reverse in E. done.
Qed.

Lemma strip_idemp s : strip (strip s) = strip s.
Proof.
  destruct (strip_spec s) as (_ & _ & _ & _ & _ & H1 & H2).
  unfold strip at 1. rewrite (lstrip_id _ H1), (lstrip_id _ H2).
  apply reverse_involutive.
Qed.

(** ** Further properties: the list of URLs *)

Lemma read_cell_app urls c : read_cell urls c = urls ++ read_cell [] c.
Proof.
  unfold read_cell. destruct c as [[|c0 s]|]; rewrite ?app_nil_r; try done.
  destruct (strip (c0 :: s)); rewrite ?app_nil_r; [done|].
  by destruct (_ || _); rewrite ?app_nil_r.
Qed.

Lemma read_row_app urls row :
  foldl read_cell urls row = urls ++ foldl read_cell [] row.
Proof.
  revert urls. induction row as [|c row IH]; intros urls; simpl.
  - by rewrite app_nil_r.
  - rewrite IH, (IH (read_cell [] c)), read_cell_app. by rewrite app_assoc.
Qed.

Lemma read_rows_app urls rows :
  foldl (fun urls row => foldl read_cell urls row) urls rows
  = urls ++ foldl (fun urls row => foldl read_cell urls row) [] rows.
Proof.
  revert urls. induction rows as [|row rows IH]; intros urls; simpl.
  - by rewrite app_nil_r.
  - rewrite IH, (IH (foldl read_cell [] row)), read_row_app. by rewrite app_assoc.
Qed.

Lemma elem_of_read_cell u c :
  u ∈ read_cell [] c <->
  exists s, c = CellStr s /\ u = strip s /\
            (startswith u (codes "http://") = true \/
             startswith u (codes "https://") = true).
Proof.
  assert (startswith [] (codes "http://") = true \/
          startswith [] (codes "https://") = true -> False) as Hempty.
  { by intros [?|?]. }
  split.
  - unfold read_cell. destruct c as [[|c0 s]|]; try by intros ?%elem_of_nil.
    destruct (strip (c0 :: s)) as [|u0 us] eqn:Es; [by intros ?%elem_of_nil|].
    destruct (_ || _) eqn:Eb; [|by intros ?%elem_of_nil].
    intros Hu. apply list_elem_of_singleton in Hu as ->.
    exists (c0 :: s). split; [done|]. split; [done|].
    by apply orb_true_iff in Eb.
  - intros (s & -> & -> & H). unfold read_cell.
    destruct s as [|c0 s].
    { assert (strip [] = []) as E by done. rewrite E in H. by apply Hempty in H. }
    destruct (strip (c0 :: s)) as [|u0 us] eqn:Es.
    { by apply Hempty in H. }
    apply orb_true_iff in H. rewrite H. by apply list_elem_of_singleton.
Qed.

Lemma elem_of_read_row u row :
  u ∈ foldl read_cell [] row <-> exists c, c ∈ row /\ u ∈ read_cell [] c.
Proof.
  induction row as [|c row IH]; simpl.
  - split; [by intros ?%elem_of_nil | by intros (c & ?%elem_of_nil & _)].
  - rewrite read_row_app, elem_of_app, IH. split.
    + intros [H|(c1 & ? & ?)]; [exists c | exists c1]; split; auto; by constructor.
    + intros (c1 & [->|?]%elem_of_cons & ?); eauto.
Qed.

Lemma elem_of_read_rows u rows :
  u ∈ foldl (fun urls row => foldl read_cell urls row) [] rows <->
  exists row, row ∈ rows /\ u ∈ foldl read_cell [] row.
Proof.
  induction rows as [|row rows IH]; simpl.
  - split; [by intros ?%elem_of_nil | by intros (c & ?%elem_of_nil & _)].
  - rewrite read_rows_app, elem_of_app, IH. split.
    + intros [H|(r1 & ? & ?)]; [exists row | exists r1]; split; auto; by constructor.
    + intros (r1 & [->|?]%elem_of_cons & ?); eauto.
Qed.

(** X13. A URL is read from the sheet exactly when it is the stripped
    text of a string cell below the first row and starts with [http://]
    or [https://]; the first row is never looked at, and neither is a
    cell that holds something else than a string. What is read has no
    white space at either end. *)
Theorem X13_urls_read_from_sheet (sheet : option (list (list cell))) (u : pystr) :
  (u ∈ read_urls_from_excel sheet <->
   exists rows row s,
     sheet = Some rows /\ row ∈ drop 1 rows /\ CellStr s ∈ row /\ u = strip s /\
     (startswith u (codes "http://") = true \/ startswith u (codes "https://") = true)) /\
  (u ∈ read_urls_from_excel sheet -> strip u = u /\ u <> []).
Proof.
  assert (u ∈ read_urls_from_excel sheet <->
   exists rows row s,
     sheet = Some rows /\ row ∈ drop 1 rows /\ CellStr s ∈ row /\ u = strip s /\
     (startswith u (codes "http://") = true \/ startswith u (codes "https://") = true))
    as Hiff.
  { destruct sheet as [rows|]; simpl.
    - rewrite elem_of_read_rows. split.
      + intros (row & Hrow & (c & Hc & (s & -> & ? & ?)%elem_of_read_cell)%elem_of_read_row).
        by exists rows, row, s.
      + intros (rows0 & row & s & [= <-] & Hrow & Hc & Hu & Hs).
        exists row. split; [done|]. apply elem_of_read_row.
        exists (CellStr s). split; [done|]. apply elem_of_read_cell. by exists s.
    - split; [by intros ?%elem_of_nil | by intros (? & ? & ? & ? & _)]. }
  split; [done|].
  intros (rows & row & s & _ & _ & _ & -> & Hs)%Hiff. split; [apply strip_idemp|].
  intros E. rewrite E in Hs. by destruct Hs as [Hs|Hs]; vm_compute in Hs.
Qed.

(** *** Duplicates *)

Lemma fromkeys_snoc l x :
  fromkeys (l ++ [x]) = if bool_decide (x ∈ fromkeys l) then fromkeys l else fromkeys l ++ [x].
Proof. unfold fromkeys. by rewrite foldl_app. Qed.

Lemma elem_of_fromkeys l x : x ∈ fromkeys l <-> x ∈ l.
Proof.
  revert x. induction l as [|y l IH] using rev_ind; intros x; [done|].
  rewrite fromkeys_snoc. case_bool_decide as H; rewrite !elem_of_app, ?IH.
  - rewrite IH in H. split; [auto|]. intros [?|Hx]; [done|].
    by apply list_elem_of_singleton in Hx as ->.
  - done.
Qed.

Lemma NoDup_fromkeys l : NoDup (fromkeys l).
Proof.
  induction l as [|y l IH] using rev_ind; [constructor|].
  rewrite fromkeys_snoc. case_bool_decide as H; [done|].
  apply NoDup_app. split; [done|]. split; [|apply NoDup_singleton].
  intros x Hx Hy. by apply list_elem_of_singleton in Hy as ->.
Qed.

Lemma fromkeys_sublist l : fromkeys l `sublist_of` l.
Proof.
  induction l as [|y l IH] using rev_ind; [done|].
  rewrite fromkeys_snoc. case_bool_decide.
  - by apply sublist_inserts_r.
  - by apply sublist_app.
Qed.

Lemma fromkeys_app a b :
  fromkeys (a ++ b) = fromkeys a ++ filter (fun x => x ∉ a) (fromkeys b).
Proof.
  induction b as [|y b IH] using rev_ind.
  - by rewrite !app_nil_r.
  - rewrite app_assoc, !fromkeys_snoc, IH.
    assert (y ∈ fromkeys a ++ filter (fun x => x ∉ a) (fromkeys b)
            <-> y ∈ a \/ y ∈ fromkeys b) as Hin.
    { rewrite elem_of_app, elem_of_fromkeys, list_elem_of_filter.
      destruct (decide (y ∈ a)); tauto. }
    case_bool_decide as H1; case_bool_decide as H2; try done.
    + rewrite filter_app, filter_cons, filter_nil.
      destruct (decide (y ∉ a)) as [Hy|Hy]; [|by rewrite app_nil_r].
      apply Hin in H1. tauto.
    + rewrite Hin in H1. tauto.
    + rewrite filter_app, filter_cons, filter_nil.
      destruct (decide (y ∉ a)) as [Hy|Hy]; [by rewrite app_assoc|].
      rewrite Hin in H1. destruct (decide (y ∈ a)); tauto.
Qed.

(** X14. The list of URLs that [main] works through has no duplicate and
    holds exactly the URLs of the variable list and those read from the
    sheet. Each URL stands where it first occurred: the list is the given
    ones with later repetitions left out, the URLs of the variable list
    first, then those of the sheet that the variable list does not have. *)
Theorem X14_urls_without_duplicates (URL_LIST : list pystr)
    (sheet : option (list (list cell))) :
  NoDup (main_urls URL_LIST sheet) /\
  (forall u, u ∈ main_urls URL_LIST sheet <->
             u ∈ URL_LIST \/ u ∈ read_urls_from_excel sheet) /\
  main_urls URL_LIST sheet `sublist_of` URL_LIST ++ read_urls_from_excel sheet /\
  main_urls URL_LIST sheet
  = fromkeys URL_LIST
      ++ filter (fun u => u ∉ URL_LIST) (fromkeys (read_urls_from_excel sheet)) /\
  (forall u urls, fromkeys (u :: urls) = u :: filter (fun v => v <> u) (fromkeys urls)).
Proof.
  unfold main_urls. split; [apply NoDup_fromkeys|].
  split; [by intros u; rewrite elem_of_fromkeys, elem_of_app|].
  split; [apply fromkeys_sublist|]. split; [apply fromkeys_app|].
  intros u urls. change (u :: urls) with ([u] ++ urls). rewrite fromkeys_app.
  simpl. f_equal. apply list_filter_iff. intros v. by rewrite list_elem_of_singleton.
Qed.

(** ** Further properties: waiting for the login *)

Lemma wait_loop_spec evaluate wait_for_timeout fuel rounds :
  (rounds <= 150)%nat -> (150 - rounds <= fuel)%nat ->
  exists (b : bool) (n : nat),
    wait_loop fuel evaluate wait_for_timeout rounds (2 * Z.of_nat rounds)
    = Some (b, n, 2 * Z.of_nat (if b then n - 1 else n)%nat) /\
    (rounds <= (if b then n - 1 else n))%nat /\ (n <= 150)%nat /\
    (if b then (1 <= n)%nat /\ evaluate (n - 1)%nat = Some true /\
               wait_for_timeout (n - 1)%nat = true
     else n = 150%nat) /\
    (forall k, (rounds <= k < (if b then n - 1 else n))%nat ->
               ~ (evaluate k = Some true /\ wait_for_timeout k = true)).
Proof.
  revert rounds. induction fuel as [|fuel IH]; intros rounds Hc Hf.
  - assert (rounds = 150%nat) as -> by lia. exists false, 150%nat. simpl.
    repeat split; try lia; intros; lia.
  - simpl. case_bool_decide as Ht.
    + assert (rounds < 150)%nat as Hlt by lia.
      assert (~ (evaluate rounds = Some true /\ wait_for_timeout rounds = true) ->
              exists (b : bool) (n : nat),
                wait_loop fuel evaluate wait_for_timeout (S rounds) (2 * Z.of_nat rounds + 2)
                = Some (b, n, 2 * Z.of_nat (if b then n - 1 else n)%nat) /\
                (rounds <= (if b then n - 1 else n))%nat /\ (n <= 150)%nat /\
                (if b then (1 <= n)%nat /\ evaluate (n - 1)%nat = Some true /\
                           wait_for_timeout (n - 1)%nat = true
                 else n = 150%nat) /\
                (forall k, (rounds <= k < (if b then n - 1 else n))%nat ->
                           ~ (evaluate k = Some true /\ wait_for_timeout k = true)))
        as Hnext.
      { intros Hno. destruct (IH (S rounds)) as (b & n & E & H1 & H2 & H3 & H4); [lia..|].
        replace (2 * Z.of_nat rounds + 2) with (2 * Z.of_nat (S rounds)) by lia.
        exists b, n. rewrite E. repeat split; try done; [lia|].
        intros k Hk. destruct (decide (k = rounds)) as [->|]; [done|].
        apply H4. lia. }
      destruct (evaluate rounds) as [[|]|] eqn:Ee.
      * destruct (wait_for_timeout rounds) eqn:Ew.
        -- exists true, (S rounds). replace (S rounds - 1)%nat with rounds by lia.
           repeat split; try lia; try done; intros; lia.
        -- apply Hnext. by intros [_ ?].
      * apply Hnext. by intros [? _].
      * apply Hnext. by intros [? _].
    + assert (rounds = 150%nat) as -> by lia. exists false, 150%nat.
      repeat split; try lia; intros; lia.
Qed.

(** X15. The wait for the login always ends, after at most 150 rounds
    and at most 300 seconds of sleep between them. It returns [True] in
    the first round in which the page answers yes and the pause that
    follows the answer returns, if there is such a round among the first
    150; otherwise it returns [False] after exactly 150 rounds. A check
    that raises counts as a check that answers no, and so does a positive
    answer after which the pause raises. *)
Theorem X15_wait_for_login_ends (fuel : nat) (evaluate : nat -> option bool)
    (wait_for_timeout : nat -> bool) :
  (150 <= fuel)%nat ->
  exists (b : bool) (rounds : nat) (slept : Z),
    wait_for_login fuel evaluate wait_for_timeout = Some (b, rounds, slept) /\
    (rounds <= 150)%nat /\ 0 <= slept <= 300 /\
    (b = true <-> exists k, (k < 150)%nat /\ evaluate k = Some true /\
                            wait_for_timeout k = true) /\
    (b = true -> evaluate (rounds - 1)%nat = Some true /\
                 wait_for_timeout (rounds - 1)%nat = true /\
                 slept = 2 * (Z.of_nat rounds - 1) /\
                 forall k, (k < rounds - 1)%nat ->
                           ~ (evaluate k = Some true /\ wait_for_timeout k = true)) /\
    (b = false -> rounds = 150%nat /\ slept = 300).
Proof.
  intros Hf. unfold wait_for_login.
  destruct (wait_loop_spec evaluate wait_for_timeout fuel 0)
    as (b & n & E & H1 & H2 & H3 & H4); [lia..|].
  simpl in E. exists b, n, (2 * Z.of_nat (if b then n - 1 else n)%nat)%Z.
  split; [done|]. split; [done|]. destruct b.
  - destruct H3 as (H3 & H5 & H6). split; [lia|]. split; [|split; [|done]].
    + split; [|done]. intros _. exists (n - 1)%nat. split; [lia | done].
    + intros _. split; [done|]. split; [done|]. split; [lia|].
      intros k Hk. apply H4. lia.
  - subst n. split; [lia|]. split; [|split; [done|]].
    + split; [done|]. intros (k & Hk & Hek). exfalso. apply (H4 k); [lia | done].
    + intros _. split; [done | lia].
Qed.

Lemma X15_wait_for_login_ends_witness :
  (150 <= 150)%nat /\
  wait_for_login 150 (fun _ => Some true) (fun k => bool_decide (k = 3%nat))
  = Some (true, 4%nat, 6) /\
  exists (b : bool) (rounds : nat) (slept : Z),
    wait_for_login 150 (fun _ => Some true) (fun k => bool_decide (k = 3%nat))
    = Some (b, rounds, slept) /\ (rounds <= 150)%nat.
Proof.
  split; [lia|]. split; [reflexivity|].
  destruct (X15_wait_for_login_ends 150 (fun _ => Some true)
              (fun k => bool_decide (k = 3%nat)) (le_n 150))
    as (b & rounds & slept & E & Hr & _).
  exists b, rounds, slept. split; [exact E | exact Hr].
Defined.

(** ** Further properties: the per-item writer *)

Lemma N_of_ascii_inj a b : N_of_ascii a = N_of_ascii b -> a = b.
Proof.
  intros H. rewrite <- (ascii_N_embedding a), <- (ascii_N_embedding b). by rewrite H.
Qed.

Lemma codes_inj a b : codes a = codes b -> a = b.
Proof.
  unfold codes. revert b. induction a as [|c a IH]; intros [|d b]; simpl; try done.
  intros [= H1 H2]. f_equal; [by apply N_of_ascii_inj | by apply IH].
Qed.

Lemma is_hex_not_colon c : is_hex c = true -> N_of_ascii c <> 58%N.
Proof. destruct c as [[] [] [] [] [] [] [] []]; vm_compute; intros; congruence. Qed.

Lemma all_hex_no_colon n : all_hex n = true -> 58%N ∉ codes n.
Proof.
  induction n as [|c n IH]; simpl.
  - intros _. apply not_elem_of_nil.
  - intros [Hc Hn]%andb_true_iff. apply not_elem_of_cons. split; [|by apply IH].
    intros E. by apply (is_hex_not_colon c).
Qed.

Lemma extension_no_colon e : extension e -> 58%N ∉ codes e.
Proof.
  intros [-> | ->]; vm_compute; intros H;
    repeat (apply elem_of_cons in H as [H|H]; [discriminate H|]);
    by apply elem_of_nil in H.
Qed.

Lemma app_cons_inj (c : N) (a x b y : list N) :
  c ∉ x -> c ∉ y -> a ++ c :: x = b ++ c :: y -> a = b /\ x = y.
Proof.
  intros Hx Hy. revert b. induction a as [|a0 a IH]; intros [|b0 b]; simpl.
  - by intros [= ->].
  - intros [= -> ->]. exfalso. apply Hx, elem_of_app. right. by left.
  - intros [= -> <-]. exfalso. apply Hy, elem_of_app. right. by left.
  - intros [= -> H]. destruct (IH _ H) as [-> ->]. done.
Qed.

Lemma filename_base_split file_index safe_title n :
  filename_base file_index safe_title n
  = (str_of_int file_index ++ [32; 26631; 39064; 58]%N ++ safe_title
       ++ codes " note_id" ++ [20540%N]) ++ 58%N :: codes n.
Proof. unfold filename_base. by rewrite <- !app_assoc. Qed.

Lemma filename_split file_index safe_title n e :
  exists pre, filename_base file_index safe_title n ++ codes e
              = pre ++ 58%N :: (codes n ++ codes e).
Proof.
  exists (str_of_int file_index ++ [32; 26631; 39064; 58]%N ++ safe_title
            ++ codes " note_id" ++ [20540%N]).
  unfold filename_base. by rewrite <- !app_assoc.
Qed.

Lemma filename_inj i1 t1 n1 e1 i2 t2 n2 e2 :
  all_hex n1 = true -> all_hex n2 = true -> extension e1 -> extension e2 ->
  filename_base i1 t1 n1 ++ codes e1 = filename_base i2 t2 n2 ++ codes e2 ->
  n1 = n2 /\ e1 = e2.
Proof.
  intros H1 H2 He1 He2.
  destruct (filename_split i1 t1 n1 e1) as [pre1 ->].
  destruct (filename_split i2 t2 n2 e2) as [pre2 ->].
  intros [_ H]%app_cons_inj.
  - destruct He1 as [-> | ->], He2 as [-> | ->].
    + apply app_inv_tail in H. by apply codes_inj in H as ->.
    + change (codes ".json") with ([46; 106; 115; 111] ++ [110])%N in H.
      change (codes ".csv") with ([46; 99; 115] ++ [118])%N in H.
      rewrite !app_assoc in H. apply (f_equal last) in H.
      rewrite !last_snoc in H. discriminate H.
    + change (codes ".json") with ([46; 106; 115; 111] ++ [110])%N in H.
      change (codes ".csv") with ([46; 99; 115] ++ [118])%N in H.
      rewrite !app_assoc in H. apply (f_equal last) in H.
      rewrite !last_snoc in H. discriminate H.
    + apply app_inv_tail in H. by apply codes_inj in H as ->.
  - intros [?|?]%elem_of_app; [by apply (all_hex_no_colon n1) | by apply (extension_no_colon e1)].
  - intros [?|?]%elem_of_app; [by apply (all_hex_no_colon n2) | by apply (extension_no_colon e2)].
Qed.

Lemma filename_has_colon file_index safe_title n e :
  58%N ∈ filename_base file_index safe_title n ++ codes e.
Proof.
  rewrite filename_base_split. apply elem_of_app. left. apply elem_of_app. right. by left.
Qed.

(** The name of the files of an item: the file index of the item (or
    1), a cleaned title that is not empty, and the identifier. *)
Lemma item_filename_spec reg n :
  exists safe_title,
    (item_filename reg n).1
    = filename_base (default 1 (dict_lookup n (note_id_to_index reg))) safe_title n /\
    Forall (fun c => illegal_char c = false) safe_title /\
    (0 < List.length safe_title <= 200)%nat.
Proof.
  assert (forall t : pystr, t <> [] ->
            Forall (fun c => illegal_char c = false) (sanitize_filename t) /\
            (0 < List.length (sanitize_filename t) <= 200)%nat) as Hsafe.
  { intros t Ht. split; [apply sanitize_filename_legal|].
    rewrite sanitize_filename_length. destruct t; [done | simpl; lia]. }
  assert (forall t : pystr,
            match t with [] => codes "note_" ++ codes n | _ => t end <> []) as Hne.
  { intros [|? ?]; [|done]. intros E%(f_equal List.length).
    rewrite length_app in E. vm_compute in E. discriminate E. }
  unfold item_filename.
  destruct (default [] (dict_lookup n (note_id_to_title reg))) as [|t0 t] eqn:Et.
  - destruct (dict_lookup n (note_id_to_page reg)) as [p|] eqn:Ep.
    + destruct (is_closed p).
      * destruct (Hsafe _ (Hne [])) as [Hleg Hlen]. by eexists.
      * destruct (Hsafe _ (Hne (get_page_title p))) as [Hleg Hlen]. by eexists.
    + destruct (Hsafe _ (Hne [])) as [Hleg Hlen]. by eexists.
  - destruct (Hsafe (t0 :: t)) as [Hleg Hlen]; [done|].
    destruct (dict_lookup n (note_id_to_page reg)); by eexists.
Qed.

Lemma extensions_differ (base : pystr) : base ++ codes ".json" <> base ++ codes ".csv".
Proof. by intros H%app_inv_head. Qed.

Lemma save_comments_to_file_unfold open_raises st reg dir n :
  item_nested st n <> [] ->
  save_comments_to_file open_raises st reg dir n
  = ((item_filename reg n).2,
     (write_files open_raises ((item_filename reg n).1 ++ codes ".json")
        ((item_filename reg n).1 ++ codes ".csv") (item_nested st n) (item_flat st n) dir).1,
     (write_files open_raises ((item_filename reg n).1 ++ codes ".json")
        ((item_filename reg n).1 ++ codes ".csv") (item_nested st n) (item_flat st n) dir).2).
Proof.
  unfold save_comments_to_file, item_nested, item_flat.
  destruct (dict_lookup n (all_comments_data st)) as [[|c cs]|]; [done| |done]. intros _.
  destruct (item_filename reg n) as [base reg1]. simpl.
  by destruct (write_files _ _ _ _ _ _).
Qed.

Lemma save_comments_to_file_nothing open_raises st reg dir n :
  item_nested st n = [] -> save_comments_to_file open_raises st reg dir n = (reg, dir, None).
Proof.
  unfold save_comments_to_file, item_nested.
  by destruct (dict_lookup n (all_comments_data st)) as [[|c cs]|].
Qed.

(** The writer of an item touches names made with the identifier of the
    item only. *)
Lemma save_comments_to_file_frame open_raises st reg dir n name :
  (forall i t e, extension e -> name <> filename_base i t n ++ codes e) ->
  (save_comments_to_file open_raises st reg dir n).1.2 !! name = dir !! name.
Proof.
  intros Hname. destruct (decide (item_nested st n = [])) as [E|Hne].
  { by rewrite save_comments_to_file_nothing. }
  rewrite save_comments_to_file_unfold by done. simpl.
  destruct (item_filename_spec reg n) as (t & -> & _).
  apply write_files_frame; apply Hname; by (left + right).
Qed.

(** X16. For an item that has records, the per-item writer works under
    a name made of the file index of the item (1 when it has none), a
    title of 1 to 200 characters without any of the nine illegal
    characters, and the identifier of the item. When the JSON file cannot
    be opened under that name, the writer raises and no file is touched.
    When both files can be opened and no string of a record holds a lone
    surrogate, it raises nothing and leaves a JSON file with the nested
    sequence of the item and, when the item has flat records, a CSV file
    with the fixed header and one row for each of them; no other file is
    touched. *)
Theorem X16_item_files open_raises st reg dir n :
  item_nested st n <> [] ->
  let base := (item_filename reg n).1 in
  let result := save_comments_to_file open_raises st reg dir n in
  (exists safe_title,
     base = filename_base (default 1 (dict_lookup n (note_id_to_index reg))) safe_title n /\
     Forall (fun c => illegal_char c = false) safe_title /\
     (0 < List.length safe_title <= 200)%nat) /\
  (forall e, open_raises (base ++ codes ".json") = Some e ->
   result.1.2 = dir /\ result.2 = Some e) /\
  (open_raises (base ++ codes ".json") = None -> open_raises (base ++ codes ".csv") = None ->
   forallb comment_encodable (item_nested st n) = true ->
   forallb row_encodable (item_flat st n) = true ->
   result.2 = None /\
   result.1.2 !! (base ++ codes ".json") = Some (JsonFile (item_nested st n)) /\
   result.1.2 !! (base ++ codes ".csv")
   = match item_flat st n with
     | [] => dir !! (base ++ codes ".csv")
     | _ => Some (CsvFile CSV_FIELDNAMES (map csv_row (item_flat st n)))
     end) /\
  (forall name, name <> base ++ codes ".json" -> name <> base ++ codes ".csv" ->
                result.1.2 !! name = dir !! name).
Proof.
  intros Hne. simpl. rewrite save_comments_to_file_unfold by done. simpl.
  split; [apply item_filename_spec|]. split; [|split].
  - intros e Hj. unfold write_files. by rewrite Hj.
  - intros Hj Hc Hn Hf.
    assert ((write_files open_raises ((item_filename reg n).1 ++ codes ".json")
               ((item_filename reg n).1 ++ codes ".csv")
               (item_nested st n) (item_flat st n) dir).2 = None) as Hnone
      by (by apply write_files_raises_nothing).
    split; [done|]. by apply write_files_written; [apply extensions_differ|].
  - intros name H1 H2. by apply write_files_frame.
Qed.

Lemma X16_item_files_witness :
  item_nested store_p "abc123" <> [] /\
  (save_comments_to_file (fun _ => None) store_p ex_registry ∅ "abc123").2 = None /\
  (save_comments_to_file (fun _ => None) store_p ex_registry ∅ "abc123").1.2
    !! ((item_filename ex_registry "abc123").1 ++ codes ".json")
  = Some (JsonFile (item_nested store_p "abc123")).
Proof.
  assert (item_nested store_p "abc123" <> []) as H by (vm_compute; discriminate).
  split; [exact H|].
  destruct (proj1 (proj2 (proj2
              (X16_item_files (fun _ => None) store_p ex_registry ∅ "abc123" H)))
              eq_refl eq_refl eq_refl eq_refl) as (H1 & H2 & _).
  split; [exact H1 | exact H2].
Defined.

(** X17. The names of the files of two items with hexadecimal
    identifiers are different, whatever their titles and file indices, so
    that no item overwrites the files of another one; and no such name is
    the name of an aggregate file. Every such name holds a colon, one of
    the characters that the cleaning of the title replaces. *)
Theorem X17_file_names i1 t1 n1 e1 i2 t2 n2 e2 :
  all_hex n1 = true -> all_hex n2 = true -> extension e1 -> extension e2 ->
  (filename_base i1 t1 n1 ++ codes e1 = filename_base i2 t2 n2 ++ codes e2 ->
   n1 = n2 /\ e1 = e2) /\
  filename_base i1 t1 n1 ++ codes e1 <> codes ALL_JSON /\
  filename_base i1 t1 n1 ++ codes e1 <> codes ALL_CSV /\
  exists c, c ∈ filename_base i1 t1 n1 ++ codes e1 /\ illegal_char c = true.
Proof.
  intros H1 H2 He1 He2. split; [by apply filename_inj|].
  pose proof (filename_has_colon i1 t1 n1 e1) as Hc.
  split; [|split].
  - intros E. rewrite E in Hc. vm_compute in Hc.
    repeat (apply elem_of_cons in Hc as [Hc|Hc]; [discriminate Hc|]).
    by apply elem_of_nil in Hc.
  - intros E. rewrite E in Hc. vm_compute in Hc.
    repeat (apply elem_of_cons in Hc as [Hc|Hc]; [discriminate Hc|]).
    by apply elem_of_nil in Hc.
  - by exists 58%N.
Qed.

Lemma X17_file_names_witness :
  all_hex "abc123" = true /\ all_hex "def456" = true /\
  filename_base 1 (codes "t") "abc123" ++ codes ".json"
  <> filename_base 1 (codes "t") "def456" ++ codes ".json".
Proof.
  split; [reflexivity|]. split; [reflexivity|].
  intros E.
  destruct (proj1 (X17_file_names 1 (codes "t") "abc123" ".json"
                     1 (codes "t") "def456" ".json"
                     eq_refl eq_refl (or_introl eq_refl) (or_introl eq_refl)) E)
    as [E' _].
  discriminate E'.
Defined.

(** *** The final save *)

Lemma save_each_app open_raises st l1 l2 reg dir :
  save_each open_raises st (l1 ++ l2) reg dir
  = match save_each open_raises st l1 reg dir with
    | (reg1, dir1, None) => save_each open_raises st l2 reg1 dir1
    | stopped => stopped
    end.
Proof.
  revert reg dir. induction l1 as [|m l1 IH]; simpl; intros reg dir; [done|].
  destruct (save_comments_to_file open_raises st reg dir m) as [[reg1 dir1] [e|]]; [done|].
  apply IH.
Qed.

(** The loop touches names made with the identifiers it goes through. *)
Lemma save_each_frame open_raises st ks reg dir name :
  (forall k i t e, k ∈ ks -> extension e -> name <> filename_base i t k ++ codes e) ->
  (save_each open_raises st ks reg dir).1.2 !! name = dir !! name.
Proof.
  revert reg dir. induction ks as [|m ks IH]; simpl; intros reg dir Hname; [done|].
  pose proof (save_comments_to_file_frame open_raises st reg dir m name) as Hm.
  destruct (save_comments_to_file open_raises st reg dir m) as [[reg1 dir1] [e|]]; simpl in *.
  - apply Hm. intros i t e0. apply Hname. left.
  - rewrite IH; [apply Hm|].
    + intros i t e0. apply Hname. left.
    + intros k i t e0 Hk. apply Hname. by right.
Qed.

(** When the loop raises nothing, every item it went through that has
    records has its files, with what the store holds for it. *)
Lemma save_each_files open_raises st ks reg dir reg' dir' n :
  NoDup ks -> Forall (fun k => all_hex k = true) ks ->
  save_each open_raises st ks reg dir = (reg', dir', None) ->
  n ∈ ks -> item_nested st n <> [] ->
  exists file_index safe_title,
    dir' !! (filename_base file_index safe_title n ++ codes ".json")
    = Some (JsonFile (item_nested st n)) /\
    (item_flat st n <> [] ->
     dir' !! (filename_base file_index safe_title n ++ codes ".csv")
     = Some (CsvFile CSV_FIELDNAMES (map csv_row (item_flat st n)))).
Proof.
  revert reg dir. induction ks as [|m ks IH]; intros reg dir Hnd Hhex Hs Hin Hne;
    [by apply elem_of_nil in Hin|].
  apply NoDup_cons in Hnd as [Hm Hnd]. inversion Hhex as [|? ? Hmhex Hhex']; subst.
  simpl in Hs.
  destruct (save_comments_to_file open_raises st reg dir m) as [[reg1 dir1] [e|]] eqn:Es;
    [done|].
  destruct (decide (n = m)) as [->|Hnm].
  - rewrite save_comments_to_file_unfold in Es by done.
    inversion Es as [[Er Ed Ee]]. clear Es.
    destruct (item_filename_spec reg m) as (t & Eb & _).
    pose proof (write_files_written open_raises _ _ (item_nested st m) (item_flat st m) dir
                  (extensions_differ (item_filename reg m).1) Ee) as [Hj Hc].
    rewrite Ed, Eb in Hj, Hc.
    assert (forall e, extension e ->
              dir' !! (filename_base (default 1 (dict_lookup m (note_id_to_index reg))) t m
                       ++ codes e)
              = dir1 !! (filename_base (default 1 (dict_lookup m (note_id_to_index reg))) t m
                         ++ codes e)) as Hkeep.
    { intros e He. replace dir' with (save_each open_raises st ks reg1 dir1).1.2
        by (by rewrite Hs).
      apply save_each_frame. intros k i t' e' Hk He' E.
      assert (all_hex k = true) as Hkhex by (rewrite Forall_forall in Hhex'; auto).
      destruct (filename_inj _ _ _ _ _ _ _ _ Hmhex Hkhex He He' E) as [-> _]. done. }
    exists (default 1 (dict_lookup m (note_id_to_index reg))), t.
    rewrite (Hkeep ".json") by (by left). rewrite (Hkeep ".csv") by (by right).
    split; [done|]. revert Hc. destruct (item_flat st m); [done|].
    intros Hc _. exact Hc.
  - apply elem_of_cons in Hin as [|Hin]; [done|]. by eapply IH.
Qed.

Lemma final_save_unfold open_raises st reg dir :
  all_comments_data st <> [] ->
  final_save open_raises st reg dir
  = match save_each open_raises st (map fst (all_comments_data st)) reg dir with
    | (reg, dir, Some e) => (reg, dir, Some e)
    | (reg, dir, None) =>
      let '(dir, raised) := save_all_comments_to_file open_raises st dir in
      (reg, dir, raised)
    end.
Proof. unfold final_save. by destruct (all_comments_data st). Qed.

Lemma item_name_not_aggregate i t n e :
  filename_base i t n ++ codes e <> codes ALL_JSON /\
  filename_base i t n ++ codes e <> codes ALL_CSV.
Proof.
  pose proof (filename_has_colon i t n e) as Hc.
  split; intros E; rewrite E in Hc; vm_compute in Hc;
    repeat (apply elem_of_cons in Hc as [Hc|Hc]; [discriminate Hc|]);
    by apply elem_of_nil in Hc.
Qed.

(** X18. When the final save over a store that the handler has built
    ends without an exception, every item that has records has its JSON
    file in the directory, with its nested sequence, and its CSV file
    with its flat rows when it has any: the files written later in the
    loop for other items, and the aggregate files written last, have other
    names and leave them as they are. With a flat record in the store
    the two aggregate files are there too. *)
Theorem X18_final_save_keeps_every_item open_raises st reg dir reg' dir' :
  served st ->
  final_save open_raises st reg dir = (reg', dir', None) ->
  (forall n, item_nested st n <> [] ->
     exists file_index safe_title,
       dir' !! (filename_base file_index safe_title n ++ codes ".json")
       = Some (JsonFile (item_nested st n)) /\
       (item_flat st n <> [] ->
        dir' !! (filename_base file_index safe_title n ++ codes ".csv")
        = Some (CsvFile CSV_FIELDNAMES (map csv_row (item_flat st n))))) /\
  (extend_all (all_comments_flat st) <> [] ->
   dir' !! codes ALL_CSV
   = Some (CsvFile CSV_FIELDNAMES (map csv_row (extend_all (all_comments_flat st)))) /\
   dir' !! codes ALL_JSON = Some (JsonFile (extend_all (all_comments_data st)))).
Proof.
  intros Hs Hfinal. pose proof (served_reachable _ Hs) as Hr.
  pose proof (reachable_same_keys _ Hr) as Hk.
  assert (Forall (fun k => all_hex k = true) (map fst (all_comments_data st))) as Hhex.
  { eapply Forall_impl; [exact (served_keys_hex _ Hs)|]. by intros k [_ ?]. }
  unfold final_save in Hfinal.
  destruct (all_comments_data st) as [|x l] eqn:Ed.
  { split.
    - intros n Hne. unfold item_nested in Hne. by rewrite Ed in Hne.
    - intros Hne. by destruct (same_keys_data_nonempty _ Hk Hne). }
  rewrite <- Ed in *.
  destruct (save_each open_raises st (map fst (all_comments_data st)) reg dir)
    as [[reg1 dir1] [e|]] eqn:Eeach; [done|].
  destruct (save_all_comments_to_file open_raises st dir1) as [dir2 raised] eqn:Eall.
  inversion Hfinal; subst reg1 dir2 raised. split.
  - intros n Hne.
    assert (n ∈ map fst (all_comments_data st)) as Hin.
    { destruct (decide (n ∈ map fst (all_comments_data st))) as [?|Hn]; [done|].
      apply dict_lookup_None in Hn. unfold item_nested in Hne. by rewrite Hn in Hne. }
    destruct (save_each_files _ _ _ _ _ _ _ n (proj2 Hk) Hhex Eeach Hin Hne)
      as (i & t & Hj & Hc).
    exists i, t.
    assert (forall e, dir' !! (filename_base i t n ++ codes e)
                      = dir1 !! (filename_base i t n ++ codes e)) as Hkeep.
    { intros e. replace dir' with (save_all_comments_to_file open_raises st dir1).1
        by (by rewrite Eall).
      apply save_all_frame; apply item_name_not_aggregate. }
    by rewrite !Hkeep.
  - intros Hne. by eapply save_all_written.
Qed.

Lemma X18_final_save_keeps_every_item_witness :
  served (handle_comment_api_response empty_store ex_response) /\
  (final_save (fun _ => None) (handle_comment_api_response empty_store ex_response)
     ex_registry ∅).2 = None /\
  exists file_index safe_title,
    (final_save (fun _ => None) (handle_comment_api_response empty_store ex_response)
       ex_registry ∅).1.2 !! (filename_base file_index safe_title "abc123" ++ codes ".json")
    = Some (JsonFile (item_nested (handle_comment_api_response empty_store ex_response)
                                  "abc123")).
Proof.
  assert (served (handle_comment_api_response empty_store ex_response)) as H
    by (apply served_step, served_empty).
  assert ((final_save (fun _ => None) (handle_comment_api_response empty_store ex_response)
             ex_registry ∅).2 = None) as Hnone by (vm_compute; reflexivity).
  split; [exact H|]. split; [exact Hnone|].
  destruct (proj1 (X18_final_save_keeps_every_item (fun _ => None) _ ex_registry ∅ _ _ H
                     (surjective_pairing_none _ Hnone)) "abc123")
    as (i & t & Hj & _); [vm_compute; discriminate|].
  exists i, t. exact Hj.
Defined.

(** X19. An item whose write raises ends the final save: the exception
    is dropped, the items that come after it in the order of the keys are
    not written (no file under any of their names is touched), and
    neither are the aggregate files. *)
Theorem X19_failing_item_ends_final_save open_raises st reg dir l1 m l2 reg1 dir1 reg2 dir2 e :
  served st ->
  map fst (all_comments_data st) = l1 ++ m :: l2 ->
  save_each open_raises st l1 reg dir = (reg1, dir1, None) ->
  save_comments_to_file open_raises st reg1 dir1 m = (reg2, dir2, Some e) ->
  final_save open_raises st reg dir = (reg2, dir2, Some e) /\
  (forall n i t ext, n ∈ l2 -> extension ext ->
     dir2 !! (filename_base i t n ++ codes ext) = dir !! (filename_base i t n ++ codes ext)) /\
  dir2 !! codes ALL_JSON = dir !! codes ALL_JSON /\
  dir2 !! codes ALL_CSV = dir !! codes ALL_CSV.
Proof.
  intros Hs Hkeys H1 Hm. pose proof (served_reachable _ Hs) as Hr.
  pose proof (reachable_same_keys _ Hr) as [_ Hnd].
  assert (Forall (fun k => all_hex k = true) (map fst (all_comments_data st))) as Hhex.
  { eapply Forall_impl; [exact (served_keys_hex _ Hs)|]. by intros k [_ ?]. }
  rewrite Hkeys in Hnd, Hhex.
  assert (save_each open_raises st (l1 ++ [m]) reg dir = (reg2, dir2, Some e)) as Hstop.
  { rewrite save_each_app, H1. simpl. by rewrite Hm. }
  split; [|split].
  - rewrite final_save_unfold, Hkeys.
    + change (m :: l2) with ([m] ++ l2). by rewrite app_assoc, save_each_app, Hstop.
    + intros E. rewrite E in Hkeys. by destruct l1.
  - intros n i t ext Hn Hext.
    replace dir2 with (save_each open_raises st (l1 ++ [m]) reg dir).1.2 by (by rewrite Hstop).
    apply save_each_frame. intros k i' t' e' Hk He' E.
    assert (all_hex n = true) as Hnhex.
    { rewrite Forall_forall in Hhex. apply Hhex. apply elem_of_app. right. by right. }
    assert (all_hex k = true) as Hkhex.
    { rewrite Forall_forall in Hhex. apply Hhex.
      apply elem_of_app in Hk as [?|Hk]; apply elem_of_app; [by left|].
      apply list_elem_of_singleton in Hk as ->. right. left. }
    destruct (filename_inj _ _ _ _ _ _ _ _ Hnhex Hkhex Hext He' E) as [-> _].
    change (m :: l2) with ([m] ++ l2) in Hnd. rewrite app_assoc in Hnd.
    apply NoDup_app in Hnd as (_ & Hdis & _). by apply (Hdis k).
  - assert (forall name, (name = codes ALL_JSON \/ name = codes ALL_CSV) ->
              dir2 !! name = dir !! name) as Hagg; [|split; apply Hagg; auto].
    intros name Hname.
    replace dir2 with (save_each open_raises st (l1 ++ [m]) reg dir).1.2 by (by rewrite Hstop).
    apply save_each_frame. intros k i t e' _ _ E.
    destruct (item_name_not_aggregate i t k e') as [? ?]. destruct Hname; congruence.
Qed.

Lemma X19_failing_item_ends_final_save_witness :
  served (handle_comment_api_response empty_store ex_response) /\
  final_save (fun _ => Some OSError) (handle_comment_api_response empty_store ex_response)
    ex_registry ∅
  = ((item_filename ex_registry "abc123").2, ∅, Some OSError).
Proof.
  assert (served (handle_comment_api_response empty_store ex_response)) as H
    by (apply served_step, served_empty).
  split; [exact H|].
  refine (proj1 (X19_failing_item_ends_final_save (fun _ => Some OSError)
                   (handle_comment_api_response empty_store ex_response)
                   ex_registry ∅ [] "abc123" [] ex_registry ∅ _ _ OSError H _ _ _));
    reflexivity.
Defined.
